(** * printer-agent: job intake and delivery reliability

    A shallow embedding of [src/index.js]: the payload shape check, the
    persistent printer connection, the retrying print routine, the bounded
    single-worker queue, and the realtime listener with its watchdog.

    Conventions.
    - Mutable module-level variables of the script ([persistentDevice],
      [channel], [listenerAttempt], the queue object, ...) are fields of
      explicit state records that every operation takes and returns.
    - Everything the script reaches outside itself (the USB device, the
      ledger, the realtime feed) is an oracle indexed by the number of
      calls made so far, and every externally visible action is appended
      to a chronological trace.  The one conversion of the runtime that
      is not computed here (text to number) is an oracle too.
    - An [async] function is embedded twice where interleaving matters:
      cut at its [await] points (a resumable coroutine), and run to
      completion without interference. *)

From Stdlib Require Import List String Ascii ZArith Arith Bool Lia DecimalString.
From Equations Require Import Equations.
Import ListNotations.

Local Open Scope string_scope.
Local Open Scope list_scope.
Local Open Scope Z_scope.
Local Set Warnings "-register-all".

(* ================================================================== *)
(** * Configuration constants *)
(* ================================================================== *)

Definition PRINTER_TIMEOUT : Z := 8000.
Definition MAX_RETRIES : nat := 3.
Definition QUEUE_MAX_LENGTH : nat := 300.
Definition RETRY_BACKOFF_BASE : Z := 1000.
Definition LISTENER_BACKOFF_BASE : Z := 1000.

(** Constants that appear as literals in the code. *)
Definition GRACE_POLL : Z := 200.
Definition GRACE_LIMIT : Z := 5000.
Definition PRINT_SETTLE : Z := 100.

(* ================================================================== *)
(** * JavaScript values *)
(* ================================================================== *)

(** Payloads arrive as parsed JSON.  Numbers are carried as integers.
    The shape check looks at [typeof] and truthiness; building the
    receipt also reads properties and converts values to text and to
    numbers. *)
Inductive JsValue : Type :=
| JUndefined
| JNull
| JBool (b : bool)
| JNum (n : Z)
| JNaN
| JStr (s : string)
| JArr (items : list JsValue)
| JObj (fields : list (string * JsValue)).

Definition typeof (v : JsValue) : string :=
  match v with
  | JUndefined => "undefined"
  | JNull => "object"
  | JBool _ => "boolean"
  | JNum _ | JNaN => "number"
  | JStr _ => "string"
  | JArr _ | JObj _ => "object"
  end.

(** [ToBoolean]: what [!v] negates. *)
Definition truthy (v : JsValue) : bool :=
  match v with
  | JUndefined | JNull | JNaN => false
  | JBool b => b
  | JNum n => negb (n =? 0)
  | JStr s => negb (String.eqb s EmptyString)
  | JArr _ | JObj _ => true
  end.

Definition Array_isArray (v : JsValue) : bool :=
  match v with JArr _ => true | _ => false end.

Fixpoint lookup_field (k : string) (fs : list (string * JsValue)) : JsValue :=
  match fs with
  | [] => JUndefined
  | (k', v) :: rest => if String.eqb k k' then v else lookup_field k rest
  end.

(** Property read [v.k] for a named (non-index) key.  Reading a property
    of [undefined] or [null] raises a TypeError: [None]. *)
Definition getProp (v : JsValue) (k : string) : option JsValue :=
  match v with
  | JUndefined | JNull => None
  | JObj fs => Some (lookup_field k fs)
  | JArr l => Some (if String.eqb k "length" then JNum (Z.of_nat (List.length l)) else JUndefined)
  | JStr s => Some (if String.eqb k "length" then JNum (Z.of_nat (String.length s)) else JUndefined)
  | JBool _ | JNum _ | JNaN => Some JUndefined
  end.

(** [isValidJobPayload], statement by statement; [None] would be a thrown
    TypeError. *)
Definition isValidJobPayload (p : JsValue) : option bool :=
  if negb (truthy p) || negb (String.eqb (typeof p) "object") then Some false else
  match getProp p "invoice" with
  | None => None
  | Some invoice =>
    if negb (truthy invoice) || negb (String.eqb (typeof invoice) "object") then Some false else
    match getProp p "totals" with
    | None => None
    | Some totals =>
      if negb (truthy totals) then Some false else
      match getProp totals "total" with
      | None => None
      | Some total =>
        if negb (String.eqb (typeof total) "number") then Some false else
        match getProp p "items" with
        | None => None
        | Some items => if negb (Array_isArray items) then Some false else Some true
        end
      end
    end
  end.

(** The condition [!isValidJobPayload(data)] as the callers test it. *)
Definition validPayload (p : JsValue) : bool :=
  match isValidJobPayload p with
  | Some b => b
  | None => false
  end.

(** The four shape conditions, one by one, as pure predicates on a parsed
    payload (used to characterise [isValidJobPayload]). *)
Definition is_object (v : JsValue) : bool :=
  match v with JArr _ | JObj _ => true | _ => false end.

Definition prop_of (v : JsValue) (k : string) : JsValue :=
  match getProp v k with Some x => x | None => JUndefined end.

Definition is_number (v : JsValue) : bool :=
  match v with JNum _ | JNaN => true | _ => false end.

(** A minimal well-formed payload. *)
Definition sample_payload : JsValue :=
  JObj [ ("invoice", JObj [("number", JStr "F-1")]);
         ("totals", JObj [("total", JNum 1000)]);
         ("items", JArr []) ].

(* ================================================================== *)
(** * The outside world *)
(* ================================================================== *)

(** Ledger row identity.  Row ids reach the script as JSON primitives, on
    which [===] is structural equality. *)
Inductive JobId : Type :=
| IdNum (n : Z)
| IdStr (s : string).

Definition JobId_eqb (a b : JobId) : bool :=
  match a, b with
  | IdNum x, IdNum y => x =? y
  | IdStr x, IdStr y => String.eqb x y
  | _, _ => false
  end.

Inductive Status : Type := Pending | Printed | Error.

Inductive JsError : Type :=
| ErrInvalidPayload               (* new Error('Invalid job payload') *)
| ErrOpen (handle : nat)          (* device.open reported an error *)
| ErrSubmit (call : nat)          (* a printer command raised *)
| ErrHardwareTimeout              (* the timeout promise won the race *)
| ErrLedger (call : nat)          (* a ledger request rejected *)
| ErrRender                       (* TypeError while the receipt is built *)
| ErrNotAFunction.                (* TypeError: [....catch] is not a function *)

(** How one command sequence sent to the printer ends: every command
    is accepted and the task resolves [PRINT_SETTLE] ms later, or a
    command raises and the task rejects at once. *)
Inductive SubmitOutcome : Type := SubmitOk | SubmitThrows.

(** The collaborators, as stubs: the answer to the n-th physical open,
    the n-th command sequence, the n-th ledger request.  The last field
    is the runtime's: whether its conversion of a text or an array to a
    number gives a value above zero. *)
Record Env : Type := {
  dev_open : nat -> bool;
  dev_submit : nat -> SubmitOutcome;
  ledger_rejects : nat -> bool;
  coerced_above_zero : JsValue -> bool
}.

Inductive Event : Type :=
| EvOpen (handle : nat)                    (* device.open(...) issued *)
| EvClosePrinter (handle : nat)            (* persistentPrinter.close() *)
| EvCloseDevice (handle : nat)             (* persistentDevice.close() *)
| EvSubmit (id : JobId) (call : nat)       (* receipt commands issued *)
| EvWait (ms : Z)                          (* await wait(ms) *)
| EvPrintSuccess (id : JobId)              (* logger.info('Print success') *)
| EvPrintFailed (id : JobId) (attempt max : nat)
                                           (* `Print failed (attempt a/max)` *)
| EvJobFailed (id : JobId)                 (* 'Job processing failed' *)
| EvLedgerUpdate (id : JobId) (st : Status)(* update({status}).eq('id', id) *)
| EvQueueFull (id : JobId)
| EvDuplicate (id : JobId)
| EvInvalidPayload (id : JobId)
| EvJobAdded (id : JobId)
| EvPendingFailed                          (* 'Failed to fetch pending print jobs' *)
| EvSetImmediate                           (* setImmediate(() => this.next()) *)
| EvDeliveryStart (id : JobId)             (* next() calls printTicketSafe *)
| EvDeliveryEnd (id : JobId)               (* printTicketSafe settled *)
| EvQueueError (id : JobId).               (* 'Error processing job from queue' *)

(** Printer-side state: the three module variables of the connection
    section, call counters for the oracles, and the trace. *)
Record World : Type := mkWorld {
  persistentDevice : option nat;
  persistentPrinter : option nat;
  isDeviceInitializing : bool;
  opens : nat;
  submits : nat;
  writes : nat;
  trace : list Event
}.

Definition world0 : World := mkWorld None None false 0 0 0 [].

Definition emit (e : Event) (w : World) : World :=
  mkWorld (persistentDevice w) (persistentPrinter w) (isDeviceInitializing w)
          (opens w) (submits w) (writes w) (trace w ++ [e]).

Definition set_conn (dv pr : option nat) (init : bool) (w : World) : World :=
  mkWorld dv pr init (opens w) (submits w) (writes w) (trace w).

Definition set_initializing (init : bool) (w : World) : World :=
  set_conn (persistentDevice w) (persistentPrinter w) init w.

Definition wait (ms : Z) (w : World) : World := emit (EvWait ms) w.

(* ================================================================== *)
(** * Printer connection (persistent) *)
(* ================================================================== *)

Record Connection : Type := mkConn { device : nat; printer : nat }.

(** [persistentDevice && persistentPrinter] *)
Definition ready (w : World) : option Connection :=
  match persistentDevice w, persistentPrinter w with
  | Some dv, Some pr => Some (mkConn dv pr)
  | _, _ => None
  end.

Definition cleanupPrinterConnection (w : World) : World :=
  let w1 := match persistentPrinter w with
            | Some pr => emit (EvClosePrinter pr) w
            | None => w
            end in
  let w2 := match persistentDevice w1 with
            | Some dv => emit (EvCloseDevice dv) w1
            | None => w1
            end in
  set_conn None None false w2.

(** [getPrinterConnection] from [isDeviceInitializing = true] up to the
    [await] inside [promisifiedDeviceOpen]: the flag is raised, a device
    object is constructed and its [open] is called.  The handle is the
    number of the physical open. *)
Definition open_begin (w : World) : World * nat :=
  let h := opens w in
  let w1 := set_initializing true w in
  (emit (EvOpen h)
     (mkWorld (persistentDevice w1) (persistentPrinter w1) (isDeviceInitializing w1)
              (S (opens w1)) (submits w1) (writes w1) (trace w1)), h).

(** ... and from the callback of [device.open] to the end. *)
Definition open_finish (ok : bool) (h : nat) (w : World) : World * (Connection + JsError) :=
  if ok then (set_conn (Some h) (Some h) false w, inl (mkConn h h))
  else (cleanupPrinterConnection (set_initializing false w), inr (ErrOpen h)).

(** ** [getPrinterConnection] as a coroutine

    Where the function is suspended, with the locals that are live
    there. *)
Inductive AcqPc : Type :=
| AcqWaiting (waited : Z)     (* at [await wait(200)] in the grace loop *)
| AcqOpening (h : nat)        (* at [await promisifiedDeviceOpen(device)] *)
| AcqReturned (c : Connection)
| AcqThrown (e : JsError).

(** After the grace loop: the second readiness test, then the open. *)
Definition after_grace (w : World) : World * AcqPc :=
  match ready w with
  | Some c => (w, AcqReturned c)
  | None => let '(w1, h) := open_begin w in (w1, AcqOpening h)
  end.

(** The loop test [isDeviceInitializing && waited < 5000] and what
    follows it up to the next suspension. *)
Definition grace_test (w : World) (waited : Z) : World * AcqPc :=
  if isDeviceInitializing w && (waited <? GRACE_LIMIT)
  then (wait GRACE_POLL w, AcqWaiting waited)
  else after_grace w.

(** A call, run up to its first suspension. *)
Definition acquire_enter (w : World) : World * AcqPc :=
  match ready w with
  | Some c => (w, AcqReturned c)
  | None =>
    if isDeviceInitializing w then grace_test w 0
    else let '(w1, h) := open_begin w in (w1, AcqOpening h)
  end.

(** A suspended call resumed: its timer fired, or its open called back. *)
Definition acquire_resume (env : Env) (w : World) (pc : AcqPc) : World * AcqPc :=
  match pc with
  | AcqWaiting waited => grace_test w (waited + GRACE_POLL)
  | AcqOpening h =>
    match open_finish (dev_open env h) h w with
    | (w1, inl c) => (w1, AcqReturned c)
    | (w1, inr e) => (w1, AcqThrown e)
    end
  | AcqReturned _ | AcqThrown _ => (w, pc)
  end.

(** The physical opens a step issued. *)
Definition opens_issued (before after : World) : nat := (opens after - opens before)%nat.

(** ** [getPrinterConnection] run alone

    The same function when nothing else runs while it is suspended. *)
Definition grace_left (waited : Z) : nat := Z.to_nat (GRACE_LIMIT - waited).
Arguments grace_left : simpl never.

Equations? grace_loop (w : World) (waited : Z) : World
  by wf (grace_left waited) lt :=
grace_loop w waited with Bool.bool_dec (isDeviceInitializing w && (waited <? GRACE_LIMIT)) true := {
  | left _ => grace_loop (wait GRACE_POLL w) (waited + GRACE_POLL)
  | right _ => w }.
Proof.
  apply andb_prop in e. destruct e as [_ e]. apply Z.ltb_lt in e.
  unfold grace_left, GRACE_LIMIT, GRACE_POLL in *. lia.
Qed.

Definition getPrinterConnection (env : Env) (w : World) : World * (Connection + JsError) :=
  match ready w with
  | Some c => (w, inl c)
  | None =>
    let w1 := if isDeviceInitializing w then grace_loop w 0 else w in
    match (if isDeviceInitializing w then ready w1 else None) with
    | Some c => (w1, inl c)
    | None => let '(w2, h) := open_begin w1 in open_finish (dev_open env h) h w2
    end
  end.

(* ================================================================== *)
(** * Print routine (single job) *)
(* ================================================================== *)

Inductive Completion : Type := Return | Throw (e : JsError).

Definition count_submit (w : World) : World :=
  mkWorld (persistentDevice w) (persistentPrinter w) (isDeviceInitializing w)
          (opens w) (S (submits w)) (writes w) (trace w).

(** ** Building the receipt

    The body of [printingTask] issues the receipt one printer command at
    a time.  What the printer does with the text is the printer's answer
    (the oracle's); what is embedded here is whether building the
    commands raises, statement by statement.  A step gives [Some] of its
    value, or [None] when it raises a TypeError. *)
Definition js_bind {A B : Type} (m : option A) (k : A -> option B) : option B :=
  match m with
  | Some a => k a
  | None => None
  end.

Notation "'let*' x ':=' m 'in' k" := (js_bind m (fun x => k))
  (at level 10, x name, m at level 100, k at level 200).

Definition done : option unit := Some tt.

(** [a || b] *)
Definition or_else (a b : JsValue) : JsValue := if truthy a then a else b.

Definition has_field (k : string) (fs : list (string * JsValue)) : bool :=
  existsb (fun kv => String.eqb k (fst kv)) fs.

(** Conversion to a primitive, with which [String(v)], [Number(v)], a
    template literal and a comparison with a number all begin.  A parsed
    object converts through [Object.prototype.toString], unless it has a
    property of its own named [toString]: a parsed value is never
    callable and [valueOf] gives the object back, so the conversion
    raises.  An array converts through [join], which converts every
    element. *)
Fixpoint converts (v : JsValue) : bool :=
  match v with
  | JObj fs => negb (has_field "toString" fs)
  | JArr l => forallb converts l
  | _ => true
  end.

Definition to_primitive (v : JsValue) : option unit :=
  if converts v then done else None.

(** [String(left || '')] and [String(right || '')] at the head of
    [drawRow]; the rest of [drawRow] works on text. *)
Definition drawRow_call (left right : JsValue) : option unit :=
  let* _ := to_primitive (or_else left (JStr EmptyString)) in
  to_primitive (or_else right (JStr EmptyString)).

(** [Number(amount)] in [formatCurrency], after its test for [undefined]
    and [null]. *)
Definition formatCurrency_call (amount : JsValue) : option unit :=
  match amount with
  | JUndefined | JNull => done
  | _ => to_primitive amount
  end.

(** [String(phone)] in [formatPhone], after its test [!phone].  What
    [formatPhone] returns is text or [phone] itself, which the template
    literal around the call then converts again. *)
Definition formatPhone_call (phone : JsValue) : option unit :=
  if truthy phone then
    let* _ := to_primitive phone in
    to_primitive phone
  else done.

(** [v > 0], once [v] has converted. *)
Definition above_zero (env : Env) (v : JsValue) : bool :=
  match v with
  | JNum n => 0 <? n
  | JBool b => b
  | JStr _ | JArr _ => coerced_above_zero env v
  | JUndefined | JNull | JNaN | JObj _ => false
  end.

Fixpoint forEach {A : Type} (f : A -> option unit) (l : list A) : option unit :=
  match l with
  | [] => done
  | x :: rest => let* _ := f x in forEach f rest
  end.

(** HEADER *)
Definition render_header (company : JsValue) : option unit :=
  let* name := getProp company "name" in
  let* _ := to_primitive (or_else name (JStr EmptyString)) in
  let* nit := getProp company "nit" in
  let* _ := to_primitive (or_else nit (JStr EmptyString)) in
  let* regime := getProp company "regime" in
  let* _ := (if truthy regime then to_primitive regime else done) in
  let* address := getProp company "address" in
  let* _ := (if truthy address then to_primitive address else done) in
  let* phone := getProp company "phone" in
  if truthy phone then formatPhone_call phone else done.

(** INVOICE INFO *)
Definition render_invoice (invoice : JsValue) : option unit :=
  let* number := getProp invoice "number" in
  let* _ := drawRow_call (JStr "FACTURA:") (or_else number (JStr "---")) in
  let* cashier := getProp invoice "cashier" in
  let* _ := to_primitive (or_else cashier (JStr EmptyString)) in
  let* date := getProp invoice "date" in
  let* _ := drawRow_call (JStr "FECHA:") (or_else date (JStr EmptyString)) in
  let* time := getProp invoice "time" in
  drawRow_call (JStr "HORA:") (or_else time (JStr EmptyString)).

(** CLIENT *)
Definition render_customer (customer : JsValue) : option unit :=
  let* name := getProp customer "name" in
  if truthy name then
    let* _ := to_primitive name in
    let* id_number := getProp customer "id_number" in
    if truthy id_number then to_primitive id_number else done
  else done.

(** ITEMS: the callback of [items.forEach]. *)
Definition render_item (item : JsValue) : option unit :=
  let* description := getProp item "description" in
  let* _ := to_primitive (or_else description (JStr EmptyString)) in
  let* qty := getProp item "qty" in
  let* _ := to_primitive qty in
  let* price := getProp item "price" in
  to_primitive price.

(** TOTALS *)
Definition render_totals (env : Env) (totals : JsValue) : option unit :=
  let* discount := getProp totals "discount" in
  let* _ := to_primitive (or_else discount (JNum 0)) in
  let* _ := (if above_zero env (or_else discount (JNum 0)) then
               let* subtotal := getProp totals "subtotal" in
               let* _ := formatCurrency_call subtotal in
               formatCurrency_call discount
             else done) in
  let* total := getProp totals "total" in
  formatCurrency_call (or_else total (JNum 0)).

(** [m === method], for a text [method]. *)
Definition strict_equals_text (m : JsValue) (method : string) : bool :=
  match m with
  | JStr s => String.eqb s method
  | _ => false
  end.

(** [payments.filter(p => p.method === method)] on an array. *)
Fixpoint filter_method (method : string) (l : list JsValue) : option (list JsValue) :=
  match l with
  | [] => Some []
  | p :: rest =>
      let* m := getProp p "method" in
      let* kept := filter_method method rest in
      Some (if strict_equals_text m method then p :: kept else kept)
  end.

(** [sumByMethod(method)]: only an array has a [filter] to call; the
    [reduce] converts the [amount] of every entry kept. *)
Definition sumByMethod (payments : JsValue) (method : string) : option unit :=
  match payments with
  | JArr l =>
      let* kept := filter_method method l in
      forEach (fun b => let* amount := getProp b "amount" in to_primitive amount) kept
  | _ => None
  end.

(** PAYMENTS; what follows the four sums is arithmetic on numbers. *)
Definition render_payments (payments : JsValue) : option unit :=
  let* _ := sumByMethod payments "cash" in
  let* _ := sumByMethod payments "bank_transfer" in
  let* _ := sumByMethod payments "credit_card" in
  sumByMethod payments "account_balance".

(** FOOTER *)
Definition render_footer (company : JsValue) : option unit :=
  let* footer := getProp company "footer" in
  to_primitive (or_else footer (JStr "Gracias por su compra")).

(** The [try] block inside [printingTask], from its first statement to
    [printer.cut()]. *)
Definition render (env : Env) (data : JsValue) : option unit :=
  let* data_items := getProp data "items" in
  let items := if Array_isArray data_items then data_items else JArr [] in
  let* data_company := getProp data "company" in
  let company := or_else data_company (JObj []) in
  let* data_invoice := getProp data "invoice" in
  let invoice := or_else data_invoice (JObj []) in
  let* data_totals := getProp data "totals" in
  let totals := or_else data_totals
                  (JObj [("subtotal", JNum 0); ("discount", JNum 0); ("total", JNum 0)]) in
  let* data_customer := getProp data "customer" in
  let customer := or_else data_customer (JObj []) in
  let* data_payments := getProp data "payments" in
  let payments := or_else data_payments (JArr []) in
  let* _ := render_header company in
  let* _ := render_invoice invoice in
  let* _ := render_customer customer in
  let* _ := match items with
            | JArr l => forEach render_item l
            | _ => done
            end in
  let* _ := render_totals env totals in
  let* _ := render_payments payments in
  render_footer company.

Definition renders (env : Env) (data : JsValue) : bool :=
  match render env data with
  | Some _ => true
  | None => false
  end.

(** The body of [printingTask]: the receipt is issued to the printer;
    the promise resolves [PRINT_SETTLE] ms later, or rejects at once
    when building the receipt or a printer command raised.  The first
    commands go to the printer before anything can raise, so every call
    counts as a command sequence.  Result: the world, the settle time,
    and the rejection if any. *)
Definition printingTask (env : Env) (jobId : JobId) (data : JsValue) (w : World)
  : World * (Z * option JsError) :=
  let n := submits w in
  let w1 := emit (EvSubmit jobId n) (count_submit w) in
  match render env data with
  | None => (w1, (0, Some ErrRender))
  | Some _ =>
    match dev_submit env n with
    | SubmitOk => (w1, (PRINT_SETTLE, None))
    | SubmitThrows => (w1, (0, Some (ErrSubmit n)))
    end
  end.

(** [Promise.race([printingTask, timeoutPromise])] *)
Definition Promise_race (task : Z * option JsError) : option JsError :=
  if fst task <? PRINTER_TIMEOUT then snd task else Some ErrHardwareTimeout.

(** The [try] block of [performPrint]. *)
Definition try_print (env : Env) (jobId : JobId) (data : JsValue) (w : World)
  : World * option JsError :=
  match getPrinterConnection env w with
  | (w1, inr e) => (w1, Some e)
  | (w1, inl _) =>
    let '(w2, task) := printingTask env jobId data w1 in
    match Promise_race task with
    | None => (emit (EvPrintSuccess jobId) w2, None)
    | Some e => (w2, Some e)
    end
  end.

(** The first two statements of the [catch] block. *)
Definition catch_print (jobId : JobId) (retryCount : nat) (w : World) : World :=
  cleanupPrinterConnection (emit (EvPrintFailed jobId (retryCount + 1) MAX_RETRIES) w).

Definition backoff (retryCount : nat) : Z := RETRY_BACKOFF_BASE * 2 ^ Z.of_nat retryCount.

(** [performPrint].  The recursion is the code's own: the call with
    [retryCount + 1] is made while [retryCount < MAX_RETRIES], so
    [MAX_RETRIES + 1 - retryCount] bounds the calls still to come.  The
    [finally] block only clears the timeout timer and leaves no mark. *)
Definition attempts_left (retryCount : nat) : nat := (S MAX_RETRIES - retryCount)%nat.
Arguments attempts_left : simpl never.

Equations? performPrint (env : Env) (w : World) (jobId : JobId) (data : JsValue)
  (retryCount : nat) : World * Completion
  by wf (attempts_left retryCount) lt :=
performPrint env w jobId data retryCount with validPayload data := {
  | false => (w, Throw ErrInvalidPayload)
  | true with try_print env jobId data w := {
    | (w1, None) => (w1, Return)
    | (w1, Some err) with lt_dec retryCount MAX_RETRIES := {
      | left _ =>
          performPrint env (wait (backoff retryCount) (catch_print jobId retryCount w1))
                       jobId data (retryCount + 1)
      | right _ => (catch_print jobId retryCount w1, Throw err) } } }.
Proof. unfold attempts_left. lia. Qed.

(* ================================================================== *)
(** * Ledger writes and [printTicketSafe] *)
(* ================================================================== *)

Definition count_write (w : World) : World :=
  mkWorld (persistentDevice w) (persistentPrinter w) (isDeviceInitializing w)
          (opens w) (submits w) (S (writes w)) (trace w).

(** [await supabase.from('print_jobs').update({ status }).eq('id', id)]:
    the request is issued; the flag tells whether the awaited promise
    rejected. *)
Definition ledger_update (env : Env) (jobId : JobId) (st : Status) (w : World) : World * bool :=
  (emit (EvLedgerUpdate jobId st) (count_write w), ledger_rejects env (writes w)).

(** [supabase.from('print_jobs').update({ status }).eq('id', id).catch(() => {})],
    with no [await].  The chain up to [eq] builds a query and sends
    nothing: a request leaves when the query is awaited or its [then] is
    called.  The query is a thenable without a [catch] method, so the
    call of [catch] raises a TypeError, and the statement ends there: no
    request is issued. *)
Definition ledger_update_quiet (jobId : JobId) (st : Status) (w : World) : World * Completion :=
  (w, Throw ErrNotAFunction).

(** The [try] block of [printTicketSafe]: the error that reaches [catch],
    if any. *)
Definition try_ticket (env : Env) (w : World) (jobId : JobId) (payload : JsValue)
  : World * option JsError :=
  match performPrint env w jobId payload 0 with
  | (w1, Throw e) => (w1, Some e)
  | (w1, Return) =>
    match ledger_update env jobId Printed w1 with
    | (w2, true) => (w2, Some (ErrLedger (writes w1)))
    | (w2, false) => (w2, None)
    end
  end.

Definition printTicketSafe (env : Env) (w : World) (jobId : JobId) (payload : JsValue)
  : World * Completion :=
  match try_ticket env w jobId payload with
  | (w1, None) => (w1, Return)
  | (w1, Some _) =>
    let w2 := emit (EvJobFailed jobId) w1 in
    match ledger_update env jobId Error w2 with
    | (w3, true) => (w3, Throw (ErrLedger (writes w2)))
    | (w3, false) => (w3, Return)
    end
  end.

(** The statuses requested for one row, oldest first. *)
Fixpoint status_writes (jobId : JobId) (tr : list Event) : list Status :=
  match tr with
  | [] => []
  | EvLedgerUpdate i st :: rest =>
      if JobId_eqb i jobId then st :: status_writes jobId rest else status_writes jobId rest
  | _ :: rest => status_writes jobId rest
  end.

(** All statuses requested, for any row. *)
Fixpoint all_status_writes (tr : list Event) : list Status :=
  match tr with
  | [] => []
  | EvLedgerUpdate _ st :: rest => st :: all_status_writes rest
  | _ :: rest => all_status_writes rest
  end.

(* ================================================================== *)
(** * Queue (bounded single-worker) *)
(* ================================================================== *)

Record Job : Type := mkJob { id : JobId; payload : JsValue }.

Record PrintQueue : Type := mkQueue {
  concurrency : nat;
  maxLength : nat;
  queue : list Job;
  running : nat
}.

(** The constructor, and [const queue = new PrintQueue()]. *)
Definition new_PrintQueue (concurrency maxLength : nat) : PrintQueue :=
  mkQueue concurrency maxLength [] 0.

Definition default_queue : PrintQueue := new_PrintQueue 1 QUEUE_MAX_LENGTH.

(** The queue object together with what its methods reach: callbacks
    handed to [setImmediate] and not yet run, the jobs whose
    [printTicketSafe] has been called and has not settled, and the
    printer-side world. *)
Record System : Type := mkSystem {
  pq : PrintQueue;
  immediates : nat;
  inflight : list Job;
  world : World
}.

Definition system_with (q : PrintQueue) : System := mkSystem q 0 [] world0.

Definition system0 : System := system_with default_queue.

Definition log (e : Event) (s : System) : System :=
  mkSystem (pq s) (immediates s) (inflight s) (emit e (world s)).

Definition setImmediate_next (s : System) : System :=
  log EvSetImmediate (mkSystem (pq s) (S (immediates s)) (inflight s) (world s)).

Definition size (s : System) : nat := List.length (queue (pq s)).

Definition queued (jobId : JobId) (q : list Job) : bool :=
  existsb (fun j => JobId_eqb (id j) jobId) q.

Definition push (job : Job) (s : System) : System * bool :=
  let q := pq s in
  if (maxLength q <=? List.length (queue q))%nat then (log (EvQueueFull (id job)) s, false)
  else if queued (id job) (queue q) then (log (EvDuplicate (id job)) s, false)
  else
    (setImmediate_next
       (mkSystem (mkQueue (concurrency q) (maxLength q) (queue q ++ [job]) (running q))
                 (immediates s) (inflight s) (world s)),
     true).

(** [next()] up to [await printTicketSafe(...)]. *)
Definition next_begin (s : System) : System :=
  let q := pq s in
  if (concurrency q <=? running q)%nat then s
  else
    match queue q with
    | [] => s
    | job :: rest =>
        log (EvDeliveryStart (id job))
          (mkSystem (mkQueue (concurrency q) (maxLength q) rest (S (running q)))
                    (immediates s) (inflight s ++ [job]) (world s))
    end.

Fixpoint remove_nth {A : Type} (k : nat) (l : list A) : list A :=
  match k, l with
  | _, [] => []
  | O, _ :: rest => rest
  | S k', x :: rest => x :: remove_nth k' rest
  end.

(** [next()] from the point where [printTicketSafe] settles: the
    delivery's own effects, the [catch], the [finally].  What the
    delivery did is recorded here, at its settlement; whatever the intake
    did since the dequeue is already in the trace. *)
Definition next_settle (env : Env) (k : nat) (s : System) : option System :=
  match nth_error (inflight s) k with
  | None => None
  | Some job =>
    let '(w1, r) := printTicketSafe env (world s) (id job) (payload job) in
    let w2 := emit (EvDeliveryEnd (id job)) w1 in
    let w3 := match r with
              | Return => w2
              | Throw _ => emit (EvQueueError (id job)) w2
              end in
    let q := pq s in
    Some (setImmediate_next
            (mkSystem (mkQueue (concurrency q) (maxLength q) (queue q) (running q - 1))
                      (immediates s) (remove_nth k (inflight s)) w3))
  end.

Definition ledger_quiet (jobId : JobId) (st : Status) (s : System) : System * Completion :=
  let '(w1, r) := ledger_update_quiet jobId st (world s) in
  (mkSystem (pq s) (immediates s) (inflight s) w1, r).

(** [addToQueue]; on both rejection branches the function ends with the
    outcome of the ledger statement. *)
Definition addToQueue (jobId : JobId) (data : JsValue) (s : System) : System * Completion :=
  if negb (validPayload data) then
    ledger_quiet jobId Error (log (EvInvalidPayload jobId) s)
  else
    let '(s1, pushed) := push (mkJob jobId data) s in
    if pushed then (log (EvJobAdded jobId) s1, Return)
    else ledger_quiet jobId Error s1.

(* ================================================================== *)
(** * Intake and the event loop around the queue *)
(* ================================================================== *)

(** A ledger row as the feed and the pending query deliver it. *)
Record Row : Type := mkRow { row_id : JobId; row_status : Status; row_payload : JsValue }.

(** The realtime INSERT callback of [createChannel]. *)
Definition on_insert (row : Row) (s : System) : System * Completion :=
  match row_status row with
  | Pending => addToQueue (row_id row) (row_payload row) s
  | _ => (s, Return)
  end.

(** [data.forEach(job => addToQueue(job.id, job.payload))]: an exception
    from the callback ends the iteration. *)
Fixpoint forEach_addToQueue (data : list Row) (s : System) : System * Completion :=
  match data with
  | [] => (s, Return)
  | job :: rest =>
      match addToQueue (row_id job) (row_payload job) s with
      | (s1, Return) => forEach_addToQueue rest s1
      | (s1, Throw e) => (s1, Throw e)
      end
  end.

(** [processPending] once its query is answered: [None] is an error
    reply, [Some data] the rows.  Its [catch] logs whatever was thrown,
    by the reply or by the iteration. *)
Definition processPending (reply : option (list Row)) (s : System) : System :=
  match reply with
  | None => log EvPendingFailed s
  | Some data =>
      match forEach_addToQueue data s with
      | (s1, Return) => s1
      | (s1, Throw _) => log EvPendingFailed s1
      end
  end.

(** What the event loop can run next. *)
Inductive Input : Type :=
| InInsert (row : Row)                    (* the feed reports an inserted row *)
| InPending (reply : option (list Row))   (* a pending query is answered *)
| InPush (job : Job)                      (* [queue.push(job)] called directly *)
| InImmediate                             (* a [setImmediate] callback runs *)
| InSettle (k : nat)                      (* the k-th delivery in flight settles *)
| InDetach.                               (* usb 'detach' for the printer *)

Definition take_immediate (s : System) : option System :=
  match immediates s with
  | O => None
  | S n => Some (mkSystem (pq s) n (inflight s) (world s))
  end.

(** One turn of the event loop.  An exception that leaves the INSERT
    callback goes to the realtime client that called it, which is not
    part of the script; the run goes on from the state the callback
    left. *)
Definition step (env : Env) (s : System) (i : Input) : option System :=
  match i with
  | InInsert row => Some (fst (on_insert row s))
  | InPending reply => Some (processPending reply s)
  | InPush job => Some (fst (push job s))
  | InImmediate =>
      match take_immediate s with
      | None => None
      | Some s1 => Some (next_begin s1)
      end
  | InSettle k => next_settle env k s
  | InDetach =>
      Some (mkSystem (pq s) (immediates s) (inflight s) (cleanupPrinterConnection (world s)))
  end.

Fixpoint run (env : Env) (s : System) (inputs : list Input) : option System :=
  match inputs with
  | [] => Some s
  | i :: rest =>
      match step env s i with
      | None => None
      | Some s1 => run env s1 rest
      end
  end.

(** States the event loop can be in, for a queue constructed with the
    given bounds. *)
Definition reachable (env : Env) (concurrency maxLength : nat) (s : System) : Prop :=
  exists inputs, run env (system_with (new_PrintQueue concurrency maxLength)) inputs = Some s.

Definition ids (q : list Job) : list JobId := map id q.




Definition is_delivery_start (jobId : JobId) (e : Event) : bool :=
  match e with EvDeliveryStart i => JobId_eqb i jobId | _ => false end.



(** The delays of all [wait] calls, oldest first. *)
Fixpoint waits (tr : list Event) : list Z :=
  match tr with
  | [] => []
  | EvWait ms :: rest => ms :: waits rest
  | _ :: rest => waits rest
  end.

Fixpoint count_events (p : Event -> bool) (tr : list Event) : nat :=
  match tr with
  | [] => O
  | e :: rest => if p e then S (count_events p rest) else count_events p rest
  end.

Definition is_submit (e : Event) : bool :=
  match e with EvSubmit _ _ => true | _ => false end.

Definition is_open (e : Event) : bool :=
  match e with EvOpen _ => true | _ => false end.

Definition is_print_failed (e : Event) : bool :=
  match e with EvPrintFailed _ _ _ => true | _ => false end.

(* ================================================================== *)
(** * Realtime listener and watchdog *)
(* ================================================================== *)

Inductive LEvent : Type :=
| LSubscribe (c : nat)          (* createChannel().subscribe(...) *)
| LRemoveChannel (c : nat)      (* supabase.removeChannel(c) *)
| LSetTimeout (ms : Z)          (* setTimeout(setupListener, ms) *)
| LProcessPending               (* processPending() called *)
| LConnected                    (* 'Realtime connected' *)
| LSetupFailed                  (* 'Failed to setup Supabase listener' *)
| LWatchdogRestart.             (* 'Watchdog: restarting listener' *)

(** Listener-side state: the module variables [channel] (a reference to
    a channel object) and [listenerAttempt]; the [state] field of every
    channel object created so far, by creation order; the delays of the
    timers armed with [setupListener]; the trace. *)
Record Listener : Type := mkListener {
  channel : option nat;
  listenerAttempt : nat;
  channels : list string;
  timers : list Z;
  ltrace : list LEvent
}.

Definition listener0 : Listener := mkListener None 0 [] [] [].

Definition lemit (e : LEvent) (l : Listener) : Listener :=
  mkListener (channel l) (listenerAttempt l) (channels l) (timers l) (ltrace l ++ [e]).

Definition set_channel (c : option nat) (l : Listener) : Listener :=
  mkListener c (listenerAttempt l) (channels l) (timers l) (ltrace l).

Definition set_attempt (n : nat) (l : Listener) : Listener :=
  mkListener (channel l) n (channels l) (timers l) (ltrace l).

(** [channel.state] *)
Definition channel_state (l : Listener) (c : nat) : string :=
  nth c (channels l) EmptyString.

Definition upper_ascii (a : ascii) : ascii :=
  let n := nat_of_ascii a in
  if ((97 <=? n) && (n <=? 122))%nat then ascii_of_nat (n - 32) else a.

Fixpoint toUpperCase (s : string) : string :=
  match s with
  | EmptyString => EmptyString
  | String a rest => String (upper_ascii a) (toUpperCase rest)
  end.

Definition includes (l : list string) (s : string) : bool := existsb (String.eqb s) l.

Definition listener_backoff (attempt : nat) : Z :=
  LISTENER_BACKOFF_BASE * 2 ^ Z.max 0 (Z.of_nat attempt - 1).

(** [listenerAttempt++], the backoff, [setTimeout(setupListener, backoff)]. *)
Definition schedule_resubscribe (l : Listener) : Listener :=
  let n := S (listenerAttempt l) in
  let ms := listener_backoff n in
  lemit (LSetTimeout ms)
    (mkListener (channel l) n (channels l) (timers l ++ [ms]) (ltrace l)).

(** [supabase.removeChannel(c)]; a failure is only logged. *)
Definition removeChannel (c : nat) (l : Listener) : Listener := lemit (LRemoveChannel c) l.

(** The early return of [setupListener]. *)
Definition already_listening (l : Listener) : bool :=
  match channel l with
  | None => false
  | Some c => String.eqb (channel_state l c) "joined" || String.eqb (channel_state l c) "joining"
  end.

(** [setupListener].  [subscribed] is what [createChannel()] followed by
    [subscribe(...)] does: [None] when one of them raises, [Some st]
    when the new channel object is left in state [st]. *)
Definition setupListener (subscribed : option string) (l : Listener) : Listener :=
  if already_listening l then l
  else
    let l1 := match channel l with
              | Some old => removeChannel old (set_channel None l)
              | None => l
              end in
    match subscribed with
    | Some st =>
        let c := List.length (channels l1) in
        lemit (LSubscribe c)
          (mkListener (Some c) (listenerAttempt l1) (channels l1 ++ [st]) (timers l1) (ltrace l1))
    | None => schedule_resubscribe (lemit LSetupFailed l1)
    end.

(** A subscribe attempt, whether it went through or raised. *)
Definition is_attempt (e : LEvent) : bool :=
  match e with LSubscribe _ | LSetupFailed => true | _ => false end.

(** The callback handed to [subscribe], for the channel [c] it closes
    over. *)
Definition on_status (c : nat) (status : string) (l : Listener) : Listener :=
  if String.eqb status "SUBSCRIBED" then
    lemit LProcessPending (lemit LConnected (set_channel (Some c) (set_attempt 0 l)))
  else if includes ["CLOSED"; "CHANNEL_ERROR"; "TIMED_OUT"] status then
    let l1 := removeChannel c l in
    let l2 := match channel l1 with
              | Some cur => if Nat.eqb cur c then set_channel None l1 else l1
              | None => l1
              end in
    schedule_resubscribe l2
  else l.

Definition shouldRestart (l : Listener) : bool :=
  match channel l with
  | None => true
  | Some c => includes ["CLOSED"; "ERRORED"; "CHANNEL_ERROR"] (toUpperCase (channel_state l c))
  end.

(** The [setInterval] callback. *)
Definition watchdog (subscribed : option string) (l : Listener) : Listener :=
  let l1 := if shouldRestart l
            then setupListener subscribed (lemit LWatchdogRestart l)
            else l in
  lemit LProcessPending l1.

Definition is_pull (e : LEvent) : bool :=
  match e with LProcessPending => true | _ => false end.

Fixpoint lcount (p : LEvent -> bool) (tr : list LEvent) : nat :=
  match tr with
  | [] => O
  | e :: rest => if p e then S (lcount p rest) else lcount p rest
  end.

(** Subscribe attempts and pulls made by one step. *)
Definition attempts_in (before after : Listener) : nat :=
  (lcount is_attempt (ltrace after) - lcount is_attempt (ltrace before))%nat.

Definition pulls_in (before after : Listener) : nat :=
  (lcount is_pull (ltrace after) - lcount is_pull (ltrace before))%nat.

(** A listener whose current channel is in a given state. *)
Definition listener_in (st : string) : Listener := mkListener (Some O) 0 [st] [] [].

(** Events a delivery can emit on the printer side. *)
Definition device_event (e : Event) : bool :=
  match e with
  | EvOpen _ | EvClosePrinter _ | EvCloseDevice _ | EvSubmit _ _ | EvWait _
  | EvPrintSuccess _ | EvPrintFailed _ _ _ => true
  | _ => false
  end.

Ltac split_shape :=
  repeat match goal with
  | |- context [lookup_field ?k ?f] =>
      let v := fresh "v" in
      generalize (lookup_field k f); intros v; destruct v; simpl
  | b : bool |- _ => destruct b; simpl
  | |- context [Z.eqb ?n 0] => destruct (Z.eqb n 0); simpl
  | |- context [String.eqb ?s EmptyString] => destruct (String.eqb s EmptyString); simpl
  end.

(* ================================================================== *)
(** * Stubs and scenarios used below *)
(* ================================================================== *)

(** A printer that opens and then rejects every command sequence. *)
Definition failing_stub : Env :=
  {| dev_open := fun _ => true; dev_submit := fun _ => SubmitThrows;
     ledger_rejects := fun _ => false;
     coerced_above_zero := fun _ => false |}.

(** No printer attached: every open fails. *)
Definition absent_stub : Env :=
  {| dev_open := fun _ => false; dev_submit := fun _ => SubmitOk;
     ledger_rejects := fun _ => false;
     coerced_above_zero := fun _ => false |}.

(** A printer that works. *)
Definition working_stub : Env :=
  {| dev_open := fun _ => true; dev_submit := fun _ => SubmitOk;
     ledger_rejects := fun _ => false;
     coerced_above_zero := fun _ => false |}.

(** Every attempt of the [try] block fails, whatever the connection
    state it starts from. *)
Definition always_fails (env : Env) (jobId : JobId) (data : JsValue) : Prop :=
  forall w, snd (try_print env jobId data w) <> None.

(** The backoff delays of retries [from], [from + 1], ..., [from + n - 1]. *)
Fixpoint backoffs (from n : nat) : list Z :=
  match n with
  | O => []
  | S n' => backoff from :: backoffs (S from) n'
  end.

(** [performPrint(jobId, data)] against each stub, from a fresh world. *)
Definition failing_delivery : World * Completion :=
  performPrint failing_stub world0 (IdNum 1) sample_payload 0.

Definition absent_delivery : World * Completion :=
  performPrint absent_stub world0 (IdNum 1) sample_payload 0.

(** A printer that rejects the first two command sequences only. *)
Definition flaky_stub : Env :=
  {| dev_open := fun _ => true;
     dev_submit := fun n => if (n <? 2)%nat then SubmitThrows else SubmitOk;
     ledger_rejects := fun _ => false;
     coerced_above_zero := fun _ => false |}.

Definition flaky_delivery : World * Completion :=
  performPrint flaky_stub world0 (IdNum 1) sample_payload 0.

(** Two overlapping calls of [getPrinterConnection] with no printer
    attached: the first starts an open; the second finds it in progress
    and waits; the first open fails; the second caller's timer fires. *)
Definition first_enters : World * AcqPc := acquire_enter world0.
Definition second_enters : World * AcqPc := acquire_enter (fst first_enters).
Definition first_open_fails : World * AcqPc :=
  acquire_resume absent_stub (fst second_enters) (snd first_enters).
Definition second_wakes : World * AcqPc :=
  acquire_resume absent_stub (fst first_open_fails) (snd second_enters).

Definition row1 : Row := mkRow (IdNum 1) Pending sample_payload.
Definition row2 : Row := mkRow (IdNum 2) Pending sample_payload.

(** Start-up with two pending rows: the pull at launch queues both and
    the worker starts on row 1; the pull that follows the subscription
    confirmation returns the same two rows, still pending, while row 1 is
    printing; then the worker drains the buffer. *)
Definition startup_run : option System :=
  run working_stub system0
      [InPending (Some [row1; row2]); InImmediate; InImmediate;
       InPending (Some [row1; row2]); InImmediate;
       InSettle 0; InImmediate; InSettle 0; InImmediate; InSettle 0; InImmediate].


(** A row reported again while its first delivery is still in flight. *)
Definition redelivery_run : option System :=
  run working_stub system0
      [InInsert row1; InImmediate; InInsert row1; InSettle 0; InImmediate; InSettle 0].

Definition state_of (r : option System) : System :=
  match r with
  | Some s => s
  | None => system0
  end.

(** Row 1 dequeued and its delivery not yet settled. *)
Definition row1_in_flight : System :=
  state_of (run working_stub system0 [InInsert row1; InImmediate]).

(** Rows 1 and 2 queued, row 1 dequeued and not yet settled. *)
Definition row2_waiting : System :=
  state_of (run working_stub system0 [InPending (Some [row1; row2]); InImmediate]).

Definition trace_of (r : option System) : list Event :=
  match r with
  | Some s => trace (world s)
  | None => []
  end.

(** The four shape conditions of the payload check. *)
Definition shape_ok (p : JsValue) : bool :=
  is_object p
  && is_object (prop_of p "invoice")
  && is_number (prop_of (prop_of p "totals") "total")
  && Array_isArray (prop_of p "items").

(** The worker-side invariant of the event loop: [running] counts the
    deliveries in flight, never exceeds [concurrency], a non-empty
    buffer always has a wake-up pending or a delivery in flight that will
    schedule one, and every delivery in flight was started. *)
Record worker_inv (s : System) : Prop := {
  inv_concurrency : (1 <= concurrency (pq s))%nat;
  inv_running : running (pq s) = List.length (inflight s);
  inv_bound : (running (pq s) <= concurrency (pq s))%nat;
  inv_progress : queue (pq s) <> [] -> (0 < immediates s)%nat \/ inflight s <> [];
  inv_started : forall job, In job (inflight s) ->
                (1 <= count_events (is_delivery_start (id job)) (trace (world s)))%nat
}.

(** Events of one [printTicketSafe]: printer-side events, the failure
    log, and a terminal status write. *)
Definition ticket_event (e : Event) : bool :=
  device_event e ||
  match e with
  | EvJobFailed _ | EvLedgerUpdate _ Printed | EvLedgerUpdate _ Error => true
  | _ => false
  end.

(** Events the queue and the intake emit themselves. *)
Definition loop_event (e : Event) : bool :=
  match e with
  | EvQueueFull _ | EvDuplicate _ | EvInvalidPayload _ | EvJobAdded _ | EvPendingFailed
  | EvSetImmediate | EvDeliveryStart _ | EvDeliveryEnd _ | EvQueueError _
  | EvClosePrinter _ | EvCloseDevice _ => true
  | _ => false
  end.

Definition is_pending_write (e : Event) : bool :=
  match e with EvLedgerUpdate _ Pending => true | _ => false end.

(** Inputs the runtime produces by itself: a scheduled wake-up runs, a
    delivery in flight settles. *)
Definition internal (i : Input) : bool :=
  match i with
  | InImmediate | InSettle _ => true
  | _ => false
  end.

(** What an operation may do to the printer-side world: extend the trace
    by printer-side events and leave the ledger call counter alone. *)
Definition device_step (w w' : World) (d : list Event) : Prop :=
  trace w' = trace w ++ d /\ forallb device_event d = true /\ writes w' = writes w.

(** The status a delivery writes for an outcome of [performPrint]. *)
Definition delivery_status (r : Completion) : Status :=
  match r with
  | Return => Printed
  | Throw _ => Error
  end.

(** Everything the core emits. *)
Definition core_event (e : Event) : bool := ticket_event e || loop_event e.

(** [s'] continues the trace of [s] with events of the given kind. *)
Definition extends (allowed : Event -> bool) (s s' : System) : Prop :=
  exists d, trace (world s') = trace (world s) ++ d /\ forallb allowed d = true.

(** The outcome of a call of [getPrinterConnection] that has finished. *)
Definition acq_result (r : World * AcqPc) : option (World * (Connection + JsError)) :=
  match r with
  | (w, AcqReturned c) => Some (w, inl c)
  | (w, AcqThrown e) => Some (w, inr e)
  | _ => None
  end.

(* ================================================================== *)
(** * Hot-plug handlers *)
(* ================================================================== *)

Definition VID : Z := 1171.     (* 0x0493 *)
Definition PID : Z := 34656.    (* 0x8760 *)

Record DeviceDescriptor : Type := mkDescriptor { idVendor : Z; idProduct : Z }.

(** The argument of a usb event: absent, or a device object whose
    [deviceDescriptor] may be absent. *)
Definition UsbDevice : Type := option (option DeviceDescriptor).

(** The two guards shared by the handlers: a device with a descriptor,
    and the descriptor of the managed printer. *)
Definition is_managed_printer (dev : UsbDevice) : bool :=
  match dev with
  | Some (Some d) => (idVendor d =? VID) && (idProduct d =? PID)
  | _ => false
  end.

(** [usb.on('detach', ...)] *)
Definition on_detach (dev : UsbDevice) (w : World) : World :=
  if is_managed_printer dev then cleanupPrinterConnection w else w.

(** [usb.on('attach', ...)]: the reconnect runs in the background and
    its failure is only logged. *)
Definition on_attach (env : Env) (dev : UsbDevice) (w : World) : World :=
  if is_managed_printer dev then fst (getPrinterConnection env w) else w.

(** The polls of the grace loop still to come from [waited], when the
    flag stays raised. *)
Definition polls_left (waited : Z) : nat :=
  Z.to_nat ((GRACE_LIMIT - waited + (GRACE_POLL - 1)) / GRACE_POLL).

Fixpoint emit_all (d : list Event) (w : World) : World :=
  match d with
  | [] => w
  | e :: rest => emit_all rest (emit e w)
  end.

(* ================================================================== *)
(** * Order of service *)
(* ================================================================== *)

(** The ids of the deliveries started, oldest first. *)
Fixpoint started_ids (tr : list Event) : list JobId :=
  match tr with
  | [] => []
  | EvDeliveryStart i :: rest => i :: started_ids rest
  | _ :: rest => started_ids rest
  end.

(** Every id the worker has taken so far, followed by the ids still
    waiting in the buffer. *)
Definition service_order (s : System) : list JobId :=
  started_ids (trace (world s)) ++ ids (queue (pq s)).

(** A printer whose command sequences are rejected [k] times, counted
    from call [from], and accepted afterwards. *)
Definition fails_then_works (env : Env) (from k : nat) : Prop :=
  (forall n, dev_open env n = true) /\
  (forall i, (i < k)%nat -> dev_submit env (from + i) = SubmitThrows) /\
  dev_submit env (from + k) = SubmitOk.

Fixpoint sum_Z (l : list Z) : Z :=
  match l with
  | [] => 0
  | x :: rest => x + sum_Z rest
  end.

(* ================================================================== *)
(** * Receipt helpers *)
(* ================================================================== *)

(** Text is a sequence of character codes; [length] and [substring] count
    them as the script's strings count code units. *)
Fixpoint repeat_string (s : string) (n : nat) : string :=
  match n with
  | O => EmptyString
  | S k => (s ++ repeat_string s k)%string
  end.

(** [drawRow(left, right, fillChar, maxCols)] on text arguments. *)
Definition drawRow (left right fillChar : string) (maxCols : Z) : string :=
  let l := substring 0 32 left in
  let r := right in
  let space := maxCols - Z.of_nat (String.length l) - Z.of_nat (String.length r) in
  let space := if space <? 1 then 1 else space in
  (l ++ repeat_string fillChar (Z.to_nat space) ++ r)%string.

Definition is_digit (a : ascii) : bool :=
  let n := nat_of_ascii a in ((48 <=? n) && (n <=? 57))%nat.

(** [\w] *)
Definition is_word (a : ascii) : bool :=
  let n := nat_of_ascii a in
  (is_digit a || ((65 <=? n) && (n <=? 90)) || ((97 <=? n) && (n <=? 122)) || (n =? 95))%nat.

(** [s.replace(/\D/g, '')] *)
Fixpoint only_digits (s : string) : string :=
  match s with
  | EmptyString => EmptyString
  | String a rest => if is_digit a then String a (only_digits rest) else only_digits rest
  end.

(** [formatPhone(phone)] on text. *)
Definition formatPhone (phone : string) : string :=
  if String.eqb phone EmptyString then EmptyString
  else
    let cleaned := only_digits phone in
    if (String.length cleaned =? 10)%nat
    then (substring 0 3 cleaned ++ " " ++ substring 3 3 cleaned ++ " " ++ substring 6 4 cleaned)%string
    else phone.

Definition starts_with_digit (s : string) : bool :=
  match s with
  | String a _ => is_digit a
  | EmptyString => false
  end.

(** The lookahead [(?=(\d{3})+(?!\d))]: one or more groups of three
    digits, then no digit. *)
Fixpoint thousands_ahead (s : string) : bool :=
  match s with
  | String a (String b (String c rest)) =>
      is_digit a && is_digit b && is_digit c &&
      (negb (starts_with_digit rest) || thousands_ahead rest)
  | _ => false
  end.

Definition word_at (c : option ascii) : bool :=
  match c with
  | Some a => is_word a
  | None => false
  end.

(** [\B]: not at a word boundary. *)
Definition non_boundary (prev next : option ascii) : bool :=
  Bool.eqb (word_at prev) (word_at next).

Definition head_char (s : string) : option ascii :=
  match s with
  | String a _ => Some a
  | EmptyString => None
  end.

(** [s.replace(/\B(?=(\d{3})+(?!\d))/g, '.')], scanning from a position
    whose previous character is [prev]. *)
Fixpoint group_from (prev : option ascii) (s : string) : string :=
  let here := if non_boundary prev (head_char s) && thousands_ahead s
              then "."%string else EmptyString in
  match s with
  | EmptyString => here
  | String a rest => (here ++ String a (group_from (Some a) rest))%string
  end.

Definition group_thousands (s : string) : string := group_from None s.

Fixpoint all_digits (s : string) : bool :=
  match s with
  | EmptyString => true
  | String a rest => is_digit a && all_digits rest
  end.

Fixpoint strip_dots (s : string) : string :=
  match s with
  | EmptyString => EmptyString
  | String a rest => if Ascii.eqb a "."%char then strip_dots rest else String a (strip_dots rest)
  end.

(** [formatCurrency] for the amounts the model carries exactly:
    [undefined] and [null] print as zero; an integer the script's
    numbers hold exactly (below 2^53 in size) is floored to itself and
    printed in decimal; [NaN] falls back to 0.  Larger integers, text and
    arrays (whose conversion by [Number] is not modelled) give [None],
    and so does an object whose conversion raises. *)
Definition formatCurrency (amount : JsValue) : option string :=
  match amount with
  | JUndefined | JNull => Some "$0"
  | JNum n =>
      if Z.abs n <? 2 ^ 53
      then Some ("$" ++ group_thousands (NilZero.string_of_int (Z.to_int n)))%string
      else None
  | JNaN => Some ("$" ++ group_thousands "0")%string
  | JObj _ => if converts amount then Some ("$" ++ group_thousands "0")%string else None
  | JBool b => Some ("$" ++ group_thousands (if b then "1" else "0"))%string
  | JStr _ | JArr _ => None
  end.

(** [s'] serves the buffer of [s] in order: the deliveries started since
    [s] are the front of what [s] had buffered followed by later arrivals. *)
Definition serves_in_order (s s' : System) : Prop :=
  exists started added,
    started_ids (trace (world s')) = started_ids (trace (world s)) ++ started /\
    started ++ ids (queue (pq s')) = ids (queue (pq s)) ++ added.

(** The configuration and the two bounds the queue object keeps. *)
Definition bounded (c m : nat) (s : System) : Prop :=
  concurrency (pq s) = c /\ maxLength (pq s) = m /\
  (List.length (queue (pq s)) <= m)%nat /\
  running (pq s) = List.length (inflight s) /\
  (List.length (inflight s) <= c)%nat.

(** The jobs the queue object answers for: buffered, or dequeued and not
    yet settled. *)
Definition held (s : System) : list Job := queue (pq s) ++ inflight s.

(** What is left for the runtime to do by itself: a buffered job takes a
    wake-up and a settlement, a job in flight a settlement and the
    wake-up it schedules. *)
Definition drain_measure (s : System) : nat :=
  (3 * List.length (queue (pq s)) + 2 * List.length (inflight s) + immediates s)%nat.

(** From [s] to [s'] no status request is withdrawn, and every job held
    in [s] is still held in [s'] or has had a status requested since. *)
Definition keeps_jobs (s s' : System) : Prop :=
  (forall i, (List.length (status_writes i (trace (world s))) <=
              List.length (status_writes i (trace (world s'))))%nat) /\
  (forall job, In job (held s) ->
     In job (held s') \/
     (List.length (status_writes (id job) (trace (world s))) <
      List.length (status_writes (id job) (trace (world s'))))%nat).

(** Rows 1 and 2 queued and row 1 in flight, then left to the worker
    until nothing is scheduled and nothing is in flight. *)
Definition drain_inputs : list Input :=
  [InImmediate; InSettle 0; InImmediate; InSettle 0; InImmediate].

Definition row2_drained : System := state_of (run working_stub row2_waiting drain_inputs).

(** The buffer at its default maximum: rows 1 to 300 queued, none
    started. *)
Definition full_system : System :=
  system_with
    (mkQueue 1 QUEUE_MAX_LENGTH
             (map (fun n => mkJob (IdNum (Z.of_nat n)) sample_payload) (seq 1 QUEUE_MAX_LENGTH))
             0).

(** A payload that passes the shape check and lists a [null] item. *)
Definition null_item_payload : JsValue :=
  JObj [ ("invoice", JObj [("number", JStr "F-2")]);
         ("totals", JObj [("total", JNum 1000)]);
         ("items", JArr [JNull]) ].

(** A well-formed payload with further fields, with given items, with
    given totals. *)
Definition payload_with (extra : list (string * JsValue)) : JsValue :=
  JObj ([ ("invoice", JObj []); ("totals", JObj [("total", JNum 1000)]); ("items", JArr []) ]
        ++ extra).

Definition payload_items (items : list JsValue) : JsValue :=
  JObj [ ("invoice", JObj []); ("totals", JObj [("total", JNum 1000)]); ("items", JArr items) ].

Definition payload_totals (totals : list (string * JsValue)) : JsValue :=
  JObj [ ("invoice", JObj []); ("totals", JObj (("total", JNum 1000) :: totals));
         ("items", JArr []) ].

(** An object that does not convert to a primitive. *)
Definition unconvertible : JsValue := JObj [("toString", JNull)].

(** The job [processPending] hands to [addToQueue] for a row. *)
Definition job_of_row (row : Row) : Job := mkJob (row_id row) (row_payload row).

Definition is_pending_failed (e : Event) : bool :=
  match e with EvPendingFailed => true | _ => false end.

(** A printer that does not open and a ledger that rejects everything. *)
Definition hostile_stub : Env :=
  {| dev_open := fun _ => false; dev_submit := fun _ => SubmitThrows;
     ledger_rejects := fun _ => true; coerced_above_zero := fun _ => false |}.

(** A row whose payload fails the shape check, and a pull that meets it
    first. *)
Definition bad_row : Row := mkRow (IdNum 9) Pending (JObj [("invoice", JNull)]).

Definition poisoned_pull : System := processPending (Some [bad_row; row1; row2]) system0.

(** A working printer with a ledger whose first request rejects. *)
Definition lossy_ledger_stub : Env :=
  {| dev_open := fun _ => true; dev_submit := fun _ => SubmitOk;
     ledger_rejects := fun n => Nat.eqb n 0;
     coerced_above_zero := fun _ => false |}.

(* ================================================================== *)
(** * Properties *)
(* ================================================================== *)

(** ** Identity of rows *)

Lemma JobId_eqb_eq (a b : JobId) : JobId_eqb a b = true <-> a = b.
Proof.
  destruct a as [x|x], b as [y|y]; simpl; split; intro H; try discriminate.
  - apply Z.eqb_eq in H. now subst.
  - injection H as ->. apply Z.eqb_refl.
  - apply String.eqb_eq in H. now subst.
  - injection H as ->. apply String.eqb_refl.
Qed.

Lemma JobId_eqb_refl (a : JobId) : JobId_eqb a a = true.
Proof. now apply JobId_eqb_eq. Qed.

Lemma JobId_eqb_neq (a b : JobId) : JobId_eqb a b = false <-> a <> b.
Proof.
  split.
  - intros H E. apply JobId_eqb_eq in E. congruence.
  - intros H. destruct (JobId_eqb a b) eqn:E; [|reflexivity].
    apply JobId_eqb_eq in E. contradiction.
Qed.

Lemma queued_In (x : JobId) (q : list Job) : queued x q = true <-> In x (ids q).
Proof.
  unfold queued, ids. rewrite existsb_exists, in_map_iff. split.
  - intros [j [Hj E]]. apply JobId_eqb_eq in E. now exists j.
  - intros [j [E Hj]]. exists j. split; [assumption|]. now apply JobId_eqb_eq.
Qed.

Lemma queued_not_In (x : JobId) (q : list Job) : queued x q = false <-> ~ In x (ids q).
Proof.
  rewrite <- queued_In. destruct (queued x q); split; congruence.
Qed.

(** ** The payload shape check *)

(** The check never raises: each property read is guarded. *)
Lemma isValidJobPayload_total (p : JsValue) : isValidJobPayload p <> None.
Proof.
  unfold isValidJobPayload.
  destruct p; simpl; split_shape; discriminate.
Qed.

(** It accepts exactly the payloads that are an object with an [invoice]
    object, a numeric [totals.total] and an [items] array. *)
Lemma validPayload_shape (p : JsValue) : validPayload p = shape_ok p.
Proof.
  unfold validPayload, shape_ok, isValidJobPayload, prop_of.
  destruct p; simpl; split_shape; reflexivity.
Qed.

Lemma shape_ok_false (p : JsValue) :
  shape_ok p = false <->
  is_object p = false \/ is_object (prop_of p "invoice") = false \/
  is_number (prop_of (prop_of p "totals") "total") = false \/
  Array_isArray (prop_of p "items") = false.
Proof.
  unfold shape_ok. rewrite !andb_false_iff. tauto.
Qed.

Example sample_payload_valid : validPayload sample_payload = true.
Proof. reflexivity. Qed.

(** ** Traces *)

Lemma count_events_app (p : Event -> bool) (a b : list Event) :
  count_events p (a ++ b) = (count_events p a + count_events p b)%nat.
Proof.
  induction a as [|e a IH]; simpl; [reflexivity|].
  destruct (p e); simpl; rewrite IH; reflexivity.
Qed.

Lemma waits_app (a b : list Event) : waits (a ++ b) = waits a ++ waits b.
Proof.
  induction a as [|e a IH]; simpl; [reflexivity|].
  destruct e; simpl; rewrite ?IH; reflexivity.
Qed.

Lemma status_writes_app (x : JobId) (a b : list Event) :
  status_writes x (a ++ b) = status_writes x a ++ status_writes x b.
Proof.
  induction a as [|e a IH]; simpl; [reflexivity|].
  destruct e; simpl; rewrite ?IH; try reflexivity.
  match goal with |- context [JobId_eqb ?i x] => destruct (JobId_eqb i x) end;
    simpl; rewrite ?IH; reflexivity.
Qed.

Lemma all_status_writes_app (a b : list Event) :
  all_status_writes (a ++ b) = all_status_writes a ++ all_status_writes b.
Proof.
  induction a as [|e a IH]; simpl; [reflexivity|].
  destruct e; simpl; rewrite ?IH; reflexivity.
Qed.

Lemma device_events_no_writes (d : list Event) :
  forallb device_event d = true -> all_status_writes d = [].
Proof.
  induction d as [|e d IH]; simpl; [reflexivity|].
  intros H. apply andb_prop in H. destruct H as [He Hd].
  destruct e; simpl in *; try discriminate; auto.
Qed.

Lemma device_events_count (p : Event -> bool) (d : list Event) :
  (forall e, device_event e = true -> p e = false) ->
  forallb device_event d = true -> count_events p d = O.
Proof.
  intros Hp. induction d as [|e d IH]; simpl; [reflexivity|].
  intros H. apply andb_prop in H. destruct H as [He Hd].
  rewrite (Hp e He). auto.
Qed.

(** ** The printer connection *)

Lemma device_step_refl (w : World) : device_step w w [].
Proof. unfold device_step. rewrite app_nil_r. auto. Qed.

Lemma device_step_trans (w1 w2 w3 : World) (d1 d2 : list Event) :
  device_step w1 w2 d1 -> device_step w2 w3 d2 -> device_step w1 w3 (d1 ++ d2).
Proof.
  unfold device_step. intros (T1 & F1 & W1) (T2 & F2 & W2).
  rewrite T2, T1, app_assoc, forallb_app, F1, F2. repeat split; congruence.
Qed.

Lemma device_step_emit (e : Event) (w : World) :
  device_event e = true -> device_step w (emit e w) [e].
Proof. intros H. unfold device_step. simpl. rewrite H. auto. Qed.

Lemma grace_loop_idle (w : World) (waited : Z) :
  isDeviceInitializing w = false -> grace_loop w waited = w.
Proof.
  intros H. simp grace_loop.
  destruct (bool_dec (isDeviceInitializing w && (waited <? GRACE_LIMIT)) true) as [e|e]; simpl.
  - rewrite H in e. discriminate.
  - reflexivity.
Qed.

Lemma grace_loop_spec (w : World) (waited : Z) :
  exists n,
    grace_loop w waited =
    mkWorld (persistentDevice w) (persistentPrinter w) (isDeviceInitializing w)
            (opens w) (submits w) (writes w) (trace w ++ repeat (EvWait GRACE_POLL) n).
Proof.
  funelim (grace_loop w waited).
  - destruct H as [n Hn]. exists (S n). rewrite Hn. simpl.
    rewrite <- app_assoc. reflexivity.
  - exists O. simpl. rewrite app_nil_r. destruct w; reflexivity.
Qed.

Lemma repeat_wait_device (n : nat) (ms : Z) :
  forallb device_event (repeat (EvWait ms) n) = true.
Proof. induction n; simpl; auto. Qed.

Lemma grace_loop_step (w : World) (waited : Z) :
  exists d, device_step w (grace_loop w waited) d /\
            ready (grace_loop w waited) = ready w /\
            isDeviceInitializing (grace_loop w waited) = isDeviceInitializing w /\
            opens (grace_loop w waited) = opens w /\
            submits (grace_loop w waited) = submits w.
Proof.
  destruct (grace_loop_spec w waited) as [n Hn]. rewrite Hn.
  exists (repeat (EvWait GRACE_POLL) n). unfold device_step, ready. simpl.
  rewrite repeat_wait_device. auto 10.
Qed.

Lemma cleanup_step (w : World) :
  exists d, device_step w (cleanupPrinterConnection w) d /\ waits d = [] /\
            count_events is_print_failed d = O.
Proof.
  unfold cleanupPrinterConnection, device_step.
  destruct w as [dv pr init o sb wr tr]; simpl.
  destruct pr as [p|], dv as [v|]; simpl.
  - exists [EvClosePrinter p; EvCloseDevice v]. rewrite <- app_assoc. auto.
  - exists [EvClosePrinter p]. auto.
  - exists [EvCloseDevice v]. auto.
  - exists []. rewrite app_nil_r. auto.
Qed.

Lemma cleanup_state (w : World) :
  persistentDevice (cleanupPrinterConnection w) = None /\
  persistentPrinter (cleanupPrinterConnection w) = None /\
  isDeviceInitializing (cleanupPrinterConnection w) = false /\
  opens (cleanupPrinterConnection w) = opens w /\
  submits (cleanupPrinterConnection w) = submits w.
Proof.
  unfold cleanupPrinterConnection.
  destruct w as [dv pr init o sb wr tr]; simpl.
  destruct pr, dv; simpl; auto.
Qed.

(** Teardown is idempotent and silent on an absent connection. *)
Lemma cleanup_absent (w : World) :
  persistentDevice w = None -> persistentPrinter w = None ->
  trace (cleanupPrinterConnection w) = trace w.
Proof.
  unfold cleanupPrinterConnection. destruct w as [dv pr init o sb wr tr]; simpl.
  intros -> ->. reflexivity.
Qed.

Lemma open_step (env : Env) (w : World) :
  exists d,
    device_step w (fst (let '(w2, h) := open_begin w in open_finish (dev_open env h) h w2)) d /\
    waits d = [] /\ count_events is_print_failed d = O.
Proof.
  unfold open_begin, open_finish. simpl.
  destruct (dev_open env (opens w)); simpl.
  - exists [EvOpen (opens w)]. unfold device_step. simpl. auto.
  - match goal with |- context [cleanupPrinterConnection ?x] =>
      destruct (cleanup_step x) as (d & (T & F & W) & Wt & C) end.
    exists (EvOpen (opens w) :: d). unfold device_step. rewrite T, W. simpl.
    rewrite <- app_assoc. simpl. auto.
Qed.

Lemma getPrinterConnection_step (env : Env) (w : World) :
  exists d,
    device_step w (fst (getPrinterConnection env w)) d /\
    count_events is_print_failed d = O /\
    (isDeviceInitializing w = false -> waits d = []).
Proof.
  unfold getPrinterConnection.
  destruct (ready w) as [c|] eqn:R.
  - exists []. simpl. split; [apply device_step_refl|auto].
  - destruct (isDeviceInitializing w) eqn:I.
    + destruct (grace_loop_step w 0) as (d1 & S1 & R1 & _).
      rewrite R1, R.
      destruct (open_step env (grace_loop w 0)) as (d2 & S2 & W2 & C2).
      exists (d1 ++ d2). split; [|split].
      * eapply device_step_trans; eauto.
      * rewrite count_events_app, C2.
        destruct (grace_loop_spec w 0) as [n Hn].
        destruct S1 as (T1 & _). rewrite Hn in T1. simpl in T1.
        apply app_inv_head in T1. subst d1.
        clear. induction n; simpl; auto.
      * discriminate.
    + destruct (open_step env w) as (d2 & S2 & W2 & C2).
      exists d2. auto.
Qed.

(** ** The print routine *)

Lemma try_print_step (env : Env) (jobId : JobId) (data : JsValue) (w : World) :
  exists d,
    device_step w (fst (try_print env jobId data w)) d /\
    count_events is_print_failed d = O /\
    (isDeviceInitializing w = false -> waits d = []).
Proof.
  unfold try_print.
  destruct (getPrinterConnection_step env w) as (d1 & S1 & C1 & W1).
  destruct (getPrinterConnection env w) as [w1 [c|e]]; simpl in *.
  - unfold printingTask.
    assert (Failed : exists d,
              device_step w (emit (EvSubmit jobId (submits w1)) (count_submit w1)) d /\
              count_events is_print_failed d = O /\
              (isDeviceInitializing w = false -> waits d = [])).
    { exists (d1 ++ [EvSubmit jobId (submits w1)]).
      split; [|split].
      - eapply device_step_trans; [exact S1|].
        unfold device_step. simpl. auto.
      - rewrite count_events_app, C1. reflexivity.
      - intros I. rewrite waits_app, (W1 I). reflexivity. }
    destruct (render env data); [|exact Failed].
    destruct (dev_submit env (submits w1)); unfold Promise_race; simpl; [|exact Failed].
    exists (d1 ++ [EvSubmit jobId (submits w1); EvPrintSuccess jobId]).
    split; [|split].
    + eapply device_step_trans; [exact S1|].
      unfold device_step. simpl. rewrite <- app_assoc. auto.
    + rewrite count_events_app, C1. reflexivity.
    + intros I. rewrite waits_app, (W1 I). reflexivity.
  - exists d1. auto.
Qed.

Lemma catch_print_step (jobId : JobId) (retryCount : nat) (w : World) :
  exists d,
    device_step w (catch_print jobId retryCount w)
                (EvPrintFailed jobId (retryCount + 1) MAX_RETRIES :: d) /\
    waits d = [] /\ count_events is_print_failed d = O /\
    isDeviceInitializing (catch_print jobId retryCount w) = false.
Proof.
  unfold catch_print.
  set (w1 := emit (EvPrintFailed jobId (retryCount + 1) MAX_RETRIES) w).
  destruct (cleanup_step w1) as (d & (T & F & W) & Wt & C).
  exists d. unfold device_step. rewrite T, W. subst w1. simpl.
  rewrite <- app_assoc. simpl. rewrite F.
  repeat split; auto; apply cleanup_state.
Qed.

(** The defining equation of [performPrint], with the retry test as the
    code writes it. *)
Lemma performPrint_eq (env : Env) (w : World) (jobId : JobId) (data : JsValue) (retryCount : nat) :
  performPrint env w jobId data retryCount =
  if negb (validPayload data) then (w, Throw ErrInvalidPayload)
  else
    match try_print env jobId data w with
    | (w1, None) => (w1, Return)
    | (w1, Some err) =>
        if (retryCount <? MAX_RETRIES)%nat
        then performPrint env (wait (backoff retryCount) (catch_print jobId retryCount w1))
                          jobId data (retryCount + 1)
        else (catch_print jobId retryCount w1, Throw err)
    end.
Proof.
  simp performPrint. destruct (validPayload data); simpl; [|reflexivity].
  destruct (try_print env jobId data w) as [w1 [e|]]; simpl; [|reflexivity].
  destruct (lt_dec retryCount MAX_RETRIES) as [L|L]; simpl.
  - apply Nat.ltb_lt in L. rewrite L. reflexivity.
  - apply Nat.ltb_nlt in L. rewrite L. reflexivity.
Qed.

(** A delivery touches the printer only: it never writes to the ledger. *)
Lemma performPrint_step (env : Env) (jobId : JobId) (data : JsValue) (retryCount : nat) (w : World) :
  exists d, device_step w (fst (performPrint env w jobId data retryCount)) d.
Proof.
  remember (MAX_RETRIES - retryCount)%nat as k eqn:Hk.
  revert retryCount w Hk.
  induction k as [|k IH]; intros rc w Hk; rewrite performPrint_eq;
    (destruct (validPayload data); simpl; [|exists []; apply device_step_refl]);
    destruct (try_print_step env jobId data w) as (d1 & S1 & _);
    destruct (try_print env jobId data w) as [w1 [e|]]; cbn [fst snd] in *; try (exists d1; exact S1);
    destruct (catch_print_step jobId rc w1) as (d2 & S2 & _).
  - assert (L : (rc <? MAX_RETRIES)%nat = false) by (apply Nat.ltb_nlt; lia).
    rewrite L. simpl. eexists. eapply device_step_trans; eassumption.
  - destruct (rc <? MAX_RETRIES)%nat eqn:L.
    + destruct (IH (rc + 1)%nat (wait (backoff rc) (catch_print jobId rc w1))) as (d3 & S3); [lia|].
      eexists. eapply device_step_trans; [exact S1|].
      eapply device_step_trans; [exact S2|].
      eapply device_step_trans; [|exact S3].
      apply (device_step_emit (EvWait (backoff rc))). reflexivity.
    + simpl. eexists. eapply device_step_trans; eassumption.
Qed.

(** A payload that fails the shape check is refused before the [try]
    block: the world is untouched. *)
Lemma performPrint_invalid (env : Env) (w : World) (jobId : JobId) (data : JsValue) (retryCount : nat) :
  validPayload data = false ->
  performPrint env w jobId data retryCount = (w, Throw ErrInvalidPayload).
Proof. intros H. rewrite performPrint_eq, H. reflexivity. Qed.

Lemma backoffs_app (from n m : nat) :
  backoffs from (n + m) = backoffs from n ++ backoffs (from + n) m.
Proof.
  revert from. induction n as [|n IH]; intros from; simpl.
  - now rewrite Nat.add_0_r.
  - rewrite IH. now rewrite Nat.add_succ_r.
Qed.

(** When every attempt fails, a call at [retryCount] makes one attempt
    for each count from [retryCount] to [MAX_RETRIES] inclusive, a
    backoff before each retry, and throws. *)
Lemma performPrint_exhausts (env : Env) (jobId : JobId) (data : JsValue) :
  validPayload data = true ->
  always_fails env jobId data ->
  forall (retryCount : nat) (w : World),
    (retryCount <= MAX_RETRIES)%nat ->
    isDeviceInitializing w = false ->
    exists w' e,
      performPrint env w jobId data retryCount = (w', Throw e) /\
      count_events is_print_failed (trace w') =
        (count_events is_print_failed (trace w) + (S MAX_RETRIES - retryCount))%nat /\
      waits (trace w') = waits (trace w) ++ backoffs retryCount (MAX_RETRIES - retryCount) /\
      In (EvPrintFailed jobId (S MAX_RETRIES) MAX_RETRIES) (trace w').
Proof.
  intros V F rc.
  remember (MAX_RETRIES - rc)%nat as k eqn:Hk.
  revert rc Hk.
  induction k as [|k IH]; intros rc Hk w Hrc I; rewrite performPrint_eq, V; cbn [negb];
    destruct (try_print_step env jobId data w) as (d1 & (T1 & _) & C1 & W1);
    specialize (W1 I); pose proof (F w) as Fw;
    destruct (try_print env jobId data w) as [w1 [e|]]; cbn [fst snd] in *; try congruence;
    destruct (catch_print_step jobId rc w1) as (d2 & (T2 & _) & W2 & C2 & I2).
  - assert (rc = MAX_RETRIES) by lia. subst rc.
    rewrite Nat.ltb_irrefl. do 2 eexists. split; [reflexivity|].
    rewrite T2, T1, !count_events_app, !waits_app, C1, W1.
    cbn [count_events is_print_failed waits backoffs]. rewrite C2, W2, !app_nil_r.
    split; [lia|]. split; [reflexivity|].
    apply in_or_app. right. left. reflexivity.
  - assert (L : (rc <? MAX_RETRIES)%nat = true) by (apply Nat.ltb_lt; lia).
    rewrite L.
    destruct (IH (rc + 1)%nat ltac:(lia) (wait (backoff rc) (catch_print jobId rc w1))
                 ltac:(lia) I2) as (w' & e' & E & Cn & Wt & Hin).
    exists w', e'. split; [exact E|].
    rewrite Cn, Wt.
    change (trace (wait (backoff rc) (catch_print jobId rc w1)))
      with (trace (catch_print jobId rc w1) ++ [EvWait (backoff rc)]).
    rewrite T2, T1, !count_events_app, !waits_app, C1, W1.
    cbn [count_events is_print_failed waits backoffs app]. rewrite C2, W2, !app_nil_r.
    split; [lia|]. split; [|exact Hin].
    rewrite <- app_assoc. cbn [app]. rewrite Nat.add_1_r. reflexivity.
Qed.

(** A printer that rejects every command sequence makes every attempt
    fail. *)
Lemma failing_stub_always_fails (jobId : JobId) (data : JsValue) :
  always_fails failing_stub jobId data.
Proof.
  intros w. unfold try_print.
  destruct (getPrinterConnection failing_stub w) as [w1 [c|e]]; [|simpl; discriminate].
  unfold printingTask. destruct (render failing_stub data); simpl; discriminate.
Qed.

(** C1 (evaluated on the code): with [MAX_RETRIES = 3] and a printer that
    rejects every command sequence, [performPrint] called with
    [retryCount = 0] issues four command sequences, not three: it logs
    "attempt 4/3" on the last one, waits 1000, 2000 and 4000 ms before the
    three retries, and throws the error of the last attempt. *)
Theorem performPrint_failing_stub_attempts :
  snd failing_delivery = Throw (ErrSubmit 3) /\
  count_events is_submit (trace (fst failing_delivery)) = 4%nat /\
  count_events is_print_failed (trace (fst failing_delivery)) = 4%nat /\
  waits (trace (fst failing_delivery)) = [backoff 0; backoff 1; backoff 2] /\
  waits (trace (fst failing_delivery)) = [1000; 2000; 4000] /\
  In (EvPrintFailed (IdNum 1) 4 MAX_RETRIES) (trace (fst failing_delivery)).
Proof.
  split; [vm_compute; reflexivity|].
  split; [vm_compute; reflexivity|].
  split; [vm_compute; reflexivity|].
  split; [vm_compute; reflexivity|].
  split; [vm_compute; reflexivity|].
  vm_compute. tauto.
Qed.

(** With no printer attached the opens are counted the same way: four
    opens, nothing submitted. *)
Example performPrint_absent_printer_attempts :
  snd absent_delivery = Throw (ErrOpen 3) /\
  count_events is_open (trace (fst absent_delivery)) = 4%nat /\
  count_events is_submit (trace (fst absent_delivery)) = 0%nat /\
  waits (trace (fst absent_delivery)) = [1000; 2000; 4000].
Proof. repeat split; vm_compute; reflexivity. Qed.

(** A printer that fails twice and then works: three command sequences,
    two backoffs, success. *)
Example performPrint_third_attempt_succeeds :
  snd flaky_delivery = Return /\
  count_events is_submit (trace (fst flaky_delivery)) = 3%nat /\
  waits (trace (fst flaky_delivery)) = [1000; 2000].
Proof. repeat split; vm_compute; reflexivity. Qed.

(** ** [addToQueue] and [push] *)

Lemma push_cases (job : Job) (s : System) :
  (snd (push job s) = true /\
   (List.length (queue (pq s)) < maxLength (pq s))%nat /\
   queued (id job) (queue (pq s)) = false /\
   fst (push job s) =
     mkSystem (mkQueue (concurrency (pq s)) (maxLength (pq s)) (queue (pq s) ++ [job])
                       (running (pq s)))
              (S (immediates s)) (inflight s) (emit EvSetImmediate (world s)))
  \/
  (snd (push job s) = false /\
   ((maxLength (pq s) <= List.length (queue (pq s)))%nat /\
      fst (push job s) = log (EvQueueFull (id job)) s
    \/ queued (id job) (queue (pq s)) = true /\
      fst (push job s) = log (EvDuplicate (id job)) s)).
Proof.
  unfold push.
  destruct (maxLength (pq s) <=? List.length (queue (pq s)))%nat eqn:Full.
  - right. apply Nat.leb_le in Full. simpl. auto.
  - apply Nat.leb_gt in Full.
    destruct (queued (id job) (queue (pq s))) eqn:Dup.
    + right. simpl. auto.
    + left. simpl. auto.
Qed.

Lemma pq_eta (q : PrintQueue) :
  mkQueue (concurrency q) (maxLength q) (queue q) (running q) = q.
Proof. destruct q; reflexivity. Qed.

(** What [addToQueue] does, case by case: the job is appended and a
    worker wake-up is scheduled, or the rejection is logged and the call
    ends in the TypeError of the ledger statement, the queue object left
    as it was. *)
Lemma addToQueue_cases (jobId : JobId) (data : JsValue) (s : System) :
  (validPayload data = true /\
   (List.length (queue (pq s)) < maxLength (pq s))%nat /\
   queued jobId (queue (pq s)) = false /\
   addToQueue jobId data s =
     (mkSystem (mkQueue (concurrency (pq s)) (maxLength (pq s))
                        (queue (pq s) ++ [mkJob jobId data]) (running (pq s)))
               (S (immediates s)) (inflight s)
               (emit (EvJobAdded jobId) (emit EvSetImmediate (world s))),
      Return))
  \/
  (exists e,
     (e = EvInvalidPayload jobId /\ validPayload data = false
      \/ e = EvQueueFull jobId /\ validPayload data = true /\
         (maxLength (pq s) <= List.length (queue (pq s)))%nat
      \/ e = EvDuplicate jobId /\ validPayload data = true /\
         queued jobId (queue (pq s)) = true) /\
     addToQueue jobId data s = (log e s, Throw ErrNotAFunction)).
Proof.
  unfold addToQueue, ledger_quiet, ledger_update_quiet.
  destruct (validPayload data) eqn:V; cbn [negb].
  - destruct (push_cases (mkJob jobId data) s) as [(P & L & D & E)|(P & [(L & E)|(D & E)])];
      destruct (push (mkJob jobId data) s) as [s1 pushed]; cbn [fst snd id] in *;
      rewrite P, E.
    + left. auto.
    + right. exists (EvQueueFull jobId). split; [right; left; auto | reflexivity].
    + right. exists (EvDuplicate jobId). split; [right; right; auto | reflexivity].
  - right. exists (EvInvalidPayload jobId). split; [left; auto | reflexivity].
Qed.

(** C5 (evaluated on the code): for a payload that fails the shape check
    (not an object, no invoice object, no numeric [totals.total], or
    [items] not an array), [performPrint] throws at once and leaves the
    world untouched (no connection acquired, nothing submitted, no
    backoff), whatever the retry count, and [addToQueue] does not
    enqueue the job; but [addToQueue] does not mark the row either: it
    logs the rejection and ends in the TypeError of its ledger statement,
    with no status requested for any row. *)
Theorem invalid_payload_is_left_pending
  (env : Env) (s : System) (w : World) (jobId : JobId) (data : JsValue) (retryCount : nat) :
  is_object data = false \/ is_object (prop_of data "invoice") = false \/
  is_number (prop_of (prop_of data "totals") "total") = false \/
  Array_isArray (prop_of data "items") = false ->
  (addToQueue jobId data s = (log (EvInvalidPayload jobId) s, Throw ErrNotAFunction) /\
   pq (fst (addToQueue jobId data s)) = pq s /\
   immediates (fst (addToQueue jobId data s)) = immediates s /\
   inflight (fst (addToQueue jobId data s)) = inflight s /\
   all_status_writes (trace (world (fst (addToQueue jobId data s)))) =
     all_status_writes (trace (world s))) /\
  performPrint env w jobId data retryCount = (w, Throw ErrInvalidPayload).
Proof.
  intros H. apply shape_ok_false in H. rewrite <- validPayload_shape in H.
  split.
  - unfold addToQueue, ledger_quiet, ledger_update_quiet. rewrite H. simpl.
    repeat split. rewrite all_status_writes_app. simpl. apply app_nil_r.
  - now apply performPrint_invalid.
Qed.

Lemma invalid_payload_is_left_pending_witness :
  snd (addToQueue (IdNum 7) (JObj [("invoice", JNull)]) system0) = Throw ErrNotAFunction /\
  trace (world (fst (addToQueue (IdNum 7) (JObj [("invoice", JNull)]) system0))) =
    [EvInvalidPayload (IdNum 7)] /\
  performPrint working_stub world0 (IdNum 7) (JObj [("invoice", JNull)]) 0 =
    (world0, Throw ErrInvalidPayload).
Proof.
  pose proof (invalid_payload_is_left_pending working_stub system0 world0 (IdNum 7)
                (JObj [("invoice", JNull)]) 0) as H.
  destruct H as [[A _] P].
  - right. left. reflexivity.
  - rewrite A. split; [reflexivity|]. split; [reflexivity|exact P].
Defined.

(** ** The bounded, deduplicating buffer *)

Lemma NoDup_snoc {A : Type} (l : list A) (x : A) :
  NoDup l -> ~ In x l -> NoDup (l ++ [x]).
Proof.
  induction l as [|y l IH]; simpl; intros N H.
  - constructor; [intros []|constructor].
  - inversion N as [|? ? Hy Nl]; subst. constructor.
    + rewrite in_app_iff. simpl. intros [Hin|[E|[]]]; [contradiction|subst; tauto].
    + apply IH; tauto.
Qed.

Lemma ids_app (a b : list Job) : ids (a ++ b) = ids a ++ ids b.
Proof. apply map_app. Qed.

Lemma push_queue (job : Job) (s : System) :
  queue (pq (fst (push job s))) =
  if snd (push job s) then queue (pq s) ++ [job] else queue (pq s).
Proof.
  destruct (push_cases job s) as [(P & _ & _ & E)|(P & [(_ & E)|(_ & E)])];
    rewrite P, E; reflexivity.
Qed.

Lemma push_nodup (job : Job) (s : System) :
  NoDup (ids (queue (pq s))) -> NoDup (ids (queue (pq (fst (push job s))))).
Proof.
  intros N.
  destruct (push_cases job s) as [(_ & _ & D & E)|(_ & [(_ & E)|(_ & E)])]; rewrite E; simpl; auto.
  rewrite ids_app. apply NoDup_snoc; [assumption|]. now apply queued_not_In.
Qed.

Lemma addToQueue_nodup (jobId : JobId) (data : JsValue) (s : System) :
  NoDup (ids (queue (pq s))) -> NoDup (ids (queue (pq (fst (addToQueue jobId data s))))).
Proof.
  intros N.
  destruct (addToQueue_cases jobId data s) as [(_ & _ & D & E)|(e & _ & E)]; rewrite E; simpl; auto.
  rewrite ids_app. apply NoDup_snoc; [assumption|]. now apply queued_not_In.
Qed.

(** A property of the system that every operation of the event loop
    keeps is kept by every step, and so holds in every state a run
    reaches. *)
Section Invariants.
Variable env : Env.
Variable P : System -> Prop.

Hypothesis P_addToQueue : forall jobId data s, P s -> P (fst (addToQueue jobId data s)).
Hypothesis P_log : forall s, P s -> P (log EvPendingFailed s).
Hypothesis P_push : forall job s, P s -> P (fst (push job s)).
Hypothesis P_next_begin : forall s s1, P s -> take_immediate s = Some s1 -> P (next_begin s1).
Hypothesis P_next_settle : forall k s s', P s -> next_settle env k s = Some s' -> P s'.
Hypothesis P_detach : forall s,
  P s -> P (mkSystem (pq s) (immediates s) (inflight s) (cleanupPrinterConnection (world s))).

Lemma forEach_addToQueue_invariant (data : list Row) (s : System) :
  P s -> P (fst (forEach_addToQueue data s)).
Proof.
  revert s. induction data as [|job data IH]; simpl; intros s H; auto.
  pose proof (P_addToQueue (row_id job) (row_payload job) s H) as H1.
  destruct (addToQueue (row_id job) (row_payload job) s) as [s1 [|e]]; simpl in *; auto.
Qed.

Lemma processPending_invariant (reply : option (list Row)) (s : System) :
  P s -> P (processPending reply s).
Proof.
  destruct reply as [data|]; simpl; [|auto].
  intros H. apply (forEach_addToQueue_invariant data) in H.
  destruct (forEach_addToQueue data s) as [s1 [|e]]; simpl in *; auto.
Qed.

Lemma step_invariant (s s' : System) (i : Input) :
  P s -> step env s i = Some s' -> P s'.
Proof.
  intros H E. destruct i as [row|reply|job| |k|]; simpl in E.
  - injection E as <-. unfold on_insert. destruct (row_status row); simpl; auto.
  - injection E as <-. now apply processPending_invariant.
  - injection E as <-. auto.
  - destruct (take_immediate s) as [s1|] eqn:T; [|discriminate].
    injection E as <-. eauto.
  - eauto.
  - injection E as <-. auto.
Qed.

Lemma run_invariant (inputs : list Input) (s s' : System) :
  P s -> run env s inputs = Some s' -> P s'.
Proof.
  revert s. induction inputs as [|i inputs IH]; simpl; intros s H E.
  - now injection E as <-.
  - destruct (step env s i) as [s1|] eqn:S1; [|discriminate].
    eapply IH; [|exact E]. eapply step_invariant; eassumption.
Qed.
End Invariants.

Lemma run_app (env : Env) (a b : list Input) (s : System) :
  run env s (a ++ b) =
  match run env s a with
  | Some s1 => run env s1 b
  | None => None
  end.
Proof.
  revert s. induction a as [|i a IH]; simpl; intros s; [reflexivity|].
  destruct (step env s i); auto.
Qed.

Lemma next_begin_cases (s : System) :
  (exists job rest,
     (running (pq s) < concurrency (pq s))%nat /\ queue (pq s) = job :: rest /\
     next_begin s =
       mkSystem (mkQueue (concurrency (pq s)) (maxLength (pq s)) rest (S (running (pq s))))
                (immediates s) (inflight s ++ [job])
                (emit (EvDeliveryStart (id job)) (world s)))
  \/
  (next_begin s = s /\
   ((concurrency (pq s) <= running (pq s))%nat \/ queue (pq s) = [])).
Proof.
  unfold next_begin.
  destruct (concurrency (pq s) <=? running (pq s))%nat eqn:C.
  - right. apply Nat.leb_le in C. auto.
  - apply Nat.leb_gt in C. destruct (queue (pq s)) as [|job rest] eqn:Q.
    + right. auto.
    + left. exists job, rest. auto.
Qed.

Lemma take_immediate_spec (s s1 : System) :
  take_immediate s = Some s1 ->
  immediates s = S (immediates s1) /\ pq s1 = pq s /\ inflight s1 = inflight s /\
  world s1 = world s.
Proof.
  unfold take_immediate. destruct (immediates s) as [|n] eqn:I; [discriminate|].
  intros E. injection E as <-. simpl. auto.
Qed.

Lemma next_settle_spec (env : Env) (k : nat) (s s' : System) :
  next_settle env k s = Some s' ->
  exists job,
    nth_error (inflight s) k = Some job /\
    queue (pq s') = queue (pq s) /\ concurrency (pq s') = concurrency (pq s) /\
    maxLength (pq s') = maxLength (pq s) /\
    running (pq s') = (running (pq s) - 1)%nat /\
    immediates s' = S (immediates s) /\
    inflight s' = remove_nth k (inflight s) /\
    trace (world s') =
      trace (fst (printTicketSafe env (world s) (id job) (payload job)))
      ++ EvDeliveryEnd (id job)
      :: match snd (printTicketSafe env (world s) (id job) (payload job)) with
         | Return => [EvSetImmediate]
         | Throw _ => [EvQueueError (id job); EvSetImmediate]
         end.
Proof.
  unfold next_settle.
  destruct (nth_error (inflight s) k) as [job|] eqn:N; [|discriminate].
  destruct (printTicketSafe env (world s) (id job) (payload job)) as [w1 r] eqn:T.
  intros E. injection E as <-. exists job. rewrite T. simpl.
  repeat split; auto.
  destruct r; simpl; rewrite <- ?app_assoc; reflexivity.
Qed.

(** The buffer never holds two entries with the same id. *)
Lemma queue_nodup (env : Env) (inputs : list Input) (s s' : System) :
  NoDup (ids (queue (pq s))) -> run env s inputs = Some s' -> NoDup (ids (queue (pq s'))).
Proof.
  apply (run_invariant env (fun s => NoDup (ids (queue (pq s))))).
  - intros. now apply addToQueue_nodup.
  - auto.
  - intros. now apply push_nodup.
  - intros s0 s1 N T. apply take_immediate_spec in T. destruct T as (_ & Q & _).
    destruct (next_begin_cases s1) as [(job & rest & _ & Hq & E)|(E & _)]; rewrite E.
    + simpl. rewrite Q in Hq. rewrite Hq in N. simpl in N. now inversion N.
    + now rewrite Q.
  - intros k s0 s1 N E. apply next_settle_spec in E. destruct E as (job & _ & Q & _).
    now rewrite Q.
  - auto.
Qed.

(** C3: in every state reachable by push and next operations (for any
    concurrency and any maximum length) the buffer holds no two entries
    with the same id, and pushing a job whose id is already in the buffer
    returns false and leaves the buffer unchanged. *)
Theorem queue_holds_no_duplicate_ids
  (env : Env) (c m : nat) (s : System) :
  reachable env c m s ->
  NoDup (ids (queue (pq s))) /\
  forall job, In (id job) (ids (queue (pq s))) ->
              snd (push job s) = false /\ queue (pq (fst (push job s))) = queue (pq s).
Proof.
  intros [inputs R]. split.
  - eapply queue_nodup; [|exact R]. simpl. constructor.
  - intros job Hin. apply queued_In in Hin.
    destruct (push_cases job s) as [(_ & _ & D & _)|(P & [(_ & E)|(_ & E)])];
      [congruence| |]; rewrite P, E; auto.
Qed.

Lemma queue_holds_no_duplicate_ids_witness :
  exists s,
    run working_stub system0 [InPush (mkJob (IdNum 1) sample_payload);
                              InPush (mkJob (IdNum 2) sample_payload)] = Some s /\
    NoDup (ids (queue (pq s))) /\
    snd (push (mkJob (IdNum 2) JNull) s) = false /\
    queue (pq (fst (push (mkJob (IdNum 2) JNull) s))) = queue (pq s).
Proof.
  eexists. split; [reflexivity|].
  match goal with |- NoDup (ids (queue (pq ?s))) /\ _ =>
    destruct (queue_holds_no_duplicate_ids working_stub 1 QUEUE_MAX_LENGTH s) as [N D]
  end.
  - exists [InPush (mkJob (IdNum 1) sample_payload); InPush (mkJob (IdNum 2) sample_payload)].
    reflexivity.
  - split; [exact N|]. apply (D (mkJob (IdNum 2) JNull)). simpl. tauto.
Defined.

(** C4 (evaluated on the code): when the buffer has reached the
    configured maximum, [push] returns false for any job and the buffer
    does not change (so its length does not grow); but [addToQueue]
    called with that job, its payload well-formed, does not write status
    [Error]: it ends in the TypeError of its ledger statement, with no
    status requested for any row. *)
Theorem full_queue_rejects_without_marking (s : System) (job : Job) :
  (maxLength (pq s) <= List.length (queue (pq s)))%nat ->
  snd (push job s) = false /\
  queue (pq (fst (push job s))) = queue (pq s) /\
  (validPayload (payload job) = true ->
   addToQueue (id job) (payload job) s = (log (EvQueueFull (id job)) s, Throw ErrNotAFunction) /\
   queue (pq (fst (addToQueue (id job) (payload job) s))) = queue (pq s) /\
   all_status_writes (trace (world (fst (addToQueue (id job) (payload job) s)))) =
     all_status_writes (trace (world s))).
Proof.
  intros Full. split; [|split].
  - destruct (push_cases job s) as [(_ & L & _)|(P & _)]; [lia|exact P].
  - rewrite push_queue.
    destruct (push_cases job s) as [(_ & L & _)|(P & _)]; [lia|now rewrite P].
  - intros V.
    assert (E : addToQueue (id job) (payload job) s =
                (log (EvQueueFull (id job)) s, Throw ErrNotAFunction)).
    { unfold addToQueue, push. rewrite V. cbv zeta. cbn [negb id].
      apply Nat.leb_le in Full. rewrite Full. reflexivity. }
    rewrite E. simpl. repeat split. rewrite all_status_writes_app. simpl. apply app_nil_r.
Qed.

Lemma full_queue_rejects_without_marking_witness :
  snd (push (mkJob (IdNum 301) sample_payload) full_system) = false /\
  snd (addToQueue (IdNum 301) sample_payload full_system) = Throw ErrNotAFunction /\
  all_status_writes
    (trace (world (fst (addToQueue (IdNum 301) sample_payload full_system)))) = [].
Proof.
  destruct (full_queue_rejects_without_marking full_system (mkJob (IdNum 301) sample_payload))
    as (P & _ & A); [apply Nat.leb_le; vm_compute; reflexivity|].
  destruct (A eq_refl) as (E & _ & W).
  cbn [id payload] in E, W.
  split; [exact P|]. split; [now rewrite E | exact W].
Defined.

(** ** [printTicketSafe] and the ledger *)

Lemma forallb_weaken {A : Type} (p q : A -> bool) (l : list A) :
  (forall x, p x = true -> q x = true) -> forallb p l = true -> forallb q l = true.
Proof.
  intros H. induction l as [|x l IH]; simpl; [auto|].
  intros E. apply andb_prop in E. destruct E as [Ex El].
  rewrite (H x Ex). auto.
Qed.

Lemma device_is_ticket (e : Event) : device_event e = true -> ticket_event e = true.
Proof. unfold ticket_event. intros ->. reflexivity. Qed.

(** Whatever the ledger answers, a delivery emits printer-side events,
    the failure log and terminal status writes only. *)
Lemma printTicketSafe_events (env : Env) (w : World) (jobId : JobId) (data : JsValue) :
  exists d,
    trace (fst (printTicketSafe env w jobId data)) = trace w ++ d /\
    forallb ticket_event d = true.
Proof.
  unfold printTicketSafe, try_ticket.
  destruct (performPrint_step env jobId data 0 w) as (d1 & T1 & F1 & _).
  apply (forallb_weaken _ _ _ device_is_ticket) in F1.
  destruct (performPrint env w jobId data 0) as [w1 [|e]]; simpl in *;
    repeat match goal with
    | |- context [ledger_rejects env ?n] => destruct (ledger_rejects env n); simpl
    end;
    rewrite T1;
    first
      [ exists (d1 ++ [EvLedgerUpdate jobId Printed; EvJobFailed jobId; EvLedgerUpdate jobId Error]);
        rewrite forallb_app, F1, <- !app_assoc; split; reflexivity
      | exists (d1 ++ [EvLedgerUpdate jobId Printed]);
        rewrite forallb_app, F1, <- !app_assoc; split; reflexivity
      | exists (d1 ++ [EvJobFailed jobId; EvLedgerUpdate jobId Error]);
        rewrite forallb_app, F1, <- !app_assoc; split; reflexivity ].
Qed.

(** With a ledger client whose requests resolve, a delivery issues one
    status write, after everything the print routine did: [Printed] when
    [performPrint] returned, [Error] when it threw. *)
Lemma printTicketSafe_one_write (env : Env) (w : World) (jobId : JobId) (data : JsValue) :
  (forall n, ledger_rejects env n = false) ->
  snd (printTicketSafe env w jobId data) = Return /\
  trace (fst (printTicketSafe env w jobId data)) =
    trace (fst (performPrint env w jobId data 0)) ++
    match snd (performPrint env w jobId data 0) with
    | Return => [EvLedgerUpdate jobId Printed]
    | Throw _ => [EvJobFailed jobId; EvLedgerUpdate jobId Error]
    end.
Proof.
  intros L. unfold printTicketSafe, try_ticket.
  destruct (performPrint env w jobId data 0) as [w1 [|e]]; simpl; rewrite !L; simpl.
  - auto.
  - rewrite <- app_assoc. auto.
Qed.

Lemma printTicketSafe_status (env : Env) (w : World) (jobId : JobId) (data : JsValue) :
  (forall n, ledger_rejects env n = false) ->
  all_status_writes (trace (fst (printTicketSafe env w jobId data))) =
    all_status_writes (trace w) ++ [delivery_status (snd (performPrint env w jobId data 0))] /\
  status_writes jobId (trace (fst (printTicketSafe env w jobId data))) =
    status_writes jobId (trace w) ++ [delivery_status (snd (performPrint env w jobId data 0))].
Proof.
  intros L. destruct (printTicketSafe_one_write env w jobId data L) as [_ T]. rewrite T.
  destruct (performPrint_step env jobId data 0 w) as (d & Td & F & _).
  rewrite Td, !all_status_writes_app, !status_writes_app.
  rewrite (device_events_no_writes d F).
  assert (Hd : status_writes jobId d = []).
  { clear - F. induction d as [|e d IH]; simpl in *; [reflexivity|].
    apply andb_prop in F. destruct F as [He Hd].
    destruct e; simpl in *; try discriminate; auto. }
  rewrite Hd, !app_nil_r.
  destruct (snd (performPrint env w jobId data 0)); simpl; rewrite JobId_eqb_refl; auto.
Qed.

(** ** Steps of the event loop and their traces *)

Lemma loop_is_core (e : Event) : loop_event e = true -> core_event e = true.
Proof. unfold core_event. intros ->. apply orb_true_r. Qed.

Lemma ticket_is_core (e : Event) : ticket_event e = true -> core_event e = true.
Proof. unfold core_event. intros ->. reflexivity. Qed.

Lemma extends_refl (allowed : Event -> bool) (s : System) : extends allowed s s.
Proof. exists []. rewrite app_nil_r. auto. Qed.

Lemma extends_trans (allowed : Event -> bool) (s1 s2 s3 : System) :
  extends allowed s1 s2 -> extends allowed s2 s3 -> extends allowed s1 s3.
Proof.
  intros (d1 & T1 & F1) (d2 & T2 & F2). exists (d1 ++ d2).
  rewrite T2, T1, app_assoc, forallb_app, F1, F2. auto.
Qed.

Lemma extends_weaken (p q : Event -> bool) (s s' : System) :
  (forall e, p e = true -> q e = true) -> extends p s s' -> extends q s s'.
Proof.
  intros H (d & T & F). exists d. split; [exact T|]. eapply forallb_weaken; eassumption.
Qed.

Lemma addToQueue_extends (jobId : JobId) (data : JsValue) (s : System) :
  extends loop_event s (fst (addToQueue jobId data s)).
Proof.
  destruct (addToQueue_cases jobId data s) as [(_ & _ & _ & E)|(e & He & E)]; rewrite E.
  - exists [EvSetImmediate; EvJobAdded jobId]. simpl. rewrite <- app_assoc. auto.
  - exists [e]. simpl. destruct He as [[-> _]|[[-> _]|[-> _]]]; auto.
Qed.

Lemma forEach_addToQueue_extends (data : list Row) (s : System) :
  extends loop_event s (fst (forEach_addToQueue data s)).
Proof.
  revert s. induction data as [|job data IH]; simpl; intros s; [apply extends_refl|].
  pose proof (addToQueue_extends (row_id job) (row_payload job) s) as X.
  destruct (addToQueue (row_id job) (row_payload job) s) as [s1 [|e]]; cbn [fst] in *.
  - eapply extends_trans; [exact X|apply IH].
  - exact X.
Qed.

Lemma processPending_extends (reply : option (list Row)) (s : System) :
  extends loop_event s (processPending reply s).
Proof.
  destruct reply as [data|]; simpl; [|exists [EvPendingFailed]; auto].
  pose proof (forEach_addToQueue_extends data s) as X.
  destruct (forEach_addToQueue data s) as [s1 [|e]]; cbn [fst] in *; [exact X|].
  eapply extends_trans; [exact X|]. exists [EvPendingFailed]. auto.
Qed.

Lemma push_extends (job : Job) (s : System) : extends loop_event s (fst (push job s)).
Proof.
  destruct (push_cases job s) as [(_ & _ & _ & E)|(_ & [(_ & E)|(_ & E)])]; rewrite E.
  - exists [EvSetImmediate]. auto.
  - exists [EvQueueFull (id job)]. auto.
  - exists [EvDuplicate (id job)]. auto.
Qed.

Lemma next_begin_extends (s : System) : extends loop_event s (next_begin s).
Proof.
  destruct (next_begin_cases s) as [(job & rest & _ & _ & E)|(E & _)]; rewrite E.
  - exists [EvDeliveryStart (id job)]. auto.
  - apply extends_refl.
Qed.

Lemma next_settle_extends (env : Env) (k : nat) (s s' : System) :
  next_settle env k s = Some s' -> extends core_event s s'.
Proof.
  intros E. apply next_settle_spec in E. destruct E as (job & _ & _ & _ & _ & _ & _ & _ & T).
  destruct (printTicketSafe_events env (world s) (id job) (payload job)) as (d & Td & F).
  apply (forallb_weaken _ _ _ ticket_is_core) in F.
  eexists. rewrite T, Td, <- app_assoc. split; [reflexivity|].
  rewrite forallb_app, F.
  destruct (snd (printTicketSafe env (world s) (id job) (payload job))); reflexivity.
Qed.

Lemma detach_extends (s : System) :
  extends loop_event s
    (mkSystem (pq s) (immediates s) (inflight s) (cleanupPrinterConnection (world s))).
Proof.
  unfold extends, cleanupPrinterConnection. simpl.
  destruct (world s) as [dv pr init o sb wr tr]; simpl.
  destruct pr as [p|], dv as [v|]; simpl; eexists; rewrite <- ?app_assoc;
    (split; [reflexivity || (symmetry; apply app_nil_r) | reflexivity]).
Qed.

(** Every step continues the trace; only the settling of a delivery adds
    anything but the loop's own events. *)
Lemma step_extends (env : Env) (s s' : System) (i : Input) :
  step env s i = Some s' ->
  extends core_event s s' /\ ((forall k, i <> InSettle k) -> extends loop_event s s').
Proof.
  intros E.
  assert (H : (exists k, i = InSettle k) \/ extends loop_event s s').
  { destruct i as [row|reply|job| |k|]; simpl in E.
    - right. injection E as <-. unfold on_insert.
      destruct (row_status row); [apply addToQueue_extends|apply extends_refl..].
    - right. injection E as <-. apply processPending_extends.
    - right. injection E as <-. apply push_extends.
    - right. destruct (take_immediate s) as [s1|] eqn:T; [|discriminate].
      injection E as <-. apply take_immediate_spec in T. destruct T as (_ & _ & _ & W).
      destruct (next_begin_extends s1) as (d & Td & F). exists d. now rewrite <- W.
    - left. now exists k.
    - right. injection E as <-. apply detach_extends. }
  destruct H as [[k ->]|H].
  - split; [eapply next_settle_extends; exact E|]. intros N. now destruct (N k).
  - split; [|auto]. eapply extends_weaken; [exact loop_is_core|exact H].
Qed.

Lemma run_extends (env : Env) (inputs : list Input) (s s' : System) :
  run env s inputs = Some s' -> extends core_event s s'.
Proof.
  revert s. induction inputs as [|i inputs IH]; simpl; intros s E.
  - injection E as <-. apply extends_refl.
  - destruct (step env s i) as [s1|] eqn:S1; [|discriminate].
    eapply extends_trans; [apply (step_extends env s s1 i S1)|auto].
Qed.

Lemma core_events_not_pending (d : list Event) :
  forallb core_event d = true -> count_events is_pending_write d = O.
Proof.
  induction d as [|e d IH]; simpl; [reflexivity|].
  intros H. apply andb_prop in H. destruct H as [He Hd].
  destruct e as [| | | | | | | |i st| | | | | | | | | ]; simpl in *; auto.
  destruct st; simpl in *; auto. discriminate.
Qed.

(** The queue and the intake request no status themselves. *)
Lemma loop_events_no_status (d : list Event) :
  forallb loop_event d = true -> all_status_writes d = [].
Proof.
  induction d as [|e d IH]; simpl; [reflexivity|].
  intros H. apply andb_prop in H. destruct H as [He Hd].
  destruct e; simpl in *; auto; discriminate.
Qed.

Lemma status_writes_all (jobId : JobId) (d : list Event) :
  all_status_writes d = [] -> status_writes jobId d = [].
Proof.
  induction d as [|e d IH]; simpl; [reflexivity|].
  destruct e; simpl; auto; discriminate.
Qed.

(** ** The worker makes progress *)

Lemma remove_nth_length {A : Type} (k : nat) (l : list A) (x : A) :
  nth_error l k = Some x -> List.length (remove_nth k l) = (List.length l - 1)%nat.
Proof.
  revert k. induction l as [|y l IH]; intros [|k]; simpl; try discriminate.
  - intros _. lia.
  - intros H. rewrite (IH k H). apply nth_error_In in H.
    destruct l; simpl in *; [contradiction|lia].
Qed.

Lemma remove_nth_In {A : Type} (k : nat) (l : list A) (x : A) :
  In x (remove_nth k l) -> In x l.
Proof.
  revert k. induction l as [|y l IH]; intros [|k]; simpl; auto.
  intros [E|H]; eauto.
Qed.

Lemma extends_count (allowed : Event -> bool) (p : Event -> bool) (s s' : System) :
  extends allowed s s' ->
  (count_events p (trace (world s)) <= count_events p (trace (world s')))%nat.
Proof. intros (d & T & _). rewrite T, count_events_app. lia. Qed.

Lemma worker_inv_extends (allowed : Event -> bool) (s s' : System) :
  extends allowed s s' ->
  (forall job, In job (inflight s') -> In job (inflight s)) ->
  (forall job, In job (inflight s) ->
     (1 <= count_events (is_delivery_start (id job)) (trace (world s)))%nat) ->
  forall job, In job (inflight s') ->
     (1 <= count_events (is_delivery_start (id job)) (trace (world s')))%nat.
Proof.
  intros X Sub H job Hin.
  pose proof (extends_count allowed (is_delivery_start (id job)) s s' X).
  specialize (H job (Sub job Hin)). lia.
Qed.

Lemma worker_inv_log (e : Event) (s : System) : worker_inv s -> worker_inv (log e s).
Proof.
  intros [C R B P St]. constructor; simpl; auto.
  intros job Hin. rewrite count_events_app. specialize (St job Hin). lia.
Qed.

Lemma worker_inv_addToQueue (jobId : JobId) (data : JsValue) (s : System) :
  worker_inv s -> worker_inv (fst (addToQueue jobId data s)).
Proof.
  intros Inv.
  destruct (addToQueue_cases jobId data s) as [(_ & _ & _ & E)|(e & _ & E)];
    rewrite E; cbn [fst]; [|now apply worker_inv_log].
  pose proof (addToQueue_extends jobId data s) as X. rewrite E in X. cbn [fst] in X.
  destruct Inv as [C R B P St].
  constructor; simpl; auto; try lia;
    apply (worker_inv_extends _ s _ X); auto.
Qed.

Lemma worker_inv_push (job : Job) (s : System) : worker_inv s -> worker_inv (fst (push job s)).
Proof.
  intros [C R B P St].
  pose proof (push_extends job s) as X.
  destruct (push_cases job s) as [(_ & _ & _ & E)|(_ & [(_ & E)|(_ & E)])];
    rewrite E in *; constructor; simpl; auto; try lia;
    apply (worker_inv_extends _ s _ X); auto.
Qed.

Lemma worker_inv_next_begin (s s1 : System) :
  worker_inv s -> take_immediate s = Some s1 -> worker_inv (next_begin s1).
Proof.
  intros [C R B P St] T. apply take_immediate_spec in T. destruct T as (I & Q & F & W).
  destruct (next_begin_cases s1) as [(job & rest & Lt & Hq & E)|(E & H)]; rewrite E.
  - constructor; simpl; rewrite ?Q, ?F, ?W in *.
    + exact C.
    + rewrite length_app. simpl. lia.
    + lia.
    + intros _. right. destruct (inflight s); discriminate.
    + intros j Hin. rewrite count_events_app. simpl.
      apply in_app_or in Hin. destruct Hin as [Hin|[<-|[]]].
      * specialize (St j Hin). lia.
      * rewrite JobId_eqb_refl. lia.
  - constructor; rewrite ?Q, ?F, ?W in *; auto.
    intros Hne. right. destruct H as [H|H]; [|contradiction].
    destruct (inflight s); simpl in *; [lia|discriminate].
Qed.

Lemma worker_inv_next_settle (env : Env) (k : nat) (s s' : System) :
  worker_inv s -> next_settle env k s = Some s' -> worker_inv s'.
Proof.
  intros [C R B P St] E.
  pose proof (next_settle_extends env k s s' E) as X.
  apply next_settle_spec in E.
  destruct E as (job & N & Q & Cc & M & Rn & I & F & _).
  constructor; rewrite ?Q, ?Cc, ?Rn, ?I, ?F.
  - exact C.
  - rewrite (remove_nth_length k _ job N). lia.
  - lia.
  - intros _. left. lia.
  - rewrite <- F. apply (worker_inv_extends _ s s' X); [|exact St].
    intros j. rewrite F. apply remove_nth_In.
Qed.

Lemma worker_inv_run (env : Env) (inputs : list Input) (s s' : System) :
  worker_inv s -> run env s inputs = Some s' -> worker_inv s'.
Proof.
  apply (run_invariant env worker_inv).
  - intros. now apply worker_inv_addToQueue.
  - intros. now apply worker_inv_log.
  - intros. now apply worker_inv_push.
  - intros. eapply worker_inv_next_begin; eassumption.
  - intros. eapply worker_inv_next_settle; eassumption.
  - intros s0 [C R B P St]. constructor; simpl; auto.
    apply (worker_inv_extends _ s0 _ (detach_extends s0)); auto.
Qed.

Lemma worker_inv_initial (c m : nat) :
  (1 <= c)%nat -> worker_inv (system_with (new_PrintQueue c m)).
Proof.
  intros H. constructor; simpl; auto; try lia; try tauto.
Qed.

Lemma reachable_worker_inv (env : Env) (c m : nat) (s : System) :
  (1 <= c)%nat -> reachable env c m s -> worker_inv s.
Proof.
  intros H [inputs R]. eapply worker_inv_run; [|exact R]. now apply worker_inv_initial.
Qed.

(** The job at the head of the buffer is started after at most one
    settlement and one wake-up. *)
Lemma head_starts (env : Env) (s : System) (job : Job) (rest : list Job) :
  worker_inv s -> queue (pq s) = job :: rest ->
  exists inputs s',
    forallb internal inputs = true /\
    run env s inputs = Some s' /\ queue (pq s') = rest /\ In job (inflight s') /\
    (count_events (is_delivery_start (id job)) (trace (world s)) <
     count_events (is_delivery_start (id job)) (trace (world s')))%nat.
Proof.
  intros Inv Hq.
  assert (Ready : forall s0,
            worker_inv s0 -> queue (pq s0) = job :: rest ->
            (running (pq s0) < concurrency (pq s0))%nat -> (0 < immediates s0)%nat ->
            exists s',
              step env s0 InImmediate = Some s' /\ queue (pq s') = rest /\
              In job (inflight s') /\
              trace (world s') = trace (world s0) ++ [EvDeliveryStart (id job)]).
  { intros s0 _ Hq0 Lt Imm. simpl. unfold take_immediate.
    destruct (immediates s0) as [|n] eqn:I; [lia|].
    eexists. split; [reflexivity|].
    unfold next_begin. simpl.
    apply Nat.leb_gt in Lt. rewrite Lt, Hq0. simpl.
    split; [reflexivity|]. split; [|reflexivity].
    apply in_or_app. right. now left. }
  destruct (Nat.ltb (running (pq s)) (concurrency (pq s)) && Nat.ltb 0 (immediates s)) eqn:Now.
  - apply andb_prop in Now. destruct Now as [Lt Imm].
    apply Nat.ltb_lt in Lt. apply Nat.ltb_lt in Imm.
    destruct (Ready s Inv Hq Lt Imm) as (s' & S1 & Q & Hin & T).
    exists [InImmediate], s'. simpl in *. rewrite S1.
    repeat split; auto. rewrite T, count_events_app. simpl. rewrite JobId_eqb_refl. lia.
  - assert (Hfl : inflight s <> []).
    { destruct Inv as [C R B P St].
      apply andb_false_iff in Now. destruct Now as [N|N].
      - apply Nat.ltb_ge in N. destruct (inflight s); simpl in *; [lia|discriminate].
      - apply Nat.ltb_ge in N. destruct P as [P|P]; [rewrite Hq; discriminate|lia|exact P]. }
    destruct (inflight s) as [|j0 fl] eqn:Fl; [contradiction|].
    destruct (next_settle env 0 s) as [s1|] eqn:S1;
      [|unfold next_settle in S1; rewrite Fl in S1; simpl in S1;
        destruct (printTicketSafe env (world s) (id j0) (payload j0)); discriminate].
    pose proof (worker_inv_next_settle env 0 s s1 Inv S1) as Inv1.
    pose proof (next_settle_extends env 0 s s1 S1) as X1.
    pose proof (next_settle_spec env 0 s s1 S1) as (j & _ & Q1 & C1 & _ & R1 & I1 & _).
    destruct Inv as [C R B P St].
    assert (Lt1 : (running (pq s1) < concurrency (pq s1))%nat).
    { rewrite R1, C1, R, Fl in *. simpl in *. lia. }
    destruct (Ready s1 Inv1 (eq_trans Q1 Hq) Lt1 ltac:(lia)) as (s' & S2 & Q & Hin & T).
    exists [InSettle 0; InImmediate], s'.
    cbn [run]. cbn [step]. rewrite S1. cbn [step] in S2. rewrite S2.
    repeat split; auto.
    pose proof (extends_count _ (is_delivery_start (id job)) s s1 X1).
    rewrite T, count_events_app. simpl. rewrite JobId_eqb_refl. lia.
Qed.

(** Every job in the buffer is eventually started. *)
Lemma queued_job_starts (env : Env) (job : Job) :
  forall (pre post : list Job) (s : System),
    worker_inv s -> queue (pq s) = pre ++ job :: post ->
    exists inputs s',
      forallb internal inputs = true /\
      run env s inputs = Some s' /\ In job (inflight s') /\
      (count_events (is_delivery_start (id job)) (trace (world s)) <
       count_events (is_delivery_start (id job)) (trace (world s')))%nat.
Proof.
  induction pre as [|a pre IH]; intros post s Inv Hq.
  - destruct (head_starts env s job post Inv Hq) as (inputs & s' & Fi & R & _ & Hin & Lt).
    exists inputs, s'. auto.
  - destruct (head_starts env s a (pre ++ job :: post) Inv Hq)
      as (i1 & s1 & F1 & R1 & Q1 & _ & _).
    pose proof (worker_inv_run env i1 s s1 Inv R1) as Inv1.
    destruct (IH post s1 Inv1 Q1) as (i2 & s2 & F2 & R2 & Hin & Lt).
    exists (i1 ++ i2), s2. rewrite run_app, R1, forallb_app, F1, F2. repeat split; auto.
    pose proof (extends_count _ (is_delivery_start (id job)) s s1 (run_extends env i1 s s1 R1)).
    lia.
Qed.



(** The redelivery, end to end: row 1 is reported again while its first
    delivery is in flight, and is printed and written twice. *)
Example redelivery_prints_twice :
  count_events (is_delivery_start (IdNum 1)) (trace_of redelivery_run) = 2%nat /\
  count_events is_submit (trace_of redelivery_run) = 2%nat /\
  status_writes (IdNum 1) (trace_of redelivery_run) = [Printed; Printed].
Proof. repeat split; vm_compute; reflexivity. Qed.

(** ** Terminal status writes *)

(** C2 (as stated, refuted): at start-up with two pending rows, the second
    pull finds row 1 in flight and accepts it again (row 2, still in the
    buffer, is rejected and ends the pull).  Row 1 is delivered twice and
    gets two terminal writes; row 2 gets one. *)
Lemma startup_run_writes_row_twice :
  started_ids (trace_of startup_run) = [IdNum 1; IdNum 2; IdNum 1] /\
  status_writes (IdNum 1) (trace_of startup_run) = [Printed; Printed] /\
  status_writes (IdNum 2) (trace_of startup_run) = [Printed] /\
  List.length (status_writes (IdNum 1) (trace_of startup_run)) <> 1%nat.
Proof.
  split; [vm_compute; reflexivity|].
  split; [vm_compute; reflexivity|].
  split; [vm_compute; reflexivity|].
  vm_compute. discriminate.
Qed.

Lemma settled_job_status (env : Env) (k : nat) (s s' : System) :
  (forall n, ledger_rejects env n = false) ->
  next_settle env k s = Some s' ->
  exists job,
    nth_error (inflight s) k = Some job /\
    all_status_writes (trace (world s')) =
      all_status_writes (trace (world s)) ++
      [delivery_status (snd (performPrint env (world s) (id job) (payload job) 0))] /\
    status_writes (id job) (trace (world s')) =
      status_writes (id job) (trace (world s)) ++
      [delivery_status (snd (performPrint env (world s) (id job) (payload job) 0))].
Proof.
  intros L E. apply next_settle_spec in E.
  destruct E as (job & N & _ & _ & _ & _ & _ & _ & T).
  exists job. split; [exact N|].
  destruct (printTicketSafe_status env (world s) (id job) (payload job) L) as [A B].
  destruct (printTicketSafe_one_write env (world s) (id job) (payload job) L) as [Ret _].
  rewrite T, Ret, all_status_writes_app, status_writes_app, A, B. simpl.
  rewrite !app_nil_r. auto.
Qed.

Lemma next_settle_enabled (env : Env) (s : System) (job : Job) :
  In job (inflight s) -> exists k s', next_settle env k s = Some s' /\
                                     nth_error (inflight s) k = Some job.
Proof.
  intros Hin. apply In_nth_error in Hin. destruct Hin as [k N].
  exists k. unfold next_settle. rewrite N.
  destruct (printTicketSafe env (world s) (id job) (payload job)). eauto.
Qed.

(** *** No job is dropped *)

Lemma keeps_jobs_refl (s : System) : keeps_jobs s s.
Proof. split; [intros; lia|intros job H; now left]. Qed.

Lemma keeps_jobs_trans (s1 s2 s3 : System) :
  keeps_jobs s1 s2 -> keeps_jobs s2 s3 -> keeps_jobs s1 s3.
Proof.
  intros [M1 K1] [M2 K2]. split.
  - intros i. specialize (M1 i). specialize (M2 i). lia.
  - intros job H. destruct (K1 job H) as [H2|Lt].
    + destruct (K2 job H2) as [H3|Lt]; [now left|right].
      specialize (M1 (id job)). lia.
    + right. specialize (M2 (id job)). lia.
Qed.

Lemma extends_writes (allowed : Event -> bool) (s s' : System) (i : JobId) :
  extends allowed s s' ->
  (List.length (status_writes i (trace (world s))) <=
   List.length (status_writes i (trace (world s'))))%nat.
Proof. intros (d & T & _). rewrite T, status_writes_app, length_app. lia. Qed.

Lemma keeps_jobs_held (allowed : Event -> bool) (s s' : System) :
  extends allowed s s' ->
  (forall job, In job (held s) -> In job (held s')) ->
  keeps_jobs s s'.
Proof.
  intros X H. split; [intros i; eapply extends_writes; exact X|].
  intros job Hin. left. auto.
Qed.

Lemma keeps_jobs_log (e : Event) (s : System) : keeps_jobs s (log e s).
Proof.
  apply (keeps_jobs_held (fun _ => true)); [exists [e]; auto|]. auto.
Qed.

Lemma keeps_jobs_addToQueue (jobId : JobId) (data : JsValue) (s : System) :
  keeps_jobs s (fst (addToQueue jobId data s)).
Proof.
  destruct (addToQueue_cases jobId data s) as [(_ & _ & _ & E)|(e & _ & E)];
    rewrite E; cbn [fst]; [|apply keeps_jobs_log].
  pose proof (addToQueue_extends jobId data s) as X. rewrite E in X.
  apply (keeps_jobs_held _ _ _ X). unfold held. simpl.
  intros job Hin. rewrite !in_app_iff in *. tauto.
Qed.

Lemma keeps_jobs_processPending (reply : option (list Row)) (s : System) :
  keeps_jobs s (processPending reply s).
Proof.
  destruct reply as [data|]; simpl; [|apply keeps_jobs_log].
  assert (K : keeps_jobs s (fst (forEach_addToQueue data s))).
  { revert s. induction data as [|job data IH]; simpl; intros s; [apply keeps_jobs_refl|].
    pose proof (keeps_jobs_addToQueue (row_id job) (row_payload job) s) as K1.
    destruct (addToQueue (row_id job) (row_payload job) s) as [s1 [|e]]; cbn [fst] in *.
    - eapply keeps_jobs_trans; [exact K1|apply IH].
    - exact K1. }
  destruct (forEach_addToQueue data s) as [s1 [|e]]; cbn [fst] in *; [exact K|].
  eapply keeps_jobs_trans; [exact K|apply keeps_jobs_log].
Qed.

Lemma remove_nth_keeps {A : Type} (k : nat) (l : list A) (x j : A) :
  nth_error l k = Some j -> In x l -> In x (remove_nth k l) \/ x = j.
Proof.
  revert k. induction l as [|y l IH]; intros [|k]; simpl; try discriminate.
  - intros E [->|H]; [right; congruence|now left].
  - intros E [->|H]; [left; now left|].
    destruct (IH k E H) as [H1|H1]; [left; now right|now right].
Qed.

(** Whatever the event loop runs, a job that entered the queue stays in
    the buffer or in flight until a status has been requested for it. *)
Lemma step_keeps_jobs (env : Env) (s s' : System) (i : Input) :
  (forall n, ledger_rejects env n = false) ->
  step env s i = Some s' -> keeps_jobs s s'.
Proof.
  intros L E. destruct i as [row|reply|job| |k|]; simpl in E.
  - injection E as <-. unfold on_insert.
    destruct (row_status row); [apply keeps_jobs_addToQueue|apply keeps_jobs_refl..].
  - injection E as <-. apply keeps_jobs_processPending.
  - injection E as <-. apply (keeps_jobs_held _ _ _ (push_extends job s)).
    unfold held.
    destruct (push_cases job s) as [(_ & _ & _ & E)|(_ & [(_ & E)|(_ & E)])]; rewrite E; simpl; auto.
    intros j Hin. rewrite !in_app_iff in *. tauto.
  - destruct (take_immediate s) as [s1|] eqn:T; [|discriminate]. injection E as <-.
    apply take_immediate_spec in T. destruct T as (_ & Q & F & W).
    assert (X : extends loop_event s (next_begin s1)).
    { destruct (next_begin_extends s1) as (d & Td & Fd). exists d. now rewrite <- W. }
    apply (keeps_jobs_held _ _ _ X). unfold held.
    destruct (next_begin_cases s1) as [(job & rest & _ & Hq & E)|(E & _)]; rewrite E; simpl.
    + rewrite <- Q, Hq, <- F. intros j Hin. simpl in Hin. rewrite !in_app_iff in *. simpl. tauto.
    + now rewrite Q, F.
  - pose proof (next_settle_extends env k s s' E) as X.
    destruct (settled_job_status env k s s' L E) as (job & N & _ & W).
    apply next_settle_spec in E. destruct E as (_ & _ & Q & _ & _ & _ & _ & F & _).
    split; [intros i; eapply extends_writes; exact X|].
    unfold held. rewrite Q, F. intros j Hin. apply in_app_or in Hin.
    destruct Hin as [Hin|Hin]; [left; apply in_or_app; now left|].
    destruct (remove_nth_keeps k _ j job N Hin) as [H| ->].
    + left. apply in_or_app. now right.
    + right. rewrite W, length_app. simpl. lia.
  - injection E as <-. apply (keeps_jobs_held _ _ _ (detach_extends s)). auto.
Qed.

Lemma run_keeps_jobs (env : Env) (inputs : list Input) (s s' : System) :
  (forall n, ledger_rejects env n = false) ->
  run env s inputs = Some s' -> keeps_jobs s s'.
Proof.
  intros L. revert s. induction inputs as [|i inputs IH]; simpl; intros s E.
  - injection E as <-. apply keeps_jobs_refl.
  - destruct (step env s i) as [s1|] eqn:S1; [|discriminate].
    eapply keeps_jobs_trans; [eapply step_keeps_jobs; eassumption|auto].
Qed.

(** *** The worker drains the queue *)

Lemma internal_step_decreases (env : Env) (s s' : System) (i : Input) :
  internal i = true -> step env s i = Some s' -> (drain_measure s' < drain_measure s)%nat.
Proof.
  destruct i as [row|reply|job| |k|]; simpl; try discriminate; intros _ E.
  - destruct (take_immediate s) as [s1|] eqn:T; [|discriminate]. injection E as <-.
    apply take_immediate_spec in T. destruct T as (I & Q & F & _).
    unfold drain_measure.
    destruct (next_begin_cases s1) as [(job & rest & _ & Hq & E)|(E & _)]; rewrite E; simpl.
    + rewrite I, <- Q, Hq, <- F, length_app. simpl. lia.
    + rewrite I, Q, F. lia.
  - apply next_settle_spec in E. destruct E as (job & N & Q & _ & _ & _ & I & F & _).
    unfold drain_measure. rewrite Q, I, F, (remove_nth_length k _ job N).
    apply nth_error_In in N. destruct (inflight s); simpl in *; [contradiction|lia].
Qed.

(** Left to itself the runtime takes a bounded number of steps. *)
Lemma internal_run_bounded (env : Env) (inputs : list Input) (s s' : System) :
  forallb internal inputs = true -> run env s inputs = Some s' ->
  (List.length inputs + drain_measure s' <= drain_measure s)%nat.
Proof.
  revert s. induction inputs as [|i inputs IH]; simpl; intros s F E.
  - injection E as <-. lia.
  - apply andb_prop in F. destruct F as [Fi F].
    destruct (step env s i) as [s1|] eqn:S1; [|discriminate].
    pose proof (internal_step_decreases env s s1 i Fi S1).
    specialize (IH s1 F E). lia.
Qed.

(** Every job in the buffer or in flight gets a status written. *)
Lemma handled_job_gets_status (env : Env) (s : System) (job : Job) :
  (forall n, ledger_rejects env n = false) ->
  worker_inv s ->
  In job (queue (pq s) ++ inflight s) ->
  exists inputs s',
    forallb internal inputs = true /\
    run env s inputs = Some s' /\
    (List.length (status_writes (id job) (trace (world s))) <
     List.length (status_writes (id job) (trace (world s'))))%nat.
Proof.
  intros L Inv Hin.
  assert (Settle : forall s0, In job (inflight s0) ->
            exists s1, (exists k, step env s0 (InSettle k) = Some s1) /\
              (List.length (status_writes (id job) (trace (world s0))) <
               List.length (status_writes (id job) (trace (world s1))))%nat).
  { intros s0 H0. destruct (next_settle_enabled env s0 job H0) as (k & s1 & S1 & N).
    exists s1. split; [now exists k|].
    destruct (settled_job_status env k s0 s1 L S1) as (j & Nj & _ & W).
    rewrite N in Nj. injection Nj as <-. rewrite W, length_app. simpl. lia. }
  apply in_app_or in Hin. destruct Hin as [Hq|Hf].
  - apply in_split in Hq. destruct Hq as (pre & post & Hq).
    destruct (queued_job_starts env job pre post s Inv Hq) as (i1 & s1 & F1 & R1 & Hin1 & _).
    destruct (Settle s1 Hin1) as (s2 & [k S2] & Lt).
    exists (i1 ++ [InSettle k]), s2. rewrite run_app, R1, forallb_app, F1. simpl in *. rewrite S2.
    split; [reflexivity|]. split; [reflexivity|].
    destruct (run_extends env i1 s s1 R1) as (d & T & _).
    rewrite T, status_writes_app, length_app in Lt. lia.
  - destruct (Settle s Hf) as (s1 & [k S1] & Lt).
    exists [InSettle k], s1. simpl in *. rewrite S1. auto.
Qed.

(** C2 (amended): with a ledger client whose requests resolve, each job
    consumed from the queue results in exactly one status update from its
    delivery, [Printed] if the print succeeded and [Error] otherwise, so
    no delivery writes both; the core never writes any other status; a
    job that entered the queue is never dropped: over any run it stays
    in the buffer or in flight, or a status has been written for its row;
    and for a queue of concurrency at least 1, the wake-ups and
    settlements the runtime performs by itself are bounded in number,
    and once nothing is scheduled and nothing is in flight every job that
    was in the buffer or in flight has had a status written.  Nothing is
    said about how many terminal writes a row receives overall, nor about
    rows rejected at intake. *)
Theorem each_delivery_writes_one_terminal_status (env : Env) :
  (forall n, ledger_rejects env n = false) ->
  (forall k s s', next_settle env k s = Some s' ->
     exists job,
       nth_error (inflight s) k = Some job /\
       all_status_writes (trace (world s')) =
         all_status_writes (trace (world s)) ++
         [delivery_status (snd (performPrint env (world s) (id job) (payload job) 0))] /\
       status_writes (id job) (trace (world s')) =
         status_writes (id job) (trace (world s)) ++
         [delivery_status (snd (performPrint env (world s) (id job) (payload job) 0))]) /\
  (forall c m s, reachable env c m s ->
     count_events is_pending_write (trace (world s)) = O) /\
  (forall inputs s s' job, run env s inputs = Some s' ->
     In job (queue (pq s) ++ inflight s) ->
     In job (queue (pq s') ++ inflight s') \/
     (List.length (status_writes (id job) (trace (world s))) <
      List.length (status_writes (id job) (trace (world s'))))%nat) /\
  (forall c m s inputs s', (1 <= c)%nat -> reachable env c m s ->
     forallb internal inputs = true -> run env s inputs = Some s' ->
     (List.length inputs <= drain_measure s)%nat /\
     (immediates s' = O -> inflight s' = [] ->
      forall job, In job (queue (pq s) ++ inflight s) ->
        (List.length (status_writes (id job) (trace (world s))) <
         List.length (status_writes (id job) (trace (world s'))))%nat)).
Proof.
  intros L. split; [|split; [|split]].
  - intros k s s' E. now apply settled_job_status.
  - intros c m s [inputs R]. apply run_extends in R. destruct R as (d & T & F).
    rewrite T. simpl. now apply core_events_not_pending.
  - intros inputs s s' job R Hin.
    destruct (run_keeps_jobs env inputs s s' L R) as [_ K]. now apply K.
  - intros c m s inputs s' Hc Rs Fi R. split.
    + pose proof (internal_run_bounded env inputs s s' Fi R). lia.
    + intros I F job Hin.
      destruct (run_keeps_jobs env inputs s s' L R) as [_ K].
      destruct (K job Hin) as [H|Lt]; [|exact Lt].
      pose proof (reachable_worker_inv env c m s Hc Rs) as Inv.
      pose proof (worker_inv_run env inputs s s' Inv R) as [_ _ _ P _].
      unfold held in H. rewrite F, app_nil_r in H.
      destruct P as [P|P]; [intros Q; rewrite Q in H; contradiction|lia|contradiction].
Qed.

Lemma each_delivery_writes_one_terminal_status_witness :
  count_events is_pending_write (trace (world row1_in_flight)) = O /\
  (exists job, nth_error (inflight row1_in_flight) 0 = Some job /\
     all_status_writes (trace_of (next_settle working_stub 0 row1_in_flight)) =
       all_status_writes (trace (world row1_in_flight)) ++
       [delivery_status (snd (performPrint working_stub (world row1_in_flight)
                                           (id job) (payload job) 0))]) /\
  (List.length (status_writes (IdNum 2) (trace (world row2_waiting))) <
   List.length (status_writes (IdNum 2) (trace (world row2_drained))))%nat.
Proof.
  destruct (each_delivery_writes_one_terminal_status working_stub (fun _ => eq_refl))
    as (A & B & _ & D).
  split; [|split].
  - apply (B 1%nat QUEUE_MAX_LENGTH). exists [InInsert row1; InImmediate]. vm_compute. reflexivity.
  - destruct (next_settle working_stub 0 row1_in_flight) as [s'|] eqn:E;
      [|vm_compute in E; discriminate].
    destruct (A 0%nat row1_in_flight s' E) as (job & N & W & _).
    exists job. split; [exact N|exact W].
  - destruct (D 1%nat QUEUE_MAX_LENGTH row2_waiting drain_inputs row2_drained) as [_ Q].
    + lia.
    + exists [InPending (Some [row1; row2]); InImmediate]. vm_compute. reflexivity.
    + reflexivity.
    + vm_compute. reflexivity.
    + assert (I : immediates row2_drained = O) by (vm_compute; reflexivity).
      assert (F : inflight row2_drained = []) by (vm_compute; reflexivity).
      apply (Q I F (mkJob (IdNum 2) sample_payload)).
      vm_compute. tauto.
Defined.

(** ** Pauses between deliveries *)





(** ** Overlapping calls of [getPrinterConnection] *)

(** C6 (as stated, refuted): the second caller issues a physical open at
    its first wake-up, 200 ms into the 5000 ms grace period, because the
    open it was waiting for has failed. *)
Lemma second_open_before_grace_expires :
  snd first_enters = AcqOpening 0 /\
  snd second_enters = AcqWaiting 0 /\
  snd first_open_fails = AcqThrown (ErrOpen 0) /\
  snd second_wakes = AcqOpening 1 /\
  opens_issued (fst first_open_fails) (fst second_wakes) = 1%nat /\
  0 + GRACE_POLL < GRACE_LIMIT.
Proof. repeat split; vm_compute; reflexivity. Qed.

Lemma ready_set_conn (dv pr : option nat) (init : bool) (w : World) :
  ready (set_conn dv pr init w) =
  match dv, pr with
  | Some d, Some p => Some (mkConn d p)
  | _, _ => None
  end.
Proof. reflexivity. Qed.

Lemma open_begin_spec (w : World) :
  snd (open_begin w) = opens w /\ opens (fst (open_begin w)) = S (opens w).
Proof. split; reflexivity. Qed.

(** The two embeddings of [getPrinterConnection] agree when no open is
    in progress: entering and resuming once is the call run alone. *)
Lemma getPrinterConnection_alone (env : Env) (w : World) :
  isDeviceInitializing w = false ->
  acq_result (let '(w1, pc) := acquire_enter w in acquire_resume env w1 pc) =
    Some (getPrinterConnection env w).
Proof.
  intros I. unfold acquire_enter, getPrinterConnection. rewrite I.
  destruct (ready w) as [c|]; [reflexivity|].
  destruct (open_begin w) as [w1 h]. cbn [acquire_resume].
  destruct (open_finish (dev_open env h) h w1) as [w2 [c|e]]; reflexivity.
Qed.

(** C6 (amended): a call made while an open is in progress (flag raised,
    no ready connection) suspends without opening; at each wake-up it
    keeps waiting, without opening, as long as the flag is still raised
    and fewer than 5000 ms have been waited; once 5000 ms have been
    waited it opens; if the open in progress succeeds, both callers get
    the same handle and no second open is issued; if it fails, the flag is
    cleared and the waiting caller opens at its next wake-up. *)
Theorem waiter_follows_open_in_progress (env : Env) (w : World) (h : nat) (waited : Z) :
  ready w = None ->
  isDeviceInitializing w = true ->
  acquire_enter w = (wait GRACE_POLL w, AcqWaiting 0) /\
  (waited + GRACE_POLL < GRACE_LIMIT ->
   acquire_resume env w (AcqWaiting waited) =
     (wait GRACE_POLL w, AcqWaiting (waited + GRACE_POLL))) /\
  (GRACE_LIMIT <= waited + GRACE_POLL ->
   snd (acquire_resume env w (AcqWaiting waited)) = AcqOpening (opens w) /\
   opens (fst (acquire_resume env w (AcqWaiting waited))) = S (opens w)) /\
  (dev_open env h = true ->
   let w1 := fst (acquire_resume env w (AcqOpening h)) in
   snd (acquire_resume env w (AcqOpening h)) = AcqReturned (mkConn h h) /\
   acquire_resume env w1 (AcqWaiting waited) = (w1, AcqReturned (mkConn h h)) /\
   opens w1 = opens w) /\
  (dev_open env h = false ->
   let w1 := fst (acquire_resume env w (AcqOpening h)) in
   snd (acquire_resume env w (AcqOpening h)) = AcqThrown (ErrOpen h) /\
   snd (acquire_resume env w1 (AcqWaiting waited)) = AcqOpening (opens w) /\
   opens (fst (acquire_resume env w1 (AcqWaiting waited))) = S (opens w)).
Proof.
  intros R I. repeat split.
  - unfold acquire_enter, grace_test. rewrite R, I. reflexivity.
  - intros Lt. simpl. unfold grace_test. rewrite I.
    apply Z.ltb_lt in Lt. rewrite Lt. reflexivity.
  - apply Z.ltb_ge in H. simpl. unfold grace_test, after_grace.
    rewrite I, H, R. reflexivity.
  - apply Z.ltb_ge in H. simpl. unfold grace_test, after_grace.
    rewrite I, H, R. reflexivity.
  - simpl. unfold open_finish. rewrite H. reflexivity.
  - simpl. unfold open_finish. rewrite H. reflexivity.
  - simpl. unfold open_finish. rewrite H. reflexivity.
  - simpl. unfold open_finish. rewrite H. simpl.
    destruct (cleanup_state (set_initializing false w)) as (Dv & Pr & In & _).
    destruct (cleanupPrinterConnection (set_initializing false w)); simpl in *. now subst.
  - cbn [acquire_resume]. unfold open_finish. rewrite H. cbn [fst snd].
    destruct (cleanup_state (set_initializing false w)) as (Dv & Pr & In & Op & _).
    unfold grace_test. rewrite In. cbn [andb]. unfold after_grace, ready. rewrite Dv.
    destruct (open_begin_spec (cleanupPrinterConnection (set_initializing false w))) as [B1 B2].
    destruct (open_begin (cleanupPrinterConnection (set_initializing false w))) as [w2 h2].
    cbn [fst snd] in *. rewrite Op in *. subst; auto.
  - cbn [acquire_resume]. unfold open_finish. rewrite H. cbn [fst snd].
    destruct (cleanup_state (set_initializing false w)) as (Dv & Pr & In & Op & _).
    unfold grace_test. rewrite In. cbn [andb]. unfold after_grace, ready. rewrite Dv.
    destruct (open_begin_spec (cleanupPrinterConnection (set_initializing false w))) as [B1 B2].
    destruct (open_begin (cleanupPrinterConnection (set_initializing false w))) as [w2 h2].
    cbn [fst snd] in *. rewrite Op in *. subst; auto.
Qed.

Lemma waiter_follows_open_in_progress_witness :
  acquire_enter (fst first_enters) = (wait GRACE_POLL (fst first_enters), AcqWaiting 0) /\
  acquire_resume working_stub
    (fst (acquire_resume working_stub (fst first_enters) (AcqOpening 0))) (AcqWaiting 0) =
    (fst (acquire_resume working_stub (fst first_enters) (AcqOpening 0)),
     AcqReturned (mkConn 0 0)).
Proof.
  destruct (waiter_follows_open_in_progress working_stub (fst first_enters) 0%nat 0)
    as (A & _ & _ & B & _).
  - reflexivity.
  - reflexivity.
  - split; [exact A|]. destruct (B eq_refl) as (_ & B2 & _). exact B2.
Defined.

(** ** Resubscription backoff *)

Lemma listener_backoff_pos (n : nat) :
  (1 <= n)%nat -> listener_backoff n = LISTENER_BACKOFF_BASE * 2 ^ (Z.of_nat n - 1).
Proof. intros H. unfold listener_backoff. rewrite Z.max_r by lia. reflexivity. Qed.

Lemma listener_backoff_doubles (n : nat) :
  (1 <= n)%nat -> listener_backoff (S n) = 2 * listener_backoff n.
Proof.
  intros H. rewrite !listener_backoff_pos by lia.
  replace (Z.of_nat (S n) - 1) with (Z.succ (Z.of_nat n - 1)) by lia.
  rewrite Z.pow_succ_r by lia. unfold LISTENER_BACKOFF_BASE. lia.
Qed.

Lemma listener_backoff_unbounded (ceiling : Z) :
  exists n, (1 <= n)%nat /\ ceiling < listener_backoff n.
Proof.
  exists (S (Z.to_nat (Z.max 0 ceiling))). split; [lia|].
  rewrite listener_backoff_pos by lia.
  replace (Z.of_nat (S (Z.to_nat (Z.max 0 ceiling))) - 1) with (Z.max 0 ceiling) by lia.
  pose proof (Z.pow_gt_lin_r 2 (Z.max 0 ceiling) ltac:(lia) ltac:(lia)).
  unfold LISTENER_BACKOFF_BASE. lia.
Qed.

(** C7 (as stated, refuted): the computed delay has no ceiling. *)
Lemma listener_backoff_has_no_ceiling :
  ~ exists ceiling, forall n, (1 <= n)%nat -> listener_backoff n <= ceiling.
Proof.
  intros [ceiling H].
  destruct (listener_backoff_unbounded ceiling) as (n & Hn & Lt).
  specialize (H n Hn). lia.
Qed.

(** The delay of the thirty-second consecutive failure is past 2^31 ms. *)
Example listener_backoff_32 : listener_backoff 32 = 2147483648000.
Proof. reflexivity. Qed.

Lemma failure_status_cases (status : string) :
  includes ["CLOSED"; "CHANNEL_ERROR"; "TIMED_OUT"] status = true ->
  status = "CLOSED" \/ status = "CHANNEL_ERROR" \/ status = "TIMED_OUT".
Proof.
  unfold includes. simpl. rewrite !orb_true_iff, !String.eqb_eq. intuition congruence.
Qed.

Lemma schedule_resubscribe_spec (l : Listener) :
  listenerAttempt (schedule_resubscribe l) = S (listenerAttempt l) /\
  timers (schedule_resubscribe l) = timers l ++ [listener_backoff (S (listenerAttempt l))] /\
  channel (schedule_resubscribe l) = channel l /\
  ltrace (schedule_resubscribe l) =
    ltrace l ++ [LSetTimeout (listener_backoff (S (listenerAttempt l)))].
Proof. repeat split. Qed.

(** C7 (amended): after the n-th consecutive subscription failure
    (n >= 1), reported through the status callback or raised by the
    subscribe call itself, the next attempt is scheduled after
    base * 2^(n-1) ms; this happens for every value of the counter (the
    number of attempts is not capped); the delay doubles with each further
    failure and exceeds every bound. *)
Theorem resubscribe_backoff_doubles_unbounded (l : Listener) (c : nat) (status : string) :
  includes ["CLOSED"; "CHANNEL_ERROR"; "TIMED_OUT"] status = true ->
  let n := S (listenerAttempt l) in
  (listenerAttempt (on_status c status l) = n /\
   timers (on_status c status l) = timers l ++ [LISTENER_BACKOFF_BASE * 2 ^ (Z.of_nat n - 1)]) /\
  (already_listening l = false ->
   listenerAttempt (setupListener None l) = n /\
   timers (setupListener None l) = timers l ++ [LISTENER_BACKOFF_BASE * 2 ^ (Z.of_nat n - 1)]) /\
  listener_backoff (S n) = 2 * listener_backoff n /\
  forall ceiling, exists k, (1 <= k)%nat /\ ceiling < listener_backoff k.
Proof.
  intros F n. split; [|split; [|split]].
  - assert (E : on_status c status l =
                schedule_resubscribe
                  (match channel (removeChannel c l) with
                   | Some cur => if Nat.eqb cur c then set_channel None (removeChannel c l)
                                 else removeChannel c l
                   | None => removeChannel c l
                   end)).
    { unfold on_status. rewrite F.
      destruct (failure_status_cases status F) as [->|[->| ->]]; reflexivity. }
    rewrite E.
    match goal with |- context [schedule_resubscribe ?x] =>
      destruct (schedule_resubscribe_spec x) as (A & T & _);
      assert (La : listenerAttempt x = listenerAttempt l)
        by (simpl; destruct (channel l) as [cur|]; [destruct (Nat.eqb cur c)|]; reflexivity);
      assert (Lt : timers x = timers l)
        by (simpl; destruct (channel l) as [cur|]; [destruct (Nat.eqb cur c)|]; reflexivity)
    end.
    rewrite A, T, La, Lt, listener_backoff_pos by lia. auto.
  - intros G. unfold setupListener. rewrite G.
    match goal with |- context [schedule_resubscribe ?x] =>
      destruct (schedule_resubscribe_spec x) as (A & T & _);
      assert (La : listenerAttempt x = listenerAttempt l)
        by (simpl; destruct (channel l); reflexivity);
      assert (Lt : timers x = timers l)
        by (simpl; destruct (channel l); reflexivity)
    end.
    rewrite A, T, La, Lt, listener_backoff_pos by lia. auto.
  - apply listener_backoff_doubles. lia.
  - apply listener_backoff_unbounded.
Qed.

Lemma resubscribe_backoff_doubles_unbounded_witness :
  timers (on_status 0 "TIMED_OUT" (mkListener (Some O) 4 ["errored"] [] [])) = [16000] /\
  timers (setupListener None (mkListener (Some O) 4 ["errored"] [] [])) = [16000].
Proof.
  destruct (resubscribe_backoff_doubles_unbounded
              (mkListener (Some O) 4 ["errored"] [] []) 0%nat "TIMED_OUT")
    as ((_ & A) & B & _).
  - reflexivity.
  - split; [exact A | apply B; reflexivity].
Defined.

(** ** The watchdog *)

Lemma lcount_app (p : LEvent -> bool) (a b : list LEvent) :
  lcount p (a ++ b) = (lcount p a + lcount p b)%nat.
Proof.
  induction a as [|e a IH]; simpl; [reflexivity|].
  destruct (p e); simpl; rewrite IH; reflexivity.
Qed.

Lemma lcount_lemit (p : LEvent -> bool) (e : LEvent) (l : Listener) :
  lcount p (ltrace (lemit e l)) = (lcount p (ltrace l) + if p e then 1 else 0)%nat.
Proof. simpl. rewrite lcount_app. simpl. destruct (p e); lia. Qed.

(** C8 (as stated, refuted): with the channel wedged in the joining
    state, a watchdog tick makes no subscribe attempt. *)
Lemma watchdog_leaves_joining_channel :
  shouldRestart (listener_in "joining") = false /\
  attempts_in (listener_in "joining") (watchdog (Some "joining") (listener_in "joining")) = O /\
  channel (watchdog (Some "joining") (listener_in "joining")) = Some O.
Proof. repeat split. Qed.

Lemma shouldRestart_not_listening (l : Listener) :
  shouldRestart l = true -> already_listening l = false.
Proof.
  unfold shouldRestart, already_listening.
  destruct (channel l) as [c|]; [|reflexivity].
  intros H.
  destruct (String.eqb (channel_state l c) "joined") eqn:J.
  - apply String.eqb_eq in J. rewrite J in H. discriminate.
  - destruct (String.eqb (channel_state l c) "joining") eqn:K; [|reflexivity].
    apply String.eqb_eq in K. rewrite K in H. discriminate.
Qed.

Lemma setupListener_attempts (subscribed : option string) (l : Listener) :
  already_listening l = false ->
  lcount is_attempt (ltrace (setupListener subscribed l)) = S (lcount is_attempt (ltrace l)) /\
  lcount is_pull (ltrace (setupListener subscribed l)) = lcount is_pull (ltrace l).
Proof.
  intros G. unfold setupListener. rewrite G.
  destruct l as [ch n chs tm tr]; simpl.
  destruct ch as [old|], subscribed as [st|]; simpl;
    rewrite ?lcount_app; simpl; split; lia.
Qed.

(** C8 (amended): every watchdog tick runs one reconciliation pull,
    whatever the subscription state.  It forces a subscribe attempt
    exactly when no channel is current or the current channel's state
    is closed or errored (upper-cased: CLOSED, ERRORED, CHANNEL_ERROR);
    a channel in any other state, joining included, is left alone. *)
Theorem watchdog_tick_pulls_and_restarts_closed (subscribed : option string) (l : Listener) :
  pulls_in l (watchdog subscribed l) = 1%nat /\
  (shouldRestart l = true -> attempts_in l (watchdog subscribed l) = 1%nat) /\
  (shouldRestart l = false ->
   attempts_in l (watchdog subscribed l) = O /\
   channel (watchdog subscribed l) = channel l /\
   channels (watchdog subscribed l) = channels l) /\
  (shouldRestart l = true <->
   channel l = None \/
   exists c, channel l = Some c /\
             In (toUpperCase (channel_state l c)) ["CLOSED"; "ERRORED"; "CHANNEL_ERROR"]).
Proof.
  unfold watchdog, pulls_in, attempts_in.
  split; [|split; [|split]].
  - destruct (shouldRestart l) eqn:R.
    + apply shouldRestart_not_listening in R.
      destruct (setupListener_attempts subscribed (lemit LWatchdogRestart l) R) as [_ P].
      rewrite lcount_lemit, P, lcount_lemit. cbn [is_pull]. lia.
    + rewrite lcount_lemit. cbn [is_pull]. lia.
  - intros R. rewrite R. apply shouldRestart_not_listening in R.
    destruct (setupListener_attempts subscribed (lemit LWatchdogRestart l) R) as [A _].
    rewrite lcount_lemit, A, lcount_lemit. cbn [is_attempt]. lia.
  - intros R. rewrite R. rewrite lcount_lemit. cbn [is_attempt]. split; [lia|auto].
  - unfold shouldRestart. destruct (channel l) as [c|].
    + unfold includes. rewrite existsb_exists. split.
      * intros (x & Hin & E). right. exists c. split; [reflexivity|].
        apply String.eqb_eq in E. now rewrite E.
      * intros [H|(c' & E & Hin)]; [discriminate|]. injection E as <-.
        exists (toUpperCase (channel_state l c)). split; [exact Hin|apply String.eqb_refl].
    + split; auto.
Qed.

Lemma watchdog_tick_pulls_and_restarts_closed_witness :
  attempts_in (listener_in "closed") (watchdog (Some "joining") (listener_in "closed")) = 1%nat /\
  attempts_in (listener_in "leaving") (watchdog (Some "joining") (listener_in "leaving")) = O /\
  pulls_in (listener_in "joined") (watchdog (Some "joining") (listener_in "joined")) = 1%nat.
Proof.
  destruct (watchdog_tick_pulls_and_restarts_closed (Some "joining") (listener_in "closed"))
    as (_ & A & _).
  destruct (watchdog_tick_pulls_and_restarts_closed (Some "joining") (listener_in "leaving"))
    as (_ & _ & B & _).
  destruct (watchdog_tick_pulls_and_restarts_closed (Some "joining") (listener_in "joined"))
    as (C & _).
  split; [apply A; reflexivity|]. split; [apply B; reflexivity | exact C].
Defined.

(* ================================================================== *)
(** * Further properties of the code *)
(* ================================================================== *)

(** ** Teardown and hot-plug *)

(** X1: teardown is idempotent.  A second [cleanupPrinterConnection]
    changes nothing (no handle is closed twice), and after any teardown
    there is no connection and no open marked in progress. *)
Theorem cleanup_is_idempotent (w : World) :
  cleanupPrinterConnection (cleanupPrinterConnection w) = cleanupPrinterConnection w /\
  ready (cleanupPrinterConnection w) = None /\
  isDeviceInitializing (cleanupPrinterConnection w) = false.
Proof.
  destruct w as [dv pr init o sb wr tr].
  destruct dv, pr; repeat split.
Qed.

Lemma getPrinterConnection_absent (env : Env) (w : World) :
  ready w = None -> isDeviceInitializing w = false ->
  getPrinterConnection env w =
    (let '(w2, h) := open_begin w in open_finish (dev_open env h) h w2) /\
  opens (fst (getPrinterConnection env w)) = S (opens w) /\
  (dev_open env (opens w) = true ->
   snd (getPrinterConnection env w) = inl (mkConn (opens w) (opens w)) /\
   ready (fst (getPrinterConnection env w)) = Some (mkConn (opens w) (opens w)) /\
   isDeviceInitializing (fst (getPrinterConnection env w)) = false) /\
  (dev_open env (opens w) = false ->
   snd (getPrinterConnection env w) = inr (ErrOpen (opens w)) /\
   ready (fst (getPrinterConnection env w)) = None /\
   isDeviceInitializing (fst (getPrinterConnection env w)) = false).
Proof.
  intros R I. unfold getPrinterConnection. rewrite R, I.
  split; [reflexivity|].
  unfold open_begin, open_finish. cbn [fst snd].
  split; [|split]; intros; try rewrite H; cbn [fst snd].
  - destruct (dev_open env (opens w)); cbn [fst snd]; [reflexivity|].
    match goal with |- opens (cleanupPrinterConnection ?x) = _ =>
      destruct (cleanup_state x) as (_ & _ & _ & O & _); rewrite O end.
    reflexivity.
  - repeat split.
  - match goal with |- context [cleanupPrinterConnection ?x] =>
      destruct (cleanup_state x) as (D & P & F & _) end.
    unfold ready. rewrite D, F. auto.
Qed.

(** X2: a detach event for the managed printer tears the connection
    down whatever its state, and the next [getPrinterConnection] issues
    exactly one new physical open, on a handle never used before; its
    result is that handle or that open's error. *)
Theorem detach_then_acquire_opens_fresh (env : Env) (dev : UsbDevice) (w : World) :
  is_managed_printer dev = true ->
  ready (on_detach dev w) = None /\
  isDeviceInitializing (on_detach dev w) = false /\
  opens (fst (getPrinterConnection env (on_detach dev w))) = S (opens w) /\
  (dev_open env (opens w) = true ->
   snd (getPrinterConnection env (on_detach dev w)) = inl (mkConn (opens w) (opens w))) /\
  (dev_open env (opens w) = false ->
   snd (getPrinterConnection env (on_detach dev w)) = inr (ErrOpen (opens w))).
Proof.
  intros M. unfold on_detach. rewrite M.
  destruct (cleanup_state w) as (D & _ & I & O & _).
  assert (R : ready (cleanupPrinterConnection w) = None) by (unfold ready; now rewrite D).
  destruct (getPrinterConnection_absent env (cleanupPrinterConnection w) R I)
    as (_ & Op & Ok & Ko).
  rewrite O in *. repeat split; auto.
  - intros H. now destruct (Ok H).
  - intros H. now destruct (Ko H).
Qed.

Lemma detach_then_acquire_opens_fresh_witness :
  ready (on_detach (Some (Some (mkDescriptor VID PID))) (fst flaky_delivery)) = None /\
  snd (getPrinterConnection working_stub
         (on_detach (Some (Some (mkDescriptor VID PID))) (fst flaky_delivery))) =
    inl (mkConn (opens (fst flaky_delivery)) (opens (fst flaky_delivery))).
Proof.
  destruct (detach_then_acquire_opens_fresh working_stub
              (Some (Some (mkDescriptor VID PID))) (fst flaky_delivery))
    as (R & _ & _ & Ok & _).
  - reflexivity.
  - split; [exact R|]. apply Ok. reflexivity.
Defined.

(** X3: the handlers ignore every event that is not the managed
    printer's: no device object, no descriptor, or another vendor or
    product id leave the connection as it is. *)
Theorem foreign_usb_events_are_ignored (env : Env) (dev : UsbDevice) (w : World) :
  dev = None \/ dev = Some None \/
  (exists d, dev = Some (Some d) /\ (idVendor d <> VID \/ idProduct d <> PID)) ->
  on_detach dev w = w /\ on_attach env dev w = w.
Proof.
  intros H.
  assert (M : is_managed_printer dev = false).
  { destruct H as [->|[->|(d & -> & N)]]; try reflexivity.
    simpl. apply andb_false_iff.
    destruct N as [N|N]; [left|right]; now apply Z.eqb_neq. }
  unfold on_detach, on_attach. rewrite M. auto.
Qed.

Lemma foreign_usb_events_are_ignored_witness :
  on_detach (Some (Some (mkDescriptor VID 1))) (fst flaky_delivery) = fst flaky_delivery /\
  on_attach working_stub (Some (Some (mkDescriptor VID 1))) (fst flaky_delivery) =
    fst flaky_delivery.
Proof.
  apply (foreign_usb_events_are_ignored working_stub (Some (Some (mkDescriptor VID 1)))).
  right. right. exists (mkDescriptor VID 1). split; [reflexivity|].
  right. simpl. unfold PID. lia.
Defined.

(** X4: an attach event for the managed printer opens it in the
    background.  When the open succeeds the connection is ready and the
    next [getPrinterConnection] returns it without opening again; when
    it fails nothing is thrown and the connection is absent, the flag
    lowered. *)
Theorem attach_prepares_connection (env : Env) (dev : UsbDevice) (w : World) :
  is_managed_printer dev = true ->
  ready w = None -> isDeviceInitializing w = false ->
  (dev_open env (opens w) = true ->
   ready (on_attach env dev w) = Some (mkConn (opens w) (opens w)) /\
   getPrinterConnection env (on_attach env dev w) =
     (on_attach env dev w, inl (mkConn (opens w) (opens w)))) /\
  (dev_open env (opens w) = false ->
   ready (on_attach env dev w) = None /\
   isDeviceInitializing (on_attach env dev w) = false /\
   opens (on_attach env dev w) = S (opens w)).
Proof.
  intros M R I. unfold on_attach. rewrite M.
  destruct (getPrinterConnection_absent env w R I) as (_ & Op & Ok & Ko).
  split; intros H.
  - destruct (Ok H) as (_ & Rd & _). split; [exact Rd|].
    unfold getPrinterConnection at 1. now rewrite Rd.
  - destruct (Ko H) as (_ & Rd & Fl). auto.
Qed.

Lemma attach_prepares_connection_witness :
  getPrinterConnection working_stub
    (on_attach working_stub (Some (Some (mkDescriptor VID PID))) world0) =
    (on_attach working_stub (Some (Some (mkDescriptor VID PID))) world0, inl (mkConn 0 0)).
Proof.
  pose proof (attach_prepares_connection working_stub
                (Some (Some (mkDescriptor VID PID))) world0 eq_refl eq_refl eq_refl)
    as (Ok & _).
  destruct (Ok eq_refl) as (_ & G). exact G.
Defined.

Lemma emit_all_trace (d : list Event) (w : World) :
  emit_all d w =
  mkWorld (persistentDevice w) (persistentPrinter w) (isDeviceInitializing w)
          (opens w) (submits w) (writes w) (trace w ++ d).
Proof.
  revert w. induction d as [|e d IH]; intros w; simpl.
  - rewrite app_nil_r. destruct w; reflexivity.
  - rewrite IH. simpl. rewrite <- app_assoc. reflexivity.
Qed.

Lemma polls_left_step (waited : Z) :
  waited < GRACE_LIMIT -> polls_left waited = S (polls_left (waited + GRACE_POLL)).
Proof.
  intros H. unfold polls_left, GRACE_LIMIT, GRACE_POLL in *.
  replace (5000 - waited + (200 - 1)) with ((5000 - (waited + 200) + (200 - 1)) + 1 * 200) by lia.
  rewrite Z.div_add by lia.
  assert (0 <= (5000 - (waited + 200) + (200 - 1)) / 200) by (apply Z.div_pos; lia).
  lia.
Qed.

Lemma polls_left_done (waited : Z) : GRACE_LIMIT <= waited -> polls_left waited = O.
Proof.
  intros H. unfold polls_left, GRACE_LIMIT, GRACE_POLL in *.
  assert ((5000 - waited + (200 - 1)) / 200 <= 0).
  { apply Z.lt_succ_r. apply Z.div_lt_upper_bound; lia. }
  lia.
Qed.

(** With the flag raised and nobody to lower it, the grace loop polls
    until 5000 ms have been waited and then gives up. *)
Lemma grace_loop_polls (w : World) (waited : Z) :
  isDeviceInitializing w = true ->
  grace_loop w waited = emit_all (repeat (EvWait GRACE_POLL) (polls_left waited)) w.
Proof.
  funelim (grace_loop w waited); intros I.
  - pose proof (andb_prop _ _ e) as [_ Lt]. apply Z.ltb_lt in Lt.
    rewrite (polls_left_step waited Lt). simpl. apply H. exact I.
  - assert (GRACE_LIMIT <= waited).
    { destruct (waited <? GRACE_LIMIT) eqn:L; [|now apply Z.ltb_ge].
      exfalso. apply n. rewrite I. reflexivity. }
    rewrite polls_left_done by assumption. reflexivity.
Qed.

Lemma waits_repeat (ms : Z) (n : nat) : waits (repeat (EvWait ms) n) = repeat ms n.
Proof. induction n; simpl; congruence. Qed.

(** X5: a flag left raised delays a caller but cannot block it.  Run
    alone with [isDeviceInitializing] set and no connection,
    [getPrinterConnection] polls 25 times at 200 ms (5000 ms in all) and
    then issues its own open. *)
Theorem stale_flag_delays_but_never_blocks (env : Env) (w : World) :
  ready w = None -> isDeviceInitializing w = true ->
  waits (trace (fst (getPrinterConnection env w))) =
    waits (trace w) ++ repeat GRACE_POLL 25 /\
  sum_Z (repeat GRACE_POLL 25) = GRACE_LIMIT /\
  opens (fst (getPrinterConnection env w)) = S (opens w).
Proof.
  intros R I. unfold getPrinterConnection. rewrite R, I.
  rewrite (grace_loop_polls w 0 I), emit_all_trace.
  change (polls_left 0) with 25%nat.
  set (w1 := mkWorld _ _ _ _ _ _ _).
  assert (R1 : ready w1 = None) by exact R.
  rewrite R1.
  destruct (open_step env w1) as (d & (T & _ & _) & Wd & _).
  split; [|split].
  - rewrite T, waits_app, Wd, app_nil_r. subst w1. cbn [trace].
    now rewrite waits_app, waits_repeat.
  - reflexivity.
  - unfold open_begin, open_finish. cbn [fst snd].
    destruct (dev_open env (opens w1)); cbn [fst snd]; [reflexivity|].
    match goal with |- opens (cleanupPrinterConnection ?x) = _ =>
      destruct (cleanup_state x) as (_ & _ & _ & O & _); rewrite O end.
    reflexivity.
Qed.

Lemma stale_flag_delays_but_never_blocks_witness :
  opens (fst (getPrinterConnection working_stub (set_initializing true world0))) = 1%nat.
Proof.
  pose proof (stale_flag_delays_but_never_blocks working_stub (set_initializing true world0)
                eq_refl eq_refl) as (_ & _ & O).
  exact O.
Defined.

(** ** One delivery *)

Lemma getPrinterConnection_facts (env : Env) (w : World) :
  submits (fst (getPrinterConnection env w)) = submits w /\
  (opens w <= opens (fst (getPrinterConnection env w)) <= S (opens w))%nat /\
  (forall c, snd (getPrinterConnection env w) = inl c ->
             ready (fst (getPrinterConnection env w)) = Some c) /\
  (forall c, ready w = Some c -> getPrinterConnection env w = (w, inl c)) /\
  ((forall n, dev_open env n = true) -> exists c, snd (getPrinterConnection env w) = inl c).
Proof.
  unfold getPrinterConnection.
  destruct (ready w) as [c0|] eqn:R.
  { cbn [fst snd]. repeat split; try lia.
    - intros c E. now injection E as <-.
    - intros c E. now injection E as <-.
    - intros _. now exists c0. }
  set (w1 := if isDeviceInitializing w then grace_loop w 0 else w).
  assert (F : submits w1 = submits w /\ opens w1 = opens w /\ ready w1 = None).
  { subst w1. destruct (isDeviceInitializing w); [|auto].
    destruct (grace_loop_step w 0) as (d & _ & Rd & _ & O & S). rewrite Rd. auto. }
  destruct F as (Sb & Op & Rd).
  assert (E : (if isDeviceInitializing w then ready w1 else None) = None)
    by (destruct (isDeviceInitializing w); auto).
  rewrite E. unfold open_begin, open_finish. cbn [fst snd].
  destruct (dev_open env (opens w1)) eqn:D; cbn [fst snd].
  - cbn. rewrite Sb, Op. repeat split; try lia.
    + intros c H. now injection H as <-.
    + discriminate.
    + intros _. eauto.
  - match goal with |- context [cleanupPrinterConnection ?x] =>
      destruct (cleanup_state x) as (_ & _ & _ & O & S) end.
    rewrite O, S. cbn. rewrite Sb, Op. repeat split; try lia; try discriminate.
    intros A. rewrite A in D. discriminate.
Qed.

Lemma try_print_facts (env : Env) (jobId : JobId) (data : JsValue) (w : World) :
  (submits w <= submits (fst (try_print env jobId data w)) <= S (submits w))%nat /\
  (opens w <= opens (fst (try_print env jobId data w)) <= S (opens w))%nat /\
  (snd (try_print env jobId data w) = None ->
   ready (fst (try_print env jobId data w)) <> None) /\
  ((forall n, dev_open env n = true) ->
   submits (fst (try_print env jobId data w)) = S (submits w) /\
   snd (try_print env jobId data w) =
     if renders env data then
       match dev_submit env (submits w) with
       | SubmitOk => None
       | SubmitThrows => Some (ErrSubmit (submits w))
       end
     else Some ErrRender) /\
  (ready w <> None -> opens (fst (try_print env jobId data w)) = opens w).
Proof.
  unfold try_print.
  destruct (getPrinterConnection_facts env w) as (Sb & Op & Rd & Fast & Ok).
  assert (Keep : ready w <> None -> opens (fst (getPrinterConnection env w)) = opens w).
  { intros N. destruct (ready w) as [c0|] eqn:R; [|congruence].
    now rewrite (Fast c0 eq_refl). }
  destruct (getPrinterConnection env w) as [w1 [c|e]] eqn:G; cbn [fst snd] in *.
  - specialize (Rd c eq_refl).
    unfold printingTask, Promise_race, renders. rewrite Sb.
    destruct (render env data); [destruct (dev_submit env (submits w))|]; cbn; rewrite ?Sb.
    + split; [lia|]. split; [lia|]. split; [|split; [auto|exact Keep]].
      intros _. unfold ready in *. cbn. rewrite Rd. discriminate.
    + split; [lia|]. split; [lia|]. split; [discriminate|split; [auto|exact Keep]].
    + split; [lia|]. split; [lia|]. split; [discriminate|split; [auto|exact Keep]].
  - split; [lia|]. split; [lia|]. split; [discriminate|split; [|exact Keep]].
    intros A. destruct (Ok A) as [c H]. discriminate.
Qed.

Lemma catch_print_facts (jobId : JobId) (retryCount : nat) (w : World) :
  ready (catch_print jobId retryCount w) = None /\
  isDeviceInitializing (catch_print jobId retryCount w) = false /\
  opens (catch_print jobId retryCount w) = opens w /\
  submits (catch_print jobId retryCount w) = submits w.
Proof.
  unfold catch_print.
  match goal with |- context [cleanupPrinterConnection ?x] =>
    destruct (cleanup_state x) as (D & P & F & O & S) end.
  unfold ready. rewrite D, F, O, S. auto.
Qed.

Lemma performPrint_outcome_connection
  (env : Env) (w : World) (jobId : JobId) (data : JsValue) (retryCount : nat) :
  validPayload data = true ->
  (snd (performPrint env w jobId data retryCount) = Return ->
   ready (fst (performPrint env w jobId data retryCount)) <> None) /\
  (forall e, snd (performPrint env w jobId data retryCount) = Throw e ->
   ready (fst (performPrint env w jobId data retryCount)) = None /\
   isDeviceInitializing (fst (performPrint env w jobId data retryCount)) = false).
Proof.
  intros V.
  remember (MAX_RETRIES - retryCount)%nat as k eqn:Hk.
  revert retryCount w Hk.
  induction k as [|k IH]; intros rc w Hk; rewrite performPrint_eq, V; cbn [negb];
    destruct (try_print_facts env jobId data w) as (_ & _ & Rd & _);
    destruct (try_print env jobId data w) as [w1 [e|]]; cbn [fst snd] in *;
    try (split; [intros _; now apply Rd | discriminate]);
    destruct (catch_print_facts jobId rc w1) as (R & F & _).
  - assert (L : (rc <? MAX_RETRIES)%nat = false) by (apply Nat.ltb_nlt; lia).
    rewrite L. cbn [fst snd]. split; [discriminate|auto].
  - destruct (rc <? MAX_RETRIES)%nat eqn:L.
    + apply IH. lia.
    + cbn [fst snd]. split; [discriminate|auto].
Qed.



Lemma backoffs_sum (from n : nat) :
  sum_Z (backoffs from n) =
  RETRY_BACKOFF_BASE * (2 ^ Z.of_nat (from + n) - 2 ^ Z.of_nat from).
Proof.
  revert from. induction n as [|n IH]; intros from; cbn [backoffs sum_Z].
  - rewrite Nat.add_0_r, Z.sub_diag. lia.
  - rewrite IH. unfold backoff.
    replace (Z.of_nat (S from + n)) with (Z.of_nat (from + S n)) by lia.
    replace (Z.of_nat (S from)) with (Z.succ (Z.of_nat from)) by lia.
    rewrite Z.pow_succ_r by lia. unfold RETRY_BACKOFF_BASE. lia.
Qed.

Lemma backoffs_sum_bound (from n : nat) :
  (from + n <= MAX_RETRIES)%nat -> 0 <= sum_Z (backoffs from n) <= 7000.
Proof.
  intros H. rewrite backoffs_sum.
  assert (P0 : 1 <= 2 ^ Z.of_nat from) by (apply Z.pow_le_mono_r with (b := 0); lia).
  assert (P1 : 2 ^ Z.of_nat from <= 2 ^ Z.of_nat (from + n)) by (apply Z.pow_le_mono_r; lia).
  assert (P2 : 2 ^ Z.of_nat (from + n) <= 2 ^ 3).
  { apply Z.pow_le_mono_r; [lia|]. unfold MAX_RETRIES in H. lia. }
  change (2 ^ 3) with 8 in P2. unfold RETRY_BACKOFF_BASE. lia.
Qed.

(** The shape of every delivery of a well-formed payload: some number
    [f] of failed attempts, each but a final one followed by its backoff. *)
Lemma performPrint_shape (env : Env) (jobId : JobId) (data : JsValue) :
  validPayload data = true ->
  forall (retryCount : nat) (w : World),
    (retryCount <= MAX_RETRIES)%nat ->
    isDeviceInitializing w = false ->
    exists f,
      (f <= S MAX_RETRIES - retryCount)%nat /\
      count_events is_print_failed (trace (fst (performPrint env w jobId data retryCount))) =
        (count_events is_print_failed (trace w) + f)%nat /\
      (submits (fst (performPrint env w jobId data retryCount)) <=
         submits w + (S MAX_RETRIES - retryCount))%nat /\
      (opens (fst (performPrint env w jobId data retryCount)) <=
         opens w + (S MAX_RETRIES - retryCount))%nat /\
      (snd (performPrint env w jobId data retryCount) = Return /\
       (f <= MAX_RETRIES - retryCount)%nat /\
       waits (trace (fst (performPrint env w jobId data retryCount))) =
         waits (trace w) ++ backoffs retryCount f
       \/
       (exists e, snd (performPrint env w jobId data retryCount) = Throw e) /\
       f = (S MAX_RETRIES - retryCount)%nat /\
       waits (trace (fst (performPrint env w jobId data retryCount))) =
         waits (trace w) ++ backoffs retryCount (MAX_RETRIES - retryCount)).
Proof.
  intros V rc.
  remember (MAX_RETRIES - rc)%nat as k eqn:Hk.
  revert rc Hk.
  induction k as [|k IH]; intros rc Hk w Hrc I; rewrite performPrint_eq, V; cbn [negb];
    destruct (try_print_step env jobId data w) as (d1 & (T1 & _) & C1 & W1);
    specialize (W1 I);
    destruct (try_print_facts env jobId data w) as (Sb & Op & _);
    destruct (try_print env jobId data w) as [w1 [e|]]; cbn [fst snd] in *;
    try (exists O; rewrite T1, count_events_app, waits_app, C1, W1; cbn [backoffs];
         repeat split; try lia; left; repeat split; lia);
    destruct (catch_print_step jobId rc w1) as (d2 & (T2 & _) & W2 & C2 & I2);
    destruct (catch_print_facts jobId rc w1) as (_ & _ & O2 & S2).
  - assert (rc = MAX_RETRIES) by lia. subst rc.
    rewrite Nat.ltb_irrefl. cbn [fst snd]. exists 1%nat.
    rewrite T2, T1, !count_events_app, !waits_app, C1, W1, O2, S2.
    cbn [count_events is_print_failed waits backoffs]. rewrite C2, W2, !app_nil_r.
    repeat split; try lia. right. cbn [backoffs]. rewrite ?app_nil_r.
    repeat split; eauto; lia.
  - assert (L : (rc <? MAX_RETRIES)%nat = true) by (apply Nat.ltb_lt; lia).
    rewrite L.
    destruct (IH (rc + 1)%nat ltac:(lia) (wait (backoff rc) (catch_print jobId rc w1))
                 ltac:(lia) I2) as (f & Hf & Cn & Sn & On & Cases).
    exists (S f). rewrite Cn.
    change (trace (wait (backoff rc) (catch_print jobId rc w1)))
      with (trace (catch_print jobId rc w1) ++ [EvWait (backoff rc)]) in *.
    change (submits (wait (backoff rc) (catch_print jobId rc w1)))
      with (submits (catch_print jobId rc w1)) in *.
    change (opens (wait (backoff rc) (catch_print jobId rc w1)))
      with (opens (catch_print jobId rc w1)) in *.
    rewrite O2, S2 in *.
    rewrite T2, T1, !count_events_app, !waits_app, C1, W1 in *.
    cbn [count_events is_print_failed waits backoffs app] in *.
    rewrite C2, W2, !app_nil_r in *.
    replace (rc + 1)%nat with (S rc) in * by lia.
    split; [lia|]. split; [lia|]. split; [lia|]. split; [lia|].
    destruct Cases as [(Rt & Lf & Wt)|(Th & Ef & Wt)]; [left|right]; rewrite Wt;
      rewrite <- !app_assoc; cbn [app].
    + split; [exact Rt|]. split; [lia|reflexivity].
    + split; [exact Th|]. split; [lia|reflexivity].
Qed.

(** X7: a delivery is bounded whatever the printer does.  For a
    well-formed payload, started with no open in progress, [performPrint]
    finishes after at most [MAX_RETRIES + 1] attempts, issues at most that
    many opens and command sequences, and spends at most 7000 ms in
    backoff. *)
Theorem performPrint_is_bounded (env : Env) (w : World) (jobId : JobId) (data : JsValue) :
  validPayload data = true ->
  isDeviceInitializing w = false ->
  (count_events is_print_failed (trace (fst (performPrint env w jobId data 0))) <=
     count_events is_print_failed (trace w) + S MAX_RETRIES)%nat /\
  (submits (fst (performPrint env w jobId data 0)) <= submits w + S MAX_RETRIES)%nat /\
  (opens (fst (performPrint env w jobId data 0)) <= opens w + S MAX_RETRIES)%nat /\
  exists delays,
    waits (trace (fst (performPrint env w jobId data 0))) = waits (trace w) ++ delays /\
    0 <= sum_Z delays <= 7000.
Proof.
  intros V I.
  destruct (performPrint_shape env jobId data V 0 w ltac:(lia) I)
    as (f & Hf & Cn & Sn & On & Cases).
  rewrite Cn. repeat split; try lia.
  destruct Cases as [(_ & Lf & Wt)|(_ & Ef & Wt)]; rewrite Wt; eexists;
    (split; [reflexivity|]); apply backoffs_sum_bound; lia.
Qed.

Lemma performPrint_is_bounded_witness :
  (submits (fst failing_delivery) <= 0 + S MAX_RETRIES)%nat /\
  (opens (fst failing_delivery) <= 0 + S MAX_RETRIES)%nat.
Proof.
  pose proof (performPrint_is_bounded failing_stub world0 (IdNum 1) sample_payload
                eq_refl eq_refl) as (_ & S & O & _).
  split; [exact S | exact O].
Defined.

(** X8: recovery within the retry budget.  For a payload whose receipt
    is built without raising: if the printer opens and rejects the next
    [k] command sequences, [k <= MAX_RETRIES - retryCount], and accepts
    the one after, a delivery started with no open in progress returns
    normally after exactly [k + 1] command sequences and the [k] backoffs
    base * 2^retryCount, ..., with a ready connection. *)
Theorem performPrint_recovers_after_failures
  (env : Env) (jobId : JobId) (data : JsValue) (k : nat) :
  validPayload data = true ->
  renders env data = true ->
  forall (retryCount : nat) (w : World),
    (retryCount + k <= MAX_RETRIES)%nat ->
    isDeviceInitializing w = false ->
    fails_then_works env (submits w) k ->
    snd (performPrint env w jobId data retryCount) = Return /\
    submits (fst (performPrint env w jobId data retryCount)) = (submits w + S k)%nat /\
    waits (trace (fst (performPrint env w jobId data retryCount))) =
      waits (trace w) ++ backoffs retryCount k /\
    ready (fst (performPrint env w jobId data retryCount)) <> None.
Proof.
  intros V Hr. induction k as [|k IH]; intros rc w Hrc I (Op & Fl & Ok);
    rewrite performPrint_eq, V; cbn [negb];
    destruct (try_print_step env jobId data w) as (d1 & (T1 & _) & _ & W1);
    specialize (W1 I);
    destruct (try_print_facts env jobId data w) as (_ & _ & Rd & Sub & _);
    destruct (Sub Op) as (Sb & Res); clear Sub; rewrite Hr in Res.
  - rewrite Nat.add_0_r in Ok. rewrite Ok in Res.
    destruct (try_print env jobId data w) as [w1 [e|]]; cbn [fst snd] in *; [discriminate|].
    rewrite T1, waits_app, W1, Sb. cbn [backoffs]. repeat split; auto. lia.
  - assert (F0 : dev_submit env (submits w) = SubmitThrows)
      by (rewrite <- (Nat.add_0_r (submits w)); apply Fl; lia).
    rewrite F0 in Res.
    destruct (try_print env jobId data w) as [w1 [e|]]; cbn [fst snd] in *; [|discriminate].
    assert (L : (rc <? MAX_RETRIES)%nat = true) by (apply Nat.ltb_lt; lia).
    rewrite L.
    destruct (catch_print_step jobId rc w1) as (d2 & (T2 & _) & W2 & _ & I2).
    destruct (catch_print_facts jobId rc w1) as (_ & _ & _ & S2).
    set (w2 := wait (backoff rc) (catch_print jobId rc w1)).
    assert (Sw : submits w2 = S (submits w)).
    { subst w2. unfold wait, emit. cbn [submits]. rewrite S2. exact Sb. }
    destruct (IH (rc + 1)%nat w2 ltac:(lia) I2) as (Rt & Sn & Wn & Rn).
    { rewrite Sw. split; [exact Op|]. split.
      - intros i Hi. replace (S (submits w) + i)%nat with (submits w + S i)%nat by lia.
        apply Fl. lia.
      - replace (S (submits w) + k)%nat with (submits w + S k)%nat by lia. exact Ok. }
    split; [exact Rt|]. split; [rewrite Sn, Sw; lia|]. split; [|exact Rn].
    rewrite Wn. subst w2.
    change (trace (wait (backoff rc) (catch_print jobId rc w1)))
      with (trace (catch_print jobId rc w1) ++ [EvWait (backoff rc)]).
    rewrite T2, T1, !waits_app, W1. cbn [waits app]. rewrite W2, !app_nil_r.
    rewrite <- app_assoc. cbn [app backoffs]. now rewrite Nat.add_1_r.
Qed.

Lemma performPrint_recovers_after_failures_witness :
  snd flaky_delivery = Return /\
  submits (fst flaky_delivery) = 3%nat /\
  waits (trace (fst flaky_delivery)) = [1000; 2000].
Proof.
  pose proof (performPrint_recovers_after_failures flaky_stub (IdNum 1) sample_payload 2
                eq_refl eq_refl 0%nat world0) as H.
  destruct H as (R & S & W & _).
  - unfold MAX_RETRIES. lia.
  - reflexivity.
  - split; [intros n; reflexivity|]. split; [|reflexivity].
    intros i Hi. simpl. destruct i as [|[|i]]; [reflexivity|reflexivity|lia].
  - split; [exact R|]. split; [exact S | exact W].
Defined.

(** X9: the connection is kept between jobs.  With a printer that opens
    and accepts command sequences, and two payloads whose receipts are
    built without raising, the delivery that follows the first one issues
    no physical open: it submits on the connection the first one left
    ready. *)
Theorem consecutive_deliveries_share_connection
  (env : Env) (w : World) (job1 job2 : JobId) (data1 data2 : JsValue) :
  validPayload data1 = true -> validPayload data2 = true ->
  renders env data1 = true -> renders env data2 = true ->
  isDeviceInitializing w = false ->
  (forall n, dev_open env n = true) ->
  (forall n, dev_submit env n = SubmitOk) ->
  let w1 := fst (performPrint env w job1 data1 0) in
  let w2 := fst (performPrint env w1 job2 data2 0) in
  snd (performPrint env w job1 data1 0) = Return /\
  snd (performPrint env w1 job2 data2 0) = Return /\
  opens w2 = opens w1 /\
  ready w2 = ready w1 /\
  submits w2 = S (submits w1).
Proof.
  intros V1 V2 H1 H2 I Op Sb w1 w2.
  assert (One : forall jobId data w0,
            validPayload data = true -> renders env data = true ->
            snd (performPrint env w0 jobId data 0) = Return /\
            fst (performPrint env w0 jobId data 0) = fst (try_print env jobId data w0)).
  { intros jobId data w0 V Hr. rewrite performPrint_eq, V. cbn [negb].
    destruct (try_print_facts env jobId data w0) as (_ & _ & _ & Sub & _).
    destruct (Sub Op) as (_ & Res). rewrite Hr, Sb in Res.
    destruct (try_print env jobId data w0) as [w' [e|]]; cbn [fst snd] in *;
      [discriminate|auto]. }
  destruct (One job1 data1 w V1 H1) as (R1 & F1).
  destruct (One job2 data2 w1 V2 H2) as (R2 & F2).
  destruct (performPrint_outcome_connection env w job1 data1 0 V1) as (Rd & _).
  specialize (Rd R1). fold w1 in Rd.
  split; [exact R1|]. split; [exact R2|].
  subst w2. rewrite F2.
  destruct (try_print_facts env job2 data2 w1) as (_ & _ & _ & Sub & Keep).
  destruct (Sub Op) as (S2 & _).
  split; [now apply Keep|]. split; [|exact S2].
  unfold try_print.
  destruct (ready w1) as [c|] eqn:Rc; [|congruence].
  destruct (getPrinterConnection_facts env w1) as (_ & _ & _ & Fast & _).
  rewrite (Fast c Rc). unfold printingTask, Promise_race.
  unfold renders in H2. destruct (render env data2); [|discriminate]. rewrite Sb. cbn.
  unfold ready in *. cbn. exact (eq_sym (eq_sym Rc)).
Qed.

Lemma consecutive_deliveries_share_connection_witness :
  opens (fst (performPrint working_stub
                (fst (performPrint working_stub world0 (IdNum 1) sample_payload 0))
                (IdNum 2) sample_payload 0)) = 1%nat.
Proof.
  pose proof (consecutive_deliveries_share_connection working_stub world0 (IdNum 1) (IdNum 2)
                sample_payload sample_payload eq_refl eq_refl eq_refl eq_refl eq_refl
                (fun _ => eq_refl) (fun _ => eq_refl)) as (_ & _ & O & _).
  cbv zeta in O. rewrite O. vm_compute. reflexivity.
Defined.

(** *** Receipts that cannot be built *)

Lemma forEach_raises {A : Type} (f : A -> option unit) (l : list A) (x : A) :
  In x l -> f x = None -> forEach f l = None.
Proof.
  induction l as [|y l IH]; simpl; [tauto|].
  intros [->|H] E; [now rewrite E|].
  destruct (f y); simpl; auto.
Qed.

Lemma filter_method_null (method : string) (l : list JsValue) :
  In JNull l -> filter_method method l = None.
Proof.
  induction l as [|p l IH]; simpl; [tauto|].
  intros [->|H]; [reflexivity|].
  destruct (getProp p "method"); simpl; [|reflexivity].
  now rewrite (IH H).
Qed.

Lemma prop_of_defined (v x : JsValue) (k : string) :
  prop_of v k = x -> x <> JUndefined -> getProp v k = Some x.
Proof.
  unfold prop_of. destruct (getProp v k); intros <- N; [reflexivity|contradiction].
Qed.

Lemma getProp_total (v : JsValue) (k k' : string) (x : JsValue) :
  getProp v k = Some x -> exists y, getProp v k' = Some y.
Proof. destruct v; simpl; try discriminate; eauto. Qed.

Ltac skip_steps :=
  repeat match goal with
  | |- js_bind ?m _ = None => destruct m; cbn [js_bind]; [|reflexivity]
  end.

(** Building the receipt raises when an entry of [items] or [payments]
    is [null], and when [payments] is there and is not an array. *)
Lemma render_raises (env : Env) (data : JsValue) :
  (exists l, prop_of data "items" = JArr l /\ In JNull l) \/
  (exists l, prop_of data "payments" = JArr l /\ In JNull l) \/
  (truthy (prop_of data "payments") = true /\
   Array_isArray (prop_of data "payments") = false) ->
  render env data = None.
Proof.
  intros H.
  assert (D : exists x, getProp data "items" = Some x).
  { destruct H as [(l & E & _)|[(l & E & _)|(T & _)]].
    - exists (JArr l). apply prop_of_defined; [exact E|discriminate].
    - apply (getProp_total data "payments" "items" (JArr l)).
      apply prop_of_defined; [exact E|discriminate].
    - unfold prop_of in T. destruct (getProp data "payments") as [p|] eqn:P; [|discriminate].
      now apply (getProp_total data "payments" "items" p). }
  destruct D as (x & Dx).
  assert (G : forall k, getProp data k = Some (prop_of data k)).
  { intros k. destruct (getProp_total data "items" k x Dx) as (y & Ey).
    unfold prop_of. now rewrite Ey. }
  unfold render. rewrite !G. cbn [js_bind].
  destruct H as [(l & E & N)|[(l & E & N)|(T & A)]].
  - rewrite E. cbn [Array_isArray].
    rewrite (forEach_raises render_item l JNull N eq_refl).
    skip_steps. reflexivity.
  - assert (P : render_payments (or_else (prop_of data "payments") (JArr [])) = None).
    { rewrite E. unfold or_else, render_payments, sumByMethod. cbn [truthy].
      now rewrite (filter_method_null "cash" l N). }
    rewrite P. skip_steps. reflexivity.
  - assert (P : render_payments (or_else (prop_of data "payments") (JArr [])) = None).
    { unfold or_else. rewrite T. unfold render_payments, sumByMethod.
      destruct (prop_of data "payments"); try reflexivity. discriminate. }
    rewrite P. skip_steps. reflexivity.
Qed.

(** X24: a well-formed payload whose receipt cannot be built is retried
    like a printer fault.  When an entry of [items] or of [payments] is
    [null], or [payments] is there and is not an array, building the
    receipt raises on every attempt; whatever the printer does, a
    delivery started with no open in progress then makes
    [MAX_RETRIES + 1] attempts, waits 1000, 2000 and 4000 ms between
    them, and throws. *)
Theorem unbuildable_receipt_exhausts_retries
  (env : Env) (w : World) (jobId : JobId) (data : JsValue) :
  validPayload data = true ->
  (exists l, prop_of data "items" = JArr l /\ In JNull l) \/
  (exists l, prop_of data "payments" = JArr l /\ In JNull l) \/
  (truthy (prop_of data "payments") = true /\
   Array_isArray (prop_of data "payments") = false) ->
  isDeviceInitializing w = false ->
  renders env data = false /\
  exists w' e,
    performPrint env w jobId data 0 = (w', Throw e) /\
    count_events is_print_failed (trace w') =
      (count_events is_print_failed (trace w) + 4)%nat /\
    waits (trace w') = waits (trace w) ++ [1000; 2000; 4000].
Proof.
  intros V H I.
  pose proof (render_raises env data H) as R.
  split; [unfold renders; now rewrite R|].
  assert (F : always_fails env jobId data).
  { intros w0. unfold try_print.
    destruct (getPrinterConnection env w0) as [w1 [c|e]]; [|simpl; discriminate].
    unfold printingTask. rewrite R. simpl. discriminate. }
  destruct (performPrint_exhausts env jobId data V F 0%nat w ltac:(lia) I)
    as (w' & e & E & C & Wt & _).
  exists w', e. split; [exact E|]. split; [exact C|exact Wt].
Qed.

Lemma unbuildable_receipt_exhausts_retries_witness :
  renders working_stub null_item_payload = false /\
  exists w' e, performPrint working_stub world0 (IdNum 1) null_item_payload 0 = (w', Throw e).
Proof.
  destruct (unbuildable_receipt_exhausts_retries working_stub world0 (IdNum 1) null_item_payload)
    as (R & w' & e & E & _).
  - reflexivity.
  - left. exists [JNull]. split; [reflexivity|]. simpl. tauto.
  - reflexivity.
  - split; [exact R|]. exists w', e. exact E.
Defined.

(** The same delivery run: four command sequences begun, each ended by
    the TypeError, with a working printer. *)
Example null_item_is_retried_four_times :
  snd (performPrint working_stub world0 (IdNum 1) null_item_payload 0) = Throw ErrRender /\
  count_events is_submit
    (trace (fst (performPrint working_stub world0 (IdNum 1) null_item_payload 0))) = 4%nat /\
  count_events is_print_failed
    (trace (fst (performPrint working_stub world0 (IdNum 1) null_item_payload 0))) = 4%nat.
Proof.
  split; [vm_compute; reflexivity|].
  split; vm_compute; reflexivity.
Qed.

(** Which well-formed payloads build, case by case. *)
Example render_edges (env : Env) :
  renders env (payload_with []) = true /\
  renders env (payload_with [("payments", JObj [])]) = false /\
  renders env (payload_with [("payments", JStr "cash")]) = false /\
  renders env (payload_with [("payments", JStr EmptyString)]) = true /\
  renders env (payload_with [("payments", JArr [JNull])]) = false /\
  renders env (payload_with
                 [("payments", JArr [JNum 5; JObj [("method", JStr "cash");
                                                   ("amount", JStr "10")]])]) = true /\
  renders env (payload_with
                 [("payments", JArr [JObj [("method", JStr "cash");
                                           ("amount", unconvertible)]])]) = false /\
  renders env (payload_with
                 [("payments", JArr [JObj [("method", JStr "other");
                                           ("amount", unconvertible)]])]) = true /\
  renders env (payload_with [("company", JStr "ACME")]) = true /\
  renders env (payload_with [("company", JObj [("name", unconvertible)])]) = false /\
  renders env (payload_with [("customer", JObj [("id_number", unconvertible)])]) = true /\
  renders env (payload_with [("customer", JObj [("name", JStr "x");
                                                ("id_number", unconvertible)])]) = false /\
  renders env (payload_items [JNum 5; JStr "x"; JArr []]) = true /\
  renders env (payload_items [JObj [("qty", JNum 2)]; JNull]) = false /\
  renders env (payload_items [JObj [("price", unconvertible)]]) = false /\
  renders env (payload_totals [("discount", JNum 5); ("subtotal", unconvertible)]) = false /\
  renders env (payload_totals [("discount", JNum 0); ("subtotal", unconvertible)]) = true /\
  validPayload (payload_with [("payments", JObj [])]) = true.
Proof. repeat split. Qed.

(** ** The queue over whole runs *)

Lemma bounded_run (env : Env) (c m : nat) (inputs : list Input) (s s' : System) :
  bounded c m s -> run env s inputs = Some s' -> bounded c m s'.
Proof.
  apply (run_invariant env (bounded c m)).
  - intros jobId data s0 (C & M & L & R & B).
    destruct (addToQueue_cases jobId data s0) as [(_ & Lt & _ & E)|(e & _ & E)];
      rewrite E; unfold bounded; simpl; rewrite ?length_app; simpl; repeat split; auto; lia.
  - intros s0 H. exact H.
  - intros job s0 (C & M & L & R & B).
    destruct (push_cases job s0) as [(_ & Lt & _ & E)|(_ & [(_ & E)|(_ & E)])];
      rewrite E; unfold bounded; simpl; rewrite ?length_app; simpl; repeat split; auto; lia.
  - intros s0 s1 (C & M & L & R & B) T.
    apply take_immediate_spec in T. destruct T as (_ & Q & F & _).
    destruct (next_begin_cases s1) as [(job & rest & Lt & Hq & E)|(E & _)]; rewrite E.
    + unfold bounded. simpl. rewrite Q, F in *. rewrite Hq in L. simpl in L.
      rewrite length_app. simpl. repeat split; auto; lia.
    + unfold bounded. rewrite Q, F. auto.
  - intros k s0 s1 (C & M & L & R & B) E. apply next_settle_spec in E.
    destruct E as (job & N & Q & Cc & Mm & Rn & _ & F & _).
    unfold bounded. rewrite Q, Cc, Mm, Rn, F, (remove_nth_length k _ job N).
    repeat split; auto; lia.
  - intros s0 H. exact H.
Qed.

(** X10: the buffer is bounded.  In every state the event loop reaches,
    the queue object still has the concurrency and maximum length it was
    constructed with, and its buffer never holds more than that maximum. *)
Theorem buffer_never_exceeds_maximum (env : Env) (c m : nat) (s : System) :
  reachable env c m s ->
  concurrency (pq s) = c /\ maxLength (pq s) = m /\
  (List.length (queue (pq s)) <= m)%nat.
Proof.
  intros [inputs R].
  destruct (bounded_run env c m inputs (system_with (new_PrintQueue c m)) s) as (C & M & L & _); auto.
  unfold bounded. simpl. repeat split; lia.
Qed.

Lemma buffer_never_exceeds_maximum_witness :
  (List.length (queue (pq row2_waiting)) <= QUEUE_MAX_LENGTH)%nat.
Proof.
  destruct (buffer_never_exceeds_maximum working_stub 1 QUEUE_MAX_LENGTH row2_waiting)
    as (_ & _ & L).
  - exists [InPending (Some [row1; row2]); InImmediate]. vm_compute. reflexivity.
  - exact L.
Defined.

(** X11: the worker limit holds.  In every reachable state [running]
    is the number of deliveries in flight and never exceeds
    [concurrency]; with the default of 1 no two deliveries overlap, and
    with 0 nothing is ever delivered. *)
Theorem deliveries_in_flight_never_exceed_concurrency
  (env : Env) (c m : nat) (s : System) :
  reachable env c m s ->
  running (pq s) = List.length (inflight s) /\ (List.length (inflight s) <= c)%nat.
Proof.
  intros [inputs R].
  destruct (bounded_run env c m inputs (system_with (new_PrintQueue c m)) s) as (_ & _ & _ & Rn & B); auto.
  unfold bounded. simpl. repeat split; lia.
Qed.

Lemma deliveries_in_flight_never_exceed_concurrency_witness :
  (List.length (inflight row2_waiting) <= 1)%nat.
Proof.
  destruct (deliveries_in_flight_never_exceed_concurrency working_stub 1 QUEUE_MAX_LENGTH
              row2_waiting) as (_ & L).
  - exists [InPending (Some [row1; row2]); InImmediate]. vm_compute. reflexivity.
  - exact L.
Defined.

(** X12: no job waits in the buffer forever.  With a concurrency of at
    least 1, from every reachable state and for every buffered job, the
    wake-ups and settlements the runtime performs by itself lead to a
    state where that job's delivery has started. *)
Theorem buffered_job_is_eventually_started
  (env : Env) (c m : nat) (s : System) (job : Job) :
  (1 <= c)%nat -> reachable env c m s -> In job (queue (pq s)) ->
  exists inputs s',
    forallb internal inputs = true /\
    run env s inputs = Some s' /\
    In job (inflight s') /\
    (count_events (is_delivery_start (id job)) (trace (world s)) <
     count_events (is_delivery_start (id job)) (trace (world s')))%nat.
Proof.
  intros Hc R Hin. apply in_split in Hin. destruct Hin as (pre & post & Hq).
  apply (queued_job_starts env job pre post s); [|exact Hq].
  eapply reachable_worker_inv; eassumption.
Qed.

Lemma buffered_job_is_eventually_started_witness :
  exists inputs s',
    forallb internal inputs = true /\
    run working_stub row2_waiting inputs = Some s' /\
    In (mkJob (IdNum 2) sample_payload) (inflight s').
Proof.
  destruct (buffered_job_is_eventually_started working_stub 1 QUEUE_MAX_LENGTH row2_waiting
              (mkJob (IdNum 2) sample_payload)) as (inputs & s' & F & R & I & _).
  - lia.
  - exists [InPending (Some [row1; row2]); InImmediate]. vm_compute. reflexivity.
  - simpl. tauto.
  - exists inputs, s'. auto.
Defined.

Lemma started_ids_app (a b : list Event) : started_ids (a ++ b) = started_ids a ++ started_ids b.
Proof.
  induction a as [|e a IH]; simpl; [reflexivity|].
  destruct e; simpl; rewrite ?IH; reflexivity.
Qed.

Lemma started_ids_none (d : list Event) :
  forallb (fun e => ticket_event e || (loop_event e && negb (match e with
                                                           | EvDeliveryStart _ => true
                                                           | _ => false
                                                           end))) d = true ->
  started_ids d = [].
Proof.
  induction d as [|e d IH]; simpl; [reflexivity|].
  intros H. apply andb_prop in H. destruct H as [He Hd].
  destruct e; simpl in *; try discriminate; auto.
Qed.

Lemma serves_refl (s : System) : serves_in_order s s.
Proof. exists [], []. now rewrite !app_nil_r. Qed.

Lemma serves_trans (s1 s2 s3 : System) :
  serves_in_order s1 s2 -> serves_in_order s2 s3 -> serves_in_order s1 s3.
Proof.
  intros (st1 & a1 & T1 & Q1) (st2 & a2 & T2 & Q2).
  exists (st1 ++ st2), (a1 ++ a2). split.
  - now rewrite T2, T1, app_assoc.
  - rewrite <- app_assoc, Q2, app_assoc, Q1, app_assoc. reflexivity.
Qed.

(** A step that starts nothing and only appends to the buffer. *)
Lemma serves_append (s s' : System) (d : list Event) (added : list Job) :
  trace (world s') = trace (world s) ++ d -> started_ids d = [] ->
  queue (pq s') = queue (pq s) ++ added ->
  serves_in_order s s'.
Proof.
  intros T D Q. exists [], (ids added).
  rewrite T, started_ids_app, D, Q, ids_app. auto.
Qed.

Lemma serves_addToQueue (jobId : JobId) (data : JsValue) (s : System) :
  serves_in_order s (fst (addToQueue jobId data s)).
Proof.
  destruct (addToQueue_cases jobId data s) as [(_ & _ & _ & E)|(e & He & E)]; rewrite E.
  - apply (serves_append _ _ [EvSetImmediate; EvJobAdded jobId] [mkJob jobId data]);
      simpl; rewrite <- ?app_assoc; reflexivity.
  - apply (serves_append _ _ [e] []);
      simpl; rewrite ?app_nil_r; try reflexivity.
    destruct He as [[-> _]|[[-> _]|[-> _]]]; reflexivity.
Qed.

Lemma serves_push (job : Job) (s : System) : serves_in_order s (fst (push job s)).
Proof.
  destruct (push_cases job s) as [(_ & _ & _ & E)|(_ & [(_ & E)|(_ & E)])]; rewrite E.
  - apply (serves_append _ _ [EvSetImmediate] [job]); reflexivity.
  - apply (serves_append _ _ [EvQueueFull (id job)] []); simpl; rewrite ?app_nil_r; reflexivity.
  - apply (serves_append _ _ [EvDuplicate (id job)] []); simpl; rewrite ?app_nil_r; reflexivity.
Qed.

Lemma serves_run (env : Env) (inputs : list Input) (s0 s s' : System) :
  serves_in_order s0 s -> run env s inputs = Some s' -> serves_in_order s0 s'.
Proof.
  apply (run_invariant env (serves_in_order s0)).
  - intros jobId data s1 H. eapply serves_trans; [exact H|apply serves_addToQueue].
  - intros s1 H. eapply serves_trans; [exact H|].
    apply (serves_append _ _ [EvPendingFailed] []); simpl; rewrite ?app_nil_r; reflexivity.
  - intros job s1 H. eapply serves_trans; [exact H|apply serves_push].
  - intros s1 s2 H T. eapply serves_trans; [exact H|].
    apply take_immediate_spec in T. destruct T as (_ & Q & _ & W).
    destruct (next_begin_cases s2) as [(job & rest & _ & Hq & E)|(E & _)]; rewrite E.
    + exists [id job], []. simpl. rewrite W, <- Q, Hq, started_ids_app, app_nil_r. auto.
    + exists [], []. rewrite W, Q, !app_nil_r. auto.
  - intros k s1 s2 H E. eapply serves_trans; [exact H|].
    pose proof (next_settle_spec env k s1 s2 E) as (job & _ & Q & _ & _ & _ & _ & _ & T).
    destruct (printTicketSafe_events env (world s1) (id job) (payload job)) as (d & Td & F).
    rewrite Td, <- app_assoc in T.
    eapply (serves_append _ _ _ []); [exact T| |now rewrite app_nil_r].
    rewrite started_ids_app.
    assert (Dn : started_ids d = []).
    { apply started_ids_none. eapply forallb_weaken; [|exact F].
      intros e He. now rewrite He. }
    rewrite Dn.
    destruct (snd (printTicketSafe env (world s1) (id job) (payload job))); reflexivity.
  - intros s1 H. eapply serves_trans; [exact H|].
    destruct (cleanup_step (world s1)) as (d & (T & F & _) & _).
    eapply (serves_append _ _ d []); [exact T| |simpl; now rewrite app_nil_r].
    apply started_ids_none. eapply forallb_weaken; [|exact F].
    intros e He. now rewrite (device_is_ticket e He).
Qed.

(** X13: first in, first out.  Over any run of the event loop, the
    deliveries started since a state are, in order, the front of what
    that state had in its buffer followed by later arrivals: no buffered
    job is overtaken, and none leaves the buffer without being started. *)
Theorem jobs_start_in_arrival_order (env : Env) (inputs : list Input) (s s' : System) :
  run env s inputs = Some s' ->
  exists started added,
    started_ids (trace (world s')) = started_ids (trace (world s)) ++ started /\
    started ++ ids (queue (pq s')) = ids (queue (pq s)) ++ added.
Proof.
  intros R. exact (serves_run env inputs s s s' (serves_refl s) R).
Qed.

Lemma jobs_start_in_arrival_order_witness :
  exists s',
    run working_stub row2_waiting [InSettle 0; InInsert (mkRow (IdNum 3) Pending sample_payload);
                                   InImmediate] = Some s' /\
    exists started added,
      started_ids (trace (world s')) = started_ids (trace (world row2_waiting)) ++ started /\
      started ++ ids (queue (pq s')) = ids (queue (pq row2_waiting)) ++ added.
Proof.
  destruct (run working_stub row2_waiting
              [InSettle 0; InInsert (mkRow (IdNum 3) Pending sample_payload); InImmediate])
    as [s'|] eqn:E; [|vm_compute in E; discriminate].
  exists s'. split; [reflexivity|].
  exact (jobs_start_in_arrival_order working_stub _ row2_waiting s' E).
Defined.

Example arrival_order_example :
  started_ids (trace_of startup_run) = [IdNum 1; IdNum 2; IdNum 1].
Proof. vm_compute. reflexivity. Qed.

(** X14: a delivery never blocks the queue.  Whatever the printer and
    the ledger do (even when both ledger writes reject and
    [printTicketSafe] throws), settling a delivery in flight frees its
    slot, schedules one wake-up and leaves the buffer as it was. *)
Theorem settlement_always_frees_the_worker (env : Env) (s : System) (k : nat) (job : Job) :
  nth_error (inflight s) k = Some job ->
  exists s',
    next_settle env k s = Some s' /\
    running (pq s') = (running (pq s) - 1)%nat /\
    immediates s' = S (immediates s) /\
    inflight s' = remove_nth k (inflight s) /\
    queue (pq s') = queue (pq s).
Proof.
  intros N.
  destruct (next_settle env k s) as [s'|] eqn:E.
  - exists s'. apply next_settle_spec in E.
    destruct E as (j & _ & Q & _ & _ & R & I & F & _). auto.
  - unfold next_settle in E. rewrite N in E.
    destruct (printTicketSafe env (world s) (id job) (payload job)). discriminate.
Qed.

Lemma settlement_always_frees_the_worker_witness :
  exists s',
    next_settle hostile_stub 0 row2_waiting = Some s' /\
    running (pq s') = O /\ immediates s' = S (immediates row2_waiting).
Proof.
  destruct (settlement_always_frees_the_worker hostile_stub
              row2_waiting 0 (mkJob (IdNum 1) sample_payload) eq_refl)
    as (s' & E & R & I & _).
  exists s'. split; [exact E|]. split; [exact R | exact I].
Defined.

(** X15: the ledger writes of one delivery, for any ledger.  A delivery
    requests [Printed] alone, [Error] alone, or [Printed] then [Error];
    the last happens exactly when the receipt printed and the [Printed]
    request rejected, so a printed job can end up marked [Error].  It
    throws only when its [Error] request rejects. *)
Theorem delivery_writes_for_any_ledger (env : Env) (w : World) (jobId : JobId) (data : JsValue) :
  let w1 := fst (performPrint env w jobId data 0) in
  let printed := match snd (performPrint env w jobId data 0) with
                 | Return => true
                 | Throw _ => false
                 end in
  let r := printTicketSafe env w jobId data in
  status_writes jobId (trace (fst r)) =
    status_writes jobId (trace w) ++
    (if printed
     then if ledger_rejects env (writes w1) then [Printed; Error] else [Printed]
     else [Error]) /\
  (snd r = Return <->
   (if printed
    then ledger_rejects env (writes w1) = false \/ ledger_rejects env (S (writes w1)) = false
    else ledger_rejects env (writes w1) = false)).
Proof.
  intros w1 printed r. subst w1 printed r.
  destruct (performPrint_step env jobId data 0 w) as (d & T & F & Wr).
  assert (Hd : status_writes jobId d = []).
  { clear - F. induction d as [|e d IH]; simpl in *; [reflexivity|].
    apply andb_prop in F. destruct F as [He Hd].
    destruct e; simpl in *; try discriminate; auto. }
  unfold printTicketSafe, try_ticket.
  destruct (performPrint env w jobId data 0) as [w1 [|e]]; cbn [fst snd] in *.
  - unfold ledger_update. cbn [fst snd].
    destruct (ledger_rejects env (writes w1)) eqn:R1; cbn [fst snd].
    + cbn [writes emit count_write].
      destruct (ledger_rejects env (S (writes w1))) eqn:R2; cbn [fst snd trace emit count_write];
        rewrite T, <- !app_assoc, !status_writes_app, Hd; cbn; rewrite JobId_eqb_refl;
        (split; [reflexivity|]); split; intros H; auto; try discriminate;
        destruct H; discriminate.
    + cbn [trace emit count_write].
      rewrite T, <- !app_assoc, !status_writes_app, Hd; cbn; rewrite JobId_eqb_refl.
      split; [reflexivity|]. split; auto.
  - unfold ledger_update. cbn [fst snd writes emit].
    destruct (ledger_rejects env (writes w1)) eqn:R1; cbn [fst snd trace emit count_write];
      rewrite T, <- !app_assoc, !status_writes_app, Hd; cbn; rewrite JobId_eqb_refl;
      (split; [reflexivity|]); split; intros H; auto; discriminate.
Qed.

Lemma delivery_writes_for_any_ledger_witness :
  status_writes (IdNum 1)
    (trace (fst (printTicketSafe lossy_ledger_stub world0 (IdNum 1) sample_payload))) =
    [Printed; Error] /\
  snd (printTicketSafe lossy_ledger_stub world0 (IdNum 1) sample_payload) = Return.
Proof.
  pose proof (delivery_writes_for_any_ledger lossy_ledger_stub world0 (IdNum 1) sample_payload)
    as (W & R).
  cbv zeta in W, R. split.
  - rewrite W. vm_compute. reflexivity.
  - apply R. vm_compute. right. reflexivity.
Defined.

(** A receipt that printed, with a ledger whose first request rejects. *)
Example printed_job_marked_error :
  let env := lossy_ledger_stub in
  status_writes (IdNum 1) (trace (fst (printTicketSafe env world0 (IdNum 1) sample_payload))) =
    [Printed; Error] /\
  count_events is_submit (trace (fst (printTicketSafe env world0 (IdNum 1) sample_payload))) =
    1%nat.
Proof. split; vm_compute; reflexivity. Qed.

(** *** A pull of pending rows *)

Lemma forEach_addToQueue_prefix (data : list Row) (s : System) :
  exists n,
    queue (pq (fst (forEach_addToQueue data s))) =
      queue (pq s) ++ map job_of_row (firstn n data) /\
    maxLength (pq (fst (forEach_addToQueue data s))) = maxLength (pq s) /\
    match nth_error data n with
    | None => snd (forEach_addToQueue data s) = Return
    | Some row =>
        snd (forEach_addToQueue data s) = Throw ErrNotAFunction /\
        (validPayload (row_payload row) = false \/
         (maxLength (pq (fst (forEach_addToQueue data s))) <=
          List.length (queue (pq (fst (forEach_addToQueue data s)))))%nat \/
         queued (row_id row) (queue (pq (fst (forEach_addToQueue data s)))) = true)
    end.
Proof.
  revert s. induction data as [|r data IH]; intros s.
  - exists O. simpl. rewrite app_nil_r. auto.
  - cbn [forEach_addToQueue].
    destruct (addToQueue_cases (row_id r) (row_payload r) s) as [(_ & _ & _ & E)|(e & He & E)];
      rewrite E.
    + match goal with |- context [forEach_addToQueue data ?x] =>
        destruct (IH x) as (n & Q & M & H) end.
      exists (S n). cbn [firstn map nth_error]. rewrite Q, M. cbn [pq queue maxLength].
      rewrite <- app_assoc. split; [reflexivity|]. split; [reflexivity|].
      destruct (nth_error data n) as [row|]; [|exact H].
      destruct H as (T & Why). split; [exact T|].
      rewrite Q, M in Why. cbn [pq queue maxLength] in Why. rewrite <- app_assoc in Why.
      exact Why.
    + exists O. cbn [firstn map nth_error fst snd log pq]. rewrite app_nil_r.
      split; [reflexivity|]. split; [reflexivity|]. split; [reflexivity|].
      destruct He as [[_ V]|[[_ (_ & F)]|[_ (_ & D)]]]; auto.
Qed.

(** X16: a pull enqueues a prefix of the reply and marks nothing.
    [processPending] hands the rows to [addToQueue] in order and stops at
    the first one that is rejected (ill-formed payload, buffer full, or
    id already buffered): the rows before it are appended to the buffer
    behind the jobs already there, that row and all later rows are left
    out and one failure is logged; when no row is rejected all are
    appended and nothing is logged.  In no case is a status requested
    for any row. *)
Theorem processPending_enqueues_a_prefix (data : list Row) (s : System) :
  all_status_writes (trace (world (processPending (Some data) s))) =
    all_status_writes (trace (world s)) /\
  exists n,
    queue (pq (processPending (Some data) s)) =
      queue (pq s) ++ map job_of_row (firstn n data) /\
    match nth_error data n with
    | None =>
        count_events is_pending_failed (trace (world (processPending (Some data) s))) =
          count_events is_pending_failed (trace (world s))
    | Some row =>
        (validPayload (row_payload row) = false \/
         (maxLength (pq s) <= List.length (queue (pq (processPending (Some data) s))))%nat \/
         queued (row_id row) (queue (pq (processPending (Some data) s))) = true) /\
        count_events is_pending_failed (trace (world (processPending (Some data) s))) =
          S (count_events is_pending_failed (trace (world s)))
    end.
Proof.
  split.
  - destruct (processPending_extends (Some data) s) as (d & T & F).
    rewrite T, all_status_writes_app, (loop_events_no_status d F). apply app_nil_r.
  - assert (Quiet : count_events is_pending_failed
                      (trace (world (fst (forEach_addToQueue data s)))) =
                    count_events is_pending_failed (trace (world s))).
    { clear. revert s. induction data as [|r data IH]; intros s; [reflexivity|].
      cbn [forEach_addToQueue].
      destruct (addToQueue_cases (row_id r) (row_payload r) s)
        as [(_ & _ & _ & E)|(e & He & E)]; rewrite E.
      - rewrite IH. simpl. rewrite !count_events_app. simpl. lia.
      - cbn [fst log world trace emit]. rewrite count_events_app.
        destruct He as [[-> _]|[[-> _]|[-> _]]]; simpl; lia. }
    destruct (forEach_addToQueue_prefix data s) as (n & Q & M & H).
    exists n. cbn [processPending].
    destruct (forEach_addToQueue data s) as [s1 [|e]]; cbn [fst snd] in *.
    + split; [exact Q|].
      destruct (nth_error data n) as [row|]; [destruct H; discriminate|exact Quiet].
    + cbn [log pq world trace emit]. split; [exact Q|].
      destruct (nth_error data n) as [row|]; [|discriminate].
      destruct H as (_ & Why). rewrite M in Why. split; [exact Why|].
      rewrite count_events_app, Quiet. simpl. lia.
Qed.

(** One ill-formed row at the head of the reply keeps the whole pull out
    of the queue, and stays pending. *)
Example poisoned_pull_enqueues_nothing :
  queue (pq poisoned_pull) = [] /\
  all_status_writes (trace (world poisoned_pull)) = [] /\
  trace (world poisoned_pull) = [EvInvalidPayload (IdNum 9); EvPendingFailed].
Proof. repeat split. Qed.

(** X17: what the shape check accepts.  [isValidJobPayload] never
    raises, and answers true exactly for a non-null object (arrays
    included) whose [invoice] is a non-null object, whose [totals.total]
    has type number ([NaN] included), and whose [items] is an array. *)
Theorem payload_check_decides_shape (p : JsValue) :
  isValidJobPayload p = Some (shape_ok p) /\
  (isValidJobPayload p = Some true <->
   is_object p = true /\ is_object (prop_of p "invoice") = true /\
   is_number (prop_of (prop_of p "totals") "total") = true /\
   Array_isArray (prop_of p "items") = true).
Proof.
  assert (E : isValidJobPayload p = Some (shape_ok p)).
  { pose proof (validPayload_shape p) as V. unfold validPayload in V.
    pose proof (isValidJobPayload_total p) as T.
    destruct (isValidJobPayload p) as [b|]; [now subst|contradiction]. }
  split; [exact E|]. rewrite E. unfold shape_ok. split.
  - intros H. injection H as H. rewrite !andb_true_iff in H. tauto.
  - intros (A & B & C & D). now rewrite A, B, C, D.
Qed.

Lemma payload_check_decides_shape_witness :
  is_object sample_payload = true /\
  Array_isArray (prop_of sample_payload "items") = true.
Proof.
  destruct (payload_check_decides_shape sample_payload) as (_ & H & _).
  destruct (H eq_refl) as (A & _ & _ & D).
  split; [exact A | exact D].
Defined.

Example payload_check_edges :
  isValidJobPayload (JObj [("invoice", JArr []); ("totals", JObj [("total", JNaN)]);
                           ("items", JArr [])]) = Some true /\
  isValidJobPayload (JObj [("invoice", JObj []); ("totals", JObj [("total", JStr "10")]);
                           ("items", JArr [])]) = Some false /\
  isValidJobPayload (JObj [("invoice", JObj []); ("totals", JNum 10); ("items", JArr [])])
    = Some false /\
  isValidJobPayload (JObj [("invoice", JObj []); ("totals", JObj [("total", JNum 10)])])
    = Some false /\
  isValidJobPayload JNull = Some false.
Proof. repeat split. Qed.

(** ** The listener over several events *)

Lemma on_status_subscribed (c : nat) (l : Listener) :
  on_status c "SUBSCRIBED" l =
  lemit LProcessPending (lemit LConnected (set_channel (Some c) (set_attempt 0 l))).
Proof. reflexivity. Qed.

Lemma on_status_failure (c : nat) (status : string) (l : Listener) :
  includes ["CLOSED"; "CHANNEL_ERROR"; "TIMED_OUT"] status = true ->
  on_status c status l =
  schedule_resubscribe
    (match channel l with
     | Some cur => if Nat.eqb cur c then set_channel None (removeChannel c l)
                   else removeChannel c l
     | None => removeChannel c l
     end).
Proof.
  intros F. unfold on_status. rewrite F.
  destruct (failure_status_cases status F) as [->|[->| ->]]; reflexivity.
Qed.

(** X18: a confirmed subscription resets the backoff.  After the status
    callback has seen SUBSCRIBED (which makes that channel current and
    runs one pull), the next failure is retried after the base delay
    again, however many failures came before. *)
Theorem subscription_resets_backoff (l : Listener) (c c' : nat) (status : string) :
  includes ["CLOSED"; "CHANNEL_ERROR"; "TIMED_OUT"] status = true ->
  channel (on_status c "SUBSCRIBED" l) = Some c /\
  listenerAttempt (on_status c "SUBSCRIBED" l) = O /\
  pulls_in l (on_status c "SUBSCRIBED" l) = 1%nat /\
  timers (on_status c "SUBSCRIBED" l) = timers l /\
  timers (on_status c' status (on_status c "SUBSCRIBED" l)) =
    timers l ++ [LISTENER_BACKOFF_BASE].
Proof.
  intros F. rewrite (on_status_failure c' status _ F), on_status_subscribed.
  split; [reflexivity|]. split; [reflexivity|]. split; [|split; [reflexivity|]].
  - unfold pulls_in. rewrite !lcount_lemit. unfold set_channel, set_attempt.
    cbn [ltrace is_pull]. lia.
  - match goal with |- context [schedule_resubscribe ?x] =>
      destruct (schedule_resubscribe_spec x) as (_ & T & _);
      assert (La : listenerAttempt x = O)
        by (simpl; destruct (Nat.eqb c c'); reflexivity);
      assert (Lt : timers x = timers l)
        by (simpl; destruct (Nat.eqb c c'); reflexivity)
    end.
    rewrite T, La, Lt. reflexivity.
Qed.

Lemma subscription_resets_backoff_witness :
  timers (on_status 0 "CLOSED" (on_status 0 "SUBSCRIBED" (mkListener (Some O) 6 ["joined"] [] [])))
  = [1000].
Proof.
  pose proof (subscription_resets_backoff (mkListener (Some O) 6 ["joined"] [] []) 0 0 "CLOSED"
                eq_refl) as (_ & _ & _ & _ & T).
  exact T.
Defined.

(** X19: a late failure from a superseded channel does not disturb a
    healthy subscription.  If the current channel is joined and the
    status callback of another channel reports a failure, the current
    channel stays current; the retry timer this arms finds the listener
    already listening and does nothing, and so does the watchdog. *)
Theorem stale_failure_leaves_healthy_subscription
  (l : Listener) (cur c : nat) (status : string) (subscribed : option string) :
  includes ["CLOSED"; "CHANNEL_ERROR"; "TIMED_OUT"] status = true ->
  channel l = Some cur -> cur <> c -> channel_state l cur = "joined" ->
  channel (on_status c status l) = Some cur /\
  setupListener subscribed (on_status c status l) = on_status c status l /\
  attempts_in (on_status c status l) (watchdog subscribed (on_status c status l)) = O.
Proof.
  intros F Ch Ne St. rewrite (on_status_failure c status l F), Ch.
  apply Nat.eqb_neq in Ne. rewrite Ne.
  set (l1 := schedule_resubscribe (removeChannel c l)).
  assert (C1 : channel l1 = Some cur) by exact Ch.
  assert (S1 : channel_state l1 cur = "joined") by exact St.
  assert (A1 : already_listening l1 = true).
  { unfold already_listening. rewrite C1, S1. reflexivity. }
  assert (R1 : shouldRestart l1 = false).
  { unfold shouldRestart. rewrite C1, S1. reflexivity. }
  split; [exact C1|]. split.
  - unfold setupListener. now rewrite A1.
  - unfold attempts_in, watchdog. rewrite R1, lcount_lemit. cbn [is_attempt]. lia.
Qed.

Lemma stale_failure_leaves_healthy_subscription_witness :
  channel (on_status 0 "TIMED_OUT" (mkListener (Some 1%nat) 0 ["closed"; "joined"] [] []))
  = Some 1%nat.
Proof.
  pose proof (stale_failure_leaves_healthy_subscription
                (mkListener (Some 1%nat) 0 ["closed"; "joined"] [] []) 1 0 "TIMED_OUT" None
                eq_refl eq_refl ltac:(discriminate) eq_refl) as (C & _).
  exact C.
Defined.

Lemma nth_new_channel (chs : list string) (st : string) :
  nth (List.length chs) (chs ++ [st]) EmptyString = st.
Proof. induction chs as [|x chs IH]; simpl; auto. Qed.

Lemma watchdog_tick_restart (l : Listener) (subscribed : option string) :
  shouldRestart l = true ->
  attempts_in l (watchdog subscribed l) = 1%nat /\ pulls_in l (watchdog subscribed l) = 1%nat.
Proof.
  intros R. unfold attempts_in, pulls_in, watchdog. rewrite R.
  apply shouldRestart_not_listening in R.
  destruct (setupListener_attempts subscribed (lemit LWatchdogRestart l) R) as [A P].
  rewrite !lcount_lemit, A, P, !lcount_lemit. cbn [is_attempt is_pull]. lia.
Qed.

(** X20: the watchdog heals a failed subscription, once.  After the
    current channel has reported a failure (which clears it), the next
    watchdog tick subscribes a new channel and makes it current; if that
    channel is left joining or joined, the retry timer armed by the
    failure then finds the listener already listening and creates no
    second feed. *)
Theorem watchdog_heals_failed_subscription
  (l : Listener) (c : nat) (status st : string) (subscribed : option string) :
  includes ["CLOSED"; "CHANNEL_ERROR"; "TIMED_OUT"] status = true ->
  channel l = Some c ->
  st = "joining" \/ st = "joined" ->
  let failed := on_status c status l in
  let healed := watchdog (Some st) failed in
  channel failed = None /\
  channel healed = Some (List.length (channels l)) /\
  attempts_in failed healed = 1%nat /\
  setupListener subscribed healed = healed.
Proof.
  intros F Ch Hst failed healed.
  assert (E : failed = schedule_resubscribe (set_channel None (removeChannel c l))).
  { subst failed. rewrite (on_status_failure c status l F), Ch, Nat.eqb_refl. reflexivity. }
  assert (C0 : channel failed = None) by (rewrite E; reflexivity).
  assert (Chs : channels failed = channels l) by (rewrite E; reflexivity).
  assert (R : shouldRestart failed = true) by (unfold shouldRestart; now rewrite C0).
  clear E. clearbody failed.
  assert (H : healed =
              lemit LProcessPending
                (lemit (LSubscribe (List.length (channels l)))
                   (mkListener (Some (List.length (channels l))) (listenerAttempt failed)
                      (channels l ++ [st]) (timers failed)
                      (ltrace failed ++ [LWatchdogRestart])))).
  { subst healed. unfold watchdog. rewrite R. unfold setupListener.
    assert (A : already_listening (lemit LWatchdogRestart failed) = false)
      by (unfold already_listening; simpl; now rewrite C0).
    rewrite A. destruct failed as [ch n chs tm tr]. simpl in *. subst. reflexivity. }
  split; [exact C0|]. split; [rewrite H; reflexivity|]. split.
  - destruct (watchdog_tick_restart failed (Some st) R) as [A _]. exact A.
  - unfold setupListener.
    assert (A : already_listening healed = true).
    { rewrite H. unfold already_listening, channel_state. simpl.
      rewrite nth_new_channel. destruct Hst as [->| ->]; reflexivity. }
    now rewrite A.
Qed.

Lemma watchdog_heals_failed_subscription_witness :
  channel (watchdog (Some "joining")
             (on_status 0 "CHANNEL_ERROR" (listener_in "errored"))) = Some 1%nat.
Proof.
  pose proof (watchdog_heals_failed_subscription (listener_in "errored") 0 "CHANNEL_ERROR"
                "joining" None eq_refl eq_refl (or_introl eq_refl)) as (_ & C & _).
  exact C.
Defined.

(** ** Receipt helpers *)

Lemma string_length_app (a b : string) :
  String.length (a ++ b) = (String.length a + String.length b)%nat.
Proof. induction a as [|x a IH]; simpl; [reflexivity|]. now rewrite IH. Qed.

Lemma substring_0_length (n : nat) (s : string) :
  String.length (substring 0 n s) = Nat.min n (String.length s).
Proof.
  revert s. induction n as [|n IH]; intros s; destruct s as [|x s]; simpl; auto.
Qed.

Lemma repeat_string_length (s : string) (n : nat) :
  String.length (repeat_string s n) = (n * String.length s)%nat.
Proof.
  induction n as [|n IH]; simpl; [reflexivity|]. now rewrite string_length_app, IH.
Qed.

(** X21: the width of a receipt row.  With a one-character filler,
    [drawRow] keeps at most 32 characters of the left text and all of the
    right text, puts at least one filler between them, and produces
    exactly [maxCols] characters whenever the two texts and one filler
    fit; otherwise the row is one character longer than the two texts and
    overflows the paper width. *)
Theorem drawRow_width (left right fillChar : string) (maxCols : Z) :
  String.length fillChar = 1%nat ->
  let kept := Nat.min 32 (String.length left) in
  (exists k, (1 <= k)%nat /\
             drawRow left right fillChar maxCols =
               (substring 0 32 left ++ repeat_string fillChar k ++ right)%string) /\
  Z.of_nat (String.length (drawRow left right fillChar maxCols)) =
    Z.max maxCols (Z.of_nat kept + Z.of_nat (String.length right) + 1).
Proof.
  intros F kept. unfold drawRow.
  set (space := maxCols - Z.of_nat (String.length (substring 0 32 left))
                - Z.of_nat (String.length right)).
  split.
  - exists (Z.to_nat (if space <? 1 then 1 else space)). split; [|reflexivity].
    destruct (space <? 1) eqn:L; [simpl; lia|]. apply Z.ltb_ge in L. lia.
  - rewrite !string_length_app, repeat_string_length, F.
    subst space. rewrite substring_0_length. fold kept.
    destruct (maxCols - Z.of_nat kept - Z.of_nat (String.length right) <? 1) eqn:L.
    + apply Z.ltb_lt in L. simpl. lia.
    + apply Z.ltb_ge in L. lia.
Qed.

Lemma drawRow_width_witness :
  Z.of_nat (String.length (drawRow "TOTAL:" "$1.000" " " 24)) = 24.
Proof.
  pose proof (drawRow_width "TOTAL:" "$1.000" " " 24 eq_refl) as (_ & W).
  exact W.
Defined.

Lemma only_digits_all (s : string) : all_digits (only_digits s) = true.
Proof.
  induction s as [|a s IH]; simpl; [reflexivity|].
  destruct (is_digit a) eqn:D; simpl; [now rewrite D|exact IH].
Qed.

Lemma only_digits_fixed (s : string) : all_digits s = true -> only_digits s = s.
Proof.
  induction s as [|a s IH]; simpl; [reflexivity|].
  intros H. apply andb_prop in H. destruct H as [D R]. rewrite D, (IH R). reflexivity.
Qed.

Lemma space_is_not_digit : is_digit " " = false.
Proof. reflexivity. Qed.

(** The layout of ten digits. *)
Lemma ten_digits_layout (d : string) :
  String.length d = 10%nat -> all_digits d = true ->
  only_digits (substring 0 3 d ++ " " ++ substring 3 3 d ++ " " ++ substring 6 4 d) = d /\
  String.length (substring 0 3 d ++ " " ++ substring 3 3 d ++ " " ++ substring 6 4 d) = 12%nat.
Proof.
  intros L A.
  do 10 (destruct d as [|? d]; [discriminate|]).
  destruct d; [|discriminate].
  cbn [all_digits] in A. repeat (apply andb_prop in A; destruct A as [? A]).
  cbn [substring append only_digits String.length].
  repeat match goal with H : is_digit _ = true |- _ => rewrite H; clear H end.
  rewrite space_is_not_digit. auto.
Qed.

(** X22: [formatPhone] only re-spaces.  It never changes the digits of
    a number; a text with exactly ten digits becomes those digits grouped
    3-3-4 (twelve characters), any other text is returned unchanged; and
    formatting twice is the same as formatting once. *)
Theorem formatPhone_keeps_digits (phone : string) :
  only_digits (formatPhone phone) = only_digits phone /\
  (String.length (only_digits phone) = 10%nat ->
   String.length (formatPhone phone) = 12%nat) /\
  (String.length (only_digits phone) <> 10%nat -> formatPhone phone = phone) /\
  formatPhone (formatPhone phone) = formatPhone phone.
Proof.
  assert (Ten : String.length (only_digits phone) = 10%nat ->
                phone <> EmptyString /\
                formatPhone phone =
                  (substring 0 3 (only_digits phone) ++ " " ++
                   substring 3 3 (only_digits phone) ++ " " ++
                   substring 6 4 (only_digits phone))%string).
  { intros L. assert (N : phone <> EmptyString) by (intros ->; discriminate).
    split; [exact N|]. unfold formatPhone.
    apply String.eqb_neq in N. rewrite N. apply Nat.eqb_eq in L. now rewrite L. }
  assert (Other : String.length (only_digits phone) <> 10%nat -> formatPhone phone = phone).
  { intros L. unfold formatPhone. destruct (String.eqb phone EmptyString) eqn:E.
    - apply String.eqb_eq in E. now subst.
    - apply Nat.eqb_neq in L. now rewrite L. }
  destruct (Nat.eq_dec (String.length (only_digits phone)) 10) as [L|L].
  - destruct (Ten L) as (N & E).
    destruct (ten_digits_layout (only_digits phone) L (only_digits_all phone)) as (D & Len).
    split; [now rewrite E|]. split; [intros _; now rewrite E|]. split; [contradiction|].
    rewrite E at 1. unfold formatPhone at 1.
    match goal with |- (if String.eqb ?x EmptyString then _ else _) = _ =>
      assert (Nx : String.eqb x EmptyString = false)
        by (apply String.eqb_neq; intros Hx; rewrite Hx in Len; discriminate)
    end.
    rewrite Nx, D. apply Nat.eqb_eq in L. rewrite L. now rewrite E.
  - rewrite (Other L). split; [reflexivity|]. split; [contradiction|].
    split; [reflexivity|exact (Other L)].
Qed.

Example formatPhone_examples :
  formatPhone "(300) 123-4567" = "300 123 4567" /\
  formatPhone "300 123 4567" = "300 123 4567" /\
  formatPhone "+57 300 123 4567" = "+57 300 123 4567" /\
  formatPhone "" = "".
Proof. repeat split. Qed.

Lemma formatPhone_keeps_digits_witness :
  String.length (formatPhone "(300) 123-4567") = 12%nat /\
  formatPhone "12345" = "12345".
Proof.
  destruct (formatPhone_keeps_digits "(300) 123-4567") as (_ & T & _).
  destruct (formatPhone_keeps_digits "12345") as (_ & _ & O & _).
  split; [apply T; reflexivity|apply O; discriminate].
Defined.

Lemma digit_is_word (a : ascii) : is_digit a = true -> is_word a = true.
Proof. intros H. unfold is_word. now rewrite H. Qed.

Lemma all_digits_app (a b : string) :
  all_digits (a ++ b) = all_digits a && all_digits b.
Proof.
  induction a as [|x a IH]; simpl; [reflexivity|]. now rewrite IH, andb_assoc.
Qed.

Lemma starts_with_digit_all (s : string) :
  all_digits s = true -> starts_with_digit s = negb (String.eqb s EmptyString).
Proof.
  destruct s as [|a s]; simpl; [reflexivity|].
  intros H. apply andb_prop in H. now destruct H as [-> _].
Qed.

(** On a run of digits the lookahead succeeds exactly when a positive
    multiple of three digits remains. *)
Lemma thousands_ahead_digits (n : nat) (t : string) :
  (String.length t < n)%nat -> all_digits t = true ->
  thousands_ahead t =
  (0 <? String.length t)%nat && (String.length t mod 3 =? 0)%nat.
Proof.
  revert t. induction n as [|n IH]; intros t L A; [lia|].
  destruct t as [|a [|b [|c rest]]]; try reflexivity.
  cbn [all_digits] in A. repeat (apply andb_prop in A; destruct A as [? A]).
  cbn [thousands_ahead].
  repeat match goal with H : is_digit _ = true |- _ => rewrite H; clear H end.
  cbn [andb]. rewrite (starts_with_digit_all rest A).
  cbn [String.length] in *.
  replace (S (S (S (String.length rest)))) with (String.length rest + 1 * 3)%nat by lia.
  rewrite Nat.Div0.mod_add.
  destruct rest as [|r rest'].
  - reflexivity.
  - change (negb (negb (String.eqb (String r rest') EmptyString))) with false.
    cbn [orb]. rewrite (IH (String r rest')) by (cbn [String.length] in *; auto; lia).
    cbn [String.length]. reflexivity.
Qed.

Lemma thousands_ahead_three_more (t abc : string) :
  t <> EmptyString -> all_digits t = true -> all_digits abc = true ->
  String.length abc = 3%nat ->
  thousands_ahead (t ++ abc) = thousands_ahead t.
Proof.
  intros N A B L.
  rewrite (thousands_ahead_digits (S (String.length (t ++ abc))) (t ++ abc)),
          (thousands_ahead_digits (S (String.length t)) t); auto.
  - rewrite string_length_app, L.
    replace (String.length t + 3)%nat with (String.length t + 1 * 3)%nat by lia.
    rewrite Nat.Div0.mod_add.
    destruct t; [contradiction|]. reflexivity.
  - rewrite all_digits_app, A, B. reflexivity.
Qed.

Lemma group_from_three_more (t abc : string) (p : ascii) :
  is_digit p = true -> all_digits t = true -> all_digits abc = true ->
  String.length abc = 3%nat ->
  group_from (Some p) (t ++ abc) = (group_from (Some p) t ++ "." ++ abc)%string.
Proof.
  intros P A B L. revert p P. induction t as [|x t IH]; intros p P.
  - destruct abc as [|a [|b [|c [|? ?]]]]; try discriminate.
    cbn [all_digits] in B. repeat (apply andb_prop in B; destruct B as [? B]).
    cbn [append group_from head_char thousands_ahead starts_with_digit].
    unfold non_boundary, word_at. rewrite !andb_false_r, (digit_is_word p P).
    repeat match goal with
    | H : is_digit ?x = true |- context [is_digit ?x] => rewrite H
    | H : is_digit ?x = true |- context [is_word ?x] => rewrite (digit_is_word x H)
    end.
    reflexivity.
  - cbn [all_digits] in A. apply andb_prop in A. destruct A as [X A].
    cbn [append group_from head_char].
    assert (TA : thousands_ahead (String x t ++ abc) = thousands_ahead (String x t)).
    { apply thousands_ahead_three_more; auto; [discriminate|].
      cbn [all_digits]. now rewrite X, A. }
    cbn [append] in TA. rewrite TA, (IH A x X).
    destruct (non_boundary (Some p) (Some x) && thousands_ahead (String x t));
      reflexivity.
Qed.

Lemma strip_dots_group (prev : option ascii) (s : string) :
  strip_dots (group_from prev s) = strip_dots s.
Proof.
  revert prev. induction s as [|a s IH]; intros prev; cbn [group_from].
  - destruct (non_boundary prev (head_char EmptyString) && thousands_ahead EmptyString);
      reflexivity.
  - destruct (non_boundary prev (head_char (String a s)) && thousands_ahead (String a s));
      cbn [append strip_dots]; rewrite ?IH; reflexivity.
Qed.

Lemma strip_dots_digits (s : string) : all_digits s = true -> strip_dots s = s.
Proof.
  induction s as [|a s IH]; simpl; [reflexivity|].
  intros H. apply andb_prop in H. destruct H as [D R].
  destruct (Ascii.eqb a ".") eqn:E.
  - apply Ascii.eqb_eq in E. subst a. discriminate.
  - now rewrite (IH R).
Qed.

Lemma boundary_before_digit (x : ascii) :
  is_digit x = true -> non_boundary None (Some x) = false.
Proof. intros H. unfold non_boundary, word_at. now rewrite (digit_is_word x H). Qed.

Lemma boundary_after_minus (x : ascii) :
  is_digit x = true -> non_boundary (Some "-"%char) (Some x) = false.
Proof. intros H. unfold non_boundary, word_at. now rewrite (digit_is_word x H). Qed.

Lemma thousands_ahead_after_minus (s : string) : thousands_ahead (String "-" s) = false.
Proof. destruct s as [|b [|c r]]; reflexivity. Qed.

(** X23: thousands separators.  On a run of digits the replacement used
    by [formatCurrency] leaves up to three digits alone, and for every
    three digits appended to a non-empty run it appends a dot and those
    digits: dots fall every three digits counted from the right, never in
    front; a minus sign in front gets no dot after it; and deleting the dots
    gives the digits back. *)
Theorem group_thousands_every_three_digits (s abc : string) :
  all_digits s = true -> all_digits abc = true -> String.length abc = 3%nat ->
  ((String.length s <= 3)%nat -> group_thousands s = s) /\
  (s <> EmptyString ->
   group_thousands (s ++ abc) = (group_thousands s ++ "." ++ abc)%string) /\
  group_thousands ("-" ++ s) = ("-" ++ group_thousands s)%string /\
  strip_dots (group_thousands s) = s.
Proof.
  intros A B L. unfold group_thousands. split; [|split; [|split]].
  - intros Le.
    destruct s as [|a [|b [|c [|? ?]]]]; cbn [String.length] in Le; try lia;
      cbn [all_digits] in A; repeat (apply andb_prop in A; destruct A as [? A]);
      cbn [group_from head_char thousands_ahead starts_with_digit];
      unfold non_boundary, word_at; rewrite ?andb_false_r;
      repeat match goal with
      | H : is_digit ?x = true |- context [is_digit ?x] => rewrite H
      | H : is_digit ?x = true |- context [is_word ?x] => rewrite (digit_is_word x H)
      end;
      reflexivity.
  - intros N. destruct s as [|x t]; [contradiction|].
    cbn [all_digits] in A. apply andb_prop in A. destruct A as [X A].
    cbn [append group_from head_char]. rewrite !(boundary_before_digit x X).
    cbn [andb append].
    now rewrite (group_from_three_more t abc x X A B L).
  - destruct s as [|x t]; [reflexivity|].
    cbn [all_digits] in A. apply andb_prop in A. destruct A as [X A].
    cbn [append group_from head_char].
    rewrite (thousands_ahead_after_minus (String x t)), andb_false_r.
    rewrite (boundary_before_digit x X), (boundary_after_minus x X).
    reflexivity.
  - rewrite strip_dots_group. now apply strip_dots_digits.
Qed.

Lemma group_thousands_every_three_digits_witness :
  group_thousands "1234567" = (group_thousands "1234" ++ "." ++ "567")%string /\
  group_thousands ("-" ++ "123") = ("-" ++ "123")%string.
Proof.
  destruct (group_thousands_every_three_digits "1234" "567" eq_refl eq_refl eq_refl)
    as (_ & Three & _).
  destruct (group_thousands_every_three_digits "123" "000" eq_refl eq_refl eq_refl)
    as (Small & _ & Neg & _).
  split; [apply Three; discriminate|].
  rewrite Neg, Small; [reflexivity|simpl; lia].
Defined.

Example formatCurrency_examples :
  formatCurrency (JNum 1234567) = Some "$1.234.567" /\
  formatCurrency (JNum 999) = Some "$999" /\
  formatCurrency (JNum 1000) = Some "$1.000" /\
  formatCurrency (JNum (-1234)) = Some "$-1.234" /\
  formatCurrency JUndefined = Some "$0" /\
  formatCurrency JNaN = Some "$0".
Proof. repeat split. Qed.
